(** * misc-functions: NumPy/FITS utility functions, embedded in Rocq

    Shallow embedding of [functions_misc.py] and [functions_fits.py].

    - NumPy [float64] samples are IEEE-754 binary64 values, taken from the
      standard library's executable specification [SpecFloat] (precision 53,
      [emax] 1024, round to nearest even, a single NaN).
    - An [ndarray] is a shape together with its samples in row-major order.
    - Arrays are Python objects: they live in a heap and are passed by
      reference, so that in-place updates are visible to the caller.
    - A FITS header is the ordered list of its cards.
    - Python exceptions are the [Raise] results of an error monad. *)

From Stdlib Require Import ZArith Lia Bool.
From Stdlib Require Import Floats.SpecFloat.
From stdpp Require Import base strings list.

Open Scope Z_scope.

(** ** IEEE-754 binary64 *)

Module F64.

Abbreviation float := spec_float.

Definition prec : Z := 53.
Definition emax : Z := 1024.

Definition add : float -> float -> float := SFadd prec emax.
Definition sub : float -> float -> float := SFsub prec emax.
Definition mul : float -> float -> float := SFmul prec emax.
Definition div : float -> float -> float := SFdiv prec emax.
Definition sqrt : float -> float := SFsqrt prec emax.

(** The comparisons of IEEE-754: every ordered comparison with a NaN is
    false, [!=] with a NaN is true. *)
Definition ltb (x y : float) : bool := SFltb x y.
Definition eqb (x y : float) : bool := SFeqb x y.
Definition geb (x y : float) : bool := SFleb y x.
Definition neqb (x y : float) : bool := negb (SFeqb x y).

Definition nan : float := S754_nan.
Definition is_nan (x : float) : bool :=
  match x with S754_nan => true | _ => false end.

(** [dyadic m e] is the double nearest to [m * 2^e]; [of_Z] is the conversion
    of an integer, as of an [int64] sample, to [float64]. *)
Definition dyadic (m e : Z) : float := binary_normalize prec emax m e false.
Definition of_Z (z : Z) : float := dyadic z 0.

Definition zero : float := S754_zero false.
Definition one : float := of_Z 1.

(** Well-formed binary64 values: the mantissa is canonical and the exponent
    in range. Every value NumPy can hold is of this form. *)
Definition valid (x : float) : bool := valid_binary prec emax x.

Definition is_finite (x : float) : bool :=
  match x with S754_zero _ | S754_finite _ _ _ => true | _ => false end.

(** Equality up to the sign of zero: the same value, or two zeros. *)
Definition same_value (x y : float) : Prop :=
  x = y \/ (exists s t, x = S754_zero s /\ y = S754_zero t).

End F64.

Import F64.

(** ** Python exceptions and results *)

Inductive exn : Set :=
| KeyError
| TypeError
| ValueError
| IndexError
| OverflowError
| UnboundLocalError
| IOError
| InvalidReference.
(* [InvalidReference] is no Python exception: it is the result of reading a
   heap location that was never allocated, which no Python program holds. *)

Inductive Result (A : Type) : Type :=
| Ok (a : A)
| Raise (e : exn).
Arguments Ok {A} a.
Arguments Raise {A} e.

Definition rbind {A B} (r : Result A) (k : A -> Result B) : Result B :=
  match r with
  | Ok a => k a
  | Raise e => Raise e
  end.

(** ** Arrays *)

Record ndarray : Type := mk_ndarray { shape : list nat; flat : list float }.

(** Number of samples of a shape. *)
Definition size (s : list nat) : nat := foldr Nat.mul 1%nat s.

Definition wf_array (a : ndarray) : Prop := length (flat a) = size (shape a).

Definition valid_array (a : ndarray) : Prop :=
  wf_array a /\ Forall (fun x => valid x = true) (flat a).

Definition ndim (a : ndarray) : nat := length (shape a).

(** 1-D and 0-d array literals; a Python scalar operand behaves as a 0-d
    array. *)
Definition vec (l : list float) : ndarray := mk_ndarray [length l] l.
Definition scalar (x : float) : ndarray := mk_ndarray [] [x].

(** [np.ones(shape=s)] *)
Definition np_ones (s : list nat) : ndarray :=
  mk_ndarray s (replicate (size s) one).

(** *** Row-major index arithmetic *)

(** The multi-index of the [q]-th sample of an array of shape [s]. *)
Fixpoint unravel (s : list nat) (q : nat) : list nat :=
  match s with
  | [] => []
  | _ :: ds => (q / size ds)%nat :: unravel ds (q mod size ds)
  end.

(** The position in [flat] of the sample at a multi-index. *)
Fixpoint ravel (s idx : list nat) : nat :=
  match s, idx with
  | _ :: ds, i :: idx' => (i * size ds + ravel ds idx')%nat
  | _, _ => 0%nat
  end.

(** A full multi-index, every component below its dimension. *)
Fixpoint in_bounds (s idx : list nat) : bool :=
  match s, idx with
  | [], [] => true
  | d :: ds, i :: idx' => (i <? d)%nat && in_bounds ds idx'
  | _, _ => false
  end.

Definition get (a : ndarray) (idx : list nat) : float :=
  nth (ravel (shape a) idx) (flat a) nan.

(** *** Broadcasting *)

(** NumPy's rule on shapes aligned at their last dimension: two dimensions
    are compatible when they are equal or one of them is 1. The shapes are
    given reversed. *)
Fixpoint broadcast_rev (s t : list nat) : option (list nat) :=
  match s, t with
  | [], _ => Some t
  | _, [] => Some s
  | d :: s', e :: t' =>
      match broadcast_rev s' t' with
      | None => None
      | Some r =>
          if (d =? e)%nat then Some (d :: r)
          else if (d =? 1)%nat then Some (e :: r)
          else if (e =? 1)%nat then Some (d :: r)
          else None
      end
  end.

Definition broadcast_shapes (s t : list nat) : option (list nat) :=
  option_map (@rev nat) (broadcast_rev (rev s) (rev t)).

(** The multi-index, in an operand of shape [s], of the sample that goes to
    the multi-index [idx] of the broadcast result: the leading dimensions
    the operand lacks are dropped and a dimension of length 1 is repeated. *)
Definition bindex (s idx : list nat) : list nat :=
  zip_with (fun d i => if (d =? 1)%nat then 0%nat else i)
           s (drop (length idx - length s) idx).

(** An elementwise binary ufunc ([np.divide], [np.multiply], ...):
    [ValueError] when the operands cannot be broadcast together. *)
Definition np_binop (f : float -> float -> float) (a b : ndarray)
  : Result ndarray :=
  match broadcast_shapes (shape a) (shape b) with
  | None => Raise ValueError
  | Some s =>
      Ok (mk_ndarray s
            (map (fun q => let idx := unravel s q in
                           f (get a (bindex (shape a) idx))
                             (get b (bindex (shape b) idx)))
                 (seq 0 (size s))))
  end.

(** [np.where(c)] for a boolean array [c] of shape [s]: the multi-indices of
    the true samples, in row-major order. *)
Definition np_where (s : list nat) (c : list bool) : list (list nat) :=
  map (unravel s) (filter (fun q => nth q c false) (seq 0 (size s))).

(** [a[idxs] = v] for the tuple [idxs] of [nidx] index arrays that
    [np.where] returns. More index arrays than dimensions is an
    [IndexError] even when they are empty, and so is an index out of bounds;
    the indices are checked before any sample is written. (With fewer index
    arrays than dimensions NumPy would assign whole sub-arrays; the index
    tuples of this module never have fewer.) *)
Definition setitem_indices (a : ndarray) (nidx : nat)
    (idxs : list (list nat)) (v : float) : Result ndarray :=
  if (ndim a <? nidx)%nat then Raise IndexError
  else if forallb (in_bounds (shape a)) idxs then
    Ok (mk_ndarray (shape a)
          (foldl (fun fl idx => <[ravel (shape a) idx := v]> fl) (flat a) idxs))
  else Raise IndexError.

(** The number of index arrays [np.where] returns for a shape: one per
    dimension, a 0-d array counting as 1-D. *)
Definition where_arity (s : list nat) : nat := Nat.max 1 (length s).

(** ** State and exceptions *)

(** A computation over a state [S] that returns or raises; the state
    reached is kept in both cases. *)
Definition St (S A : Type) : Type := S -> S * Result A.

Definition ret {S A} (a : A) : St S A := fun h => (h, Ok a).
Definition raise {S A} (e : exn) : St S A := fun h => (h, Raise e).
Definition bind {S A B} (m : St S A) (k : A -> St S B) : St S B :=
  fun h => match m h with
           | (h', Ok a) => k a h'
           | (h', Raise e) => (h', Raise e)
           end.
Definition lift {S A} (r : Result A) : St S A := fun h => (h, r).

Notation "x <- m ;; k" := (bind m (fun x => k))
  (at level 100, m at next level, right associativity).
Notation "x <~ r ;; k" := (rbind r (fun x => k))
  (at level 100, r at next level, right associativity).

(** ** The heap of array objects *)

Abbreviation loc := nat.
Abbreviation heap := (list ndarray).
Definition M (A : Type) : Type := St heap A.

Definition read (l : loc) : M ndarray :=
  fun h => match h !! l with
           | Some a => (h, Ok a)
           | None => (h, Raise InvalidReference)
           end.

(** In-place update of the object at [l]. *)
Definition write (l : loc) (a : ndarray) : M unit :=
  fun h => match h !! l with
           | Some _ => (<[l := a]> h, Ok tt)
           | None => (h, Raise InvalidReference)
           end.

(** A new array object. *)
Definition alloc (a : ndarray) : M loc :=
  fun h => (h ++ [a], Ok (length h)).

(** A Python argument that is either a float or an array object. *)
Inductive pyarg : Type :=
| PyFloat (x : float)
| PyArray (l : loc).

Definition read_arg (a : pyarg) : M ndarray :=
  match a with
  | PyFloat x => ret (scalar x)
  | PyArray l => read l
  end.

(** ** FITS headers and files *)

(** The value of a header card: a Python [int], [float] or [str]. *)
Inductive hvalue : Type :=
| HInt (z : Z)
| HFloat (x : float)
| HStr (s : string).

(** A header is the list of its cards, in file order; a keyword may occur
    more than once. Keywords are stored in upper case, as [astropy]
    normalises them. *)
Abbreviation card := (string * hvalue)%type.
Abbreviation header := (list card).

(** [header.keys()]: the list of the keywords. *)
Definition header_keys (h : header) : list string := map fst h.

Definition has_key (keys : list string) (key : string) : bool :=
  existsb (String.eqb key) keys.

(** [header[key]]: the value of the first card with that keyword. *)
Fixpoint header_get (h : header) (key : string) : Result hvalue :=
  match h with
  | [] => Raise KeyError
  | (k, v) :: h' => if String.eqb k key then Ok v else header_get h' key
  end.

Definition commentary (k : string) : bool :=
  String.eqb k "" || String.eqb k "COMMENT" || String.eqb k "HISTORY"
  || String.eqb k "END".

Fixpoint update_first (h : header) (key : string) (v : hvalue) : header :=
  match h with
  | [] => []
  | (k, w) :: h' =>
      if String.eqb k key then (k, v) :: h' else (k, w) :: update_first h' key v
  end.

(** [Header.append] of a card that is not commentary: the card goes after
    the last card that is not commentary, before the trailing commentary
    and blank cards. *)
Fixpoint append_card (h : header) (c : card) : header :=
  match h with
  | [] => [c]
  | x :: h' =>
      if forallb (fun y => commentary (fst y)) (x :: h') then c :: x :: h'
      else x :: append_card h' c
  end.

(** [header[key] = v] for a keyword that is not commentary: the first card
    with the keyword gets the value, or a new card is appended. *)
Definition header_set (h : header) (key : string) (v : hvalue) : header :=
  if has_key (header_keys h) key then update_first h key v
  else append_card h (key, v).

(** [del header[key]]: every card with the keyword is deleted; [KeyError]
    when there is none. *)
Definition header_del (h : header) (key : string) : Result header :=
  if has_key (header_keys h) key
  then Ok (filter (fun c => negb (String.eqb (fst c) key)) h)
  else Raise KeyError.

(** The image and the header of a FITS file, as [fits.getdata(file,
    header=True)] returns them, and the files by their paths. The image of
    a file has at least one dimension: [fits.getdata] raises for an HDU
    without data and never returns an array of no dimension. *)
Record hdu : Type := mk_hdu { hdu_data : ndarray; hdu_header : header }.
Definition fs : Type := string -> option hdu.
Definition IO (A : Type) : Type := St fs A.

Definition getdata (path : string) : IO hdu :=
  fun f => match f path with
           | Some x => (f, Ok x)
           | None => (f, Raise IOError)
           end.

(** [fits.getheader(file)] *)
Definition getheader (path : string) : IO header :=
  h <- getdata path ;; ret (hdu_header h).

(** [fits.writeto(path, data, header, overwrite=True)]. Astropy builds the
    HDU that it writes from the data: the structural cards of the header
    (SIMPLE, BITPIX, NAXIS, NAXISn) are set again from the array, whatever
    the header that is given says. [written_header data h] is the header
    that the file holds afterwards; the data is stored as it is. *)
Definition writeto (written_header : ndarray -> header -> header)
    (path : string) (data : ndarray) (h : header) : IO unit :=
  fun f => (fun p => if String.eqb p path
                     then Some (mk_hdu data (written_header data h))
                     else f p,
            Ok tt).

(** *** Python numbers in NumPy arithmetic *)

(** [float(v)] *)
Definition py_float (v : hvalue) : Result float :=
  match v with
  | HInt z => let x := of_Z z in
              if is_finite x then Ok x else Raise OverflowError
  | HFloat x => Ok x
  | HStr _ => Raise TypeError
  end.

(** [v * y] for a Python float [y]. *)
Definition py_mul_float (v : hvalue) (y : float) : Result float :=
  x <~ py_float v ;; Ok (mul x y).

(** ** functions_misc.py *)

(** [np.log(2.)], the double nearest to ln 2: 0x1.62e42fefa39efp-1. *)
Definition np_log_2 : float := S754_finite false 6243314768165359 (-53).

(** [2.*np.sqrt(2.*np.log(2.))] *)
Definition fwhm_factor : float :=
  mul (of_Z 2) (sqrt (mul (of_Z 2) np_log_2)).

(** [newres_sigma**2.-oldres_sigma**2.], the value under the square root.
    [x**2.] on a NumPy scalar is the [pow] of the C library, which is
    within one unit in the last place of the square; it is taken here as
    the correctly rounded square. The results below use the sign of the
    difference and the difference of two equal squares only. *)
Definition kernel_radicand (oldres newres : float) : float :=
  let oldres_sigma := div oldres fwhm_factor in
  let newres_sigma := div newres fwhm_factor in
  sub (mul newres_sigma newres_sigma) (mul oldres_sigma oldres_sigma).

(** The kernel size of [fconvolve], in pixels. [np.sqrt] of a negative
    number is NaN: NumPy warns and raises nothing. *)
Definition fconvolve_kernelsize (oldres newres : float) (hdr : header)
  : Result float :=
  let kernel_arcmin := sqrt (kernel_radicand oldres newres) in
  cdelt2 <~ header_get hdr "CDELT2" ;;
  pixelsize <~ py_mul_float cdelt2 (of_Z 60) ;;
  Ok (div kernel_arcmin pixelsize).

Definition np_map (f : float -> float) (a : ndarray) : ndarray :=
  mk_ndarray (shape a) (map f (flat a)).

(** [np.outer(a, b)] *)
Definition np_outer (a b : ndarray) : ndarray :=
  mk_ndarray [length (flat a); length (flat b)]
    (flat_map (fun x => map (fun y => mul x y) (flat b)) (flat a)).

(** [data[np.isnan(data)] = 0.0] *)
Definition nan_to_zero (a : ndarray) : ndarray :=
  np_map (fun x => if is_nan x then zero else x) a.

Section Library.

(** Routines of SciPy, NumPy and Astropy whose numerical content is outside
    this development. They build new arrays and leave their arguments
    alone.
    - [gaussian M std] is [scipy.signal.gaussian(M, std)];
    - [np_sum] is [np.sum] of a whole array;
    - [fftconvolve a k] is [signal.fftconvolve(a, k, mode="same")];
    - [convolve_fft a k] is Astropy's [convolve_fft] with the keyword
      arguments of [fconvolve];
    - [np_gradient a] is [np.gradient(a)] unpacked into two arrays;
    - [griddata_cubic image mask] is the cubic [interpolate.griddata] of
      the samples of [image] where [mask] is not NaN, on the pixel grid of
      [image]. *)
Variable gaussian : nat -> float -> ndarray.
Variable np_sum : ndarray -> float.
Variable fftconvolve : ndarray -> ndarray -> Result ndarray.
Variable convolve_fft : ndarray -> ndarray -> Result ndarray.
Variable np_gradient : ndarray -> Result (ndarray * ndarray).
Variable griddata_cubic : ndarray -> ndarray -> Result ndarray.

(** [fconvolve(oldres, newres, data, header, method="scipy")]. With
    [method="scipy"] the NaNs of [data] are overwritten in place; with a
    method that is neither ["scipy"] nor ["astropy"] the name
    [data_smoothed] is unbound at the [return]. *)
Definition fconvolve (oldres newres : float) (data : loc) (hdr : header)
    (method : string) : M loc :=
  kernelsize <- lift (fconvolve_kernelsize oldres newres hdr) ;;
  d <- read data ;;
  match shape d with
  | data_size_x :: data_size_y :: _ =>
      let kernel_x := gaussian data_size_x kernelsize in
      let kernel_y := gaussian data_size_y kernelsize in
      let kernel := np_outer kernel_x kernel_y in
      kernel_norm <- lift (np_binop div kernel (scalar (np_sum kernel))) ;;
      if String.eqb method "scipy" then
        _ <- write data (nan_to_zero d) ;;
        d' <- read data ;;
        data_smoothed <- lift (fftconvolve d' kernel_norm) ;;
        alloc data_smoothed
      else if String.eqb method "astropy" then
        data_smoothed <- lift (convolve_fft d kernel_norm) ;;
        alloc data_smoothed
      else raise UnboundLocalError
  | _ => raise IndexError
  end.

(** [fgradient(image)] *)
Definition fgradient (image : loc) : M loc :=
  img <- read image ;;
  g <- lift (np_gradient img) ;;
  let grad_y := fst g in
  let grad_x := snd g in
  sq <- lift (np_binop add (np_map (fun x => mul x x) grad_x)
                           (np_map (fun x => mul x x) grad_y)) ;;
  alloc (np_map sqrt sq).

(** [fmaskinterp(image, mask)]: [image.shape[1]] needs two dimensions. *)
Definition fmaskinterp (image mask : loc) : M loc :=
  img <- read image ;;
  m <- read mask ;;
  match shape img with
  | _ :: _ :: _ =>
      image_interp <- lift (griddata_cubic img m) ;;
      alloc image_interp
  | _ => raise IndexError
  end.

End Library.

(** The mask of [fmask_snr] and [fmask_signal]: [np.ones] of the shape of
    [data], NaN where the boolean array [low] (of shape [s]) is true, and
    the masked data [data*mask]. *)
Definition nan_mask (data : ndarray) (s : list nat) (low : list bool)
  : Result (ndarray * ndarray) :=
  mask <~ setitem_indices (np_ones (shape data)) (where_arity s)
            (np_where s low) nan ;;
  data_clean <~ np_binop mul data mask ;;
  Ok (mask, data_clean).

(** [fmask_snr(data, noise, snr)] *)
Definition fmask_snr (data : loc) (noise : pyarg) (snr : float)
  : M (loc * loc) :=
  d <- read data ;;
  n <- read_arg noise ;;
  data_snr <- lift (np_binop div d n) ;;
  r <- lift (nan_mask d (shape data_snr)
               (map (fun x => ltb x snr) (flat data_snr))) ;;
  mask <- alloc (fst r) ;;
  data_clean <- alloc (snd r) ;;
  ret (mask, data_clean).

(** [fmask_signal(data, signal)] *)
Definition fmask_signal (data : loc) (signal : float) : M (loc * loc) :=
  d <- read data ;;
  r <- lift (nan_mask d (shape d) (map (fun x => ltb x signal) (flat d))) ;;
  mask <- alloc (fst r) ;;
  data_clean <- alloc (snd r) ;;
  ret (mask, data_clean).

(** [a[cond(a)] -= c] : the samples selected by the boolean mask are
    replaced in place; the mask is computed from the array before the
    update. *)
Definition isub_where (cond : float -> bool) (c : float) (a : ndarray)
  : ndarray :=
  mk_ndarray (shape a) (map (fun x => if cond x then sub x c else x) (flat a)).

(** [fmaptheta_halfpolar(angles, deg=False)]. The array [angles] is updated
    in place twice and the same object is returned. *)
Definition fmaptheta_halfpolar (angles : loc) (deg : bool) : M loc :=
  if negb deg then
    a <- read angles ;;
    _ <- write angles
           (isub_where (fun x => geb x (of_Z 1) && neqb x (of_Z 2)) (of_Z 1) a) ;;
    a <- read angles ;;
    _ <- write angles (isub_where (fun x => eqb x (of_Z 2)) (of_Z 2) a) ;;
    ret angles
  else
    a <- read angles ;;
    _ <- write angles
           (isub_where (fun x => geb x (of_Z 180) && neqb x (of_Z 360))
              (of_Z 180) a) ;;
    a <- read angles ;;
    _ <- write angles (isub_where (fun x => eqb x (of_Z 360)) (of_Z 360) a) ;;
    ret angles.

(** ** functions_fits.py *)

(** *** 1-D arrays of [int64] or [float64] samples *)

Inductive np1d : Type :=
| Int64s (l : list Z)
| Float64s (l : list float).

(** A sample of either type. *)
Inductive num : Type :=
| NInt (z : Z)
| NFloat (x : float).

Definition np1d_length (a : np1d) : nat :=
  match a with
  | Int64s l => length l
  | Float64s l => length l
  end.

Definition np1d_get (a : np1d) (i : nat) : option num :=
  match a with
  | Int64s l => NInt <$> l !! i
  | Float64s l => NFloat <$> l !! i
  end.

(** Two's complement wrap-around of [int64] arithmetic. *)
Definition wrap64 (z : Z) : Z := (z + 2 ^ 63) mod 2 ^ 64 - 2 ^ 63.

Definition in_int64 (z : Z) : bool := (- 2 ^ 63 <=? z) && (z <? 2 ^ 63).

(** The least integer not below a finite float. *)
Definition ceil (x : float) : Z :=
  match x with
  | S754_finite s m e =>
      match e with
      | Zneg p => if s then - (Zpos m / 2 ^ Zpos p)
                  else (Zpos m + 2 ^ Zpos p - 1) / 2 ^ Zpos p
      | _ => if s then - (Zpos m * 2 ^ e) else Zpos m * 2 ^ e
      end
  | _ => 0
  end.

(** [np.arange(n)]: [int64] samples for a Python int, [float64] samples for
    a float, whose length must be computable. *)
Definition np_arange (n : hvalue) : Result np1d :=
  match n with
  | HInt z => Ok (Int64s (map Z.of_nat (seq 0 (Z.to_nat z))))
  | HFloat x =>
      if is_finite x
      then Ok (Float64s (map (fun i => of_Z (Z.of_nat i))
                             (seq 0 (Z.to_nat (ceil x)))))
      else Raise ValueError
  | HStr _ => Raise TypeError
  end.

(** [a op v] for an array [a] and a Python number [v]. An [int64] array
    stays [int64] with a Python int that fits in [int64] (one that does
    not is an [OverflowError] in NumPy 2; earlier versions change the type
    of the array); every other pair of numbers is computed in [float64]. *)
Definition arr_op (fz : Z -> Z -> Z) (ff : float -> float -> float)
    (a : np1d) (v : hvalue) : Result np1d :=
  match a, v with
  | _, HStr _ => Raise TypeError
  | Int64s l, HInt z =>
      if in_int64 z then Ok (Int64s (map (fun x => wrap64 (fz x z)) l))
      else Raise OverflowError
  | Int64s l, HFloat y => Ok (Float64s (map (fun x => ff (of_Z x) y) l))
  | Float64s l, _ =>
      y <~ py_float v ;; Ok (Float64s (map (fun x => ff x y) l))
  end.

(** [v op a], the Python number on the left. *)
Definition op_arr (fz : Z -> Z -> Z) (ff : float -> float -> float)
    (v : hvalue) (a : np1d) : Result np1d :=
  arr_op (fun x z => fz z x) (fun x y => ff y x) a v.

(** [ffreqaxis(file)] *)
Definition ffreqaxis (file : string) : IO np1d :=
  header <- getheader file ;;
  lift (CRVAL3 <~ header_get header "CRVAL3" ;;
        CRPIX3 <~ header_get header "CRPIX3" ;;
        CDELT3 <~ header_get header "CDELT3" ;;
        NAXIS3 <~ header_get header "NAXIS3" ;;
        r <~ np_arange NAXIS3 ;;
        freqpixels <~ arr_op Z.add add r (HInt 1) ;;
        d <~ arr_op Z.sub sub freqpixels CRPIX3 ;;
        p <~ arr_op Z.mul mul d CDELT3 ;;
        op_arr Z.add add CRVAL3 p).

(** The axis-3 keywords that [fheader_3Dto2D] deletes. *)
Definition keys_3D : list string :=
  ["NAXIS3"; "CDELT3"; "CROTA3"; "CRPIX3"; "CRVAL3"; "CTYPE3"].

(** The header that [fheader_3Dto2D] computes. [header_keys] is the list
    of keywords taken before [NAXIS] is assigned. *)
Definition header_3Dto2D (hdr : header) : Result header :=
  let keys := header_keys hdr in
  let hdr := header_set hdr "NAXIS" (HInt 2) in
  foldl (fun r key =>
           h <~ r ;; if has_key keys key then header_del h key else Ok h)
        (Ok hdr) keys_3D.

Section FitsLibrary.

(** Routines of Astropy and NumPy whose content is outside this
    development.
    - [written_header data h] is the header of the file that
      [fits.writeto] writes for [data] and [h];
    - [np_sum_axis0 a] is [np.sum(a, axis=0)] for an array of at least one
      dimension. The order in which NumPy adds the samples depends on the
      layout of the array (a contiguous line is summed pairwise, with
      several accumulators), so the sum is specified by [sums_along_axis0]
      below and not computed here. *)
Variable written_header : ndarray -> header -> header.
Variable np_sum_axis0 : ndarray -> ndarray.

(** [fheader_3Dto2D(filedir_in, filedir_out, write=False)] *)
Definition fheader_3Dto2D (filedir_in filedir_out : string) (write : bool)
  : IO header :=
  h <- getdata filedir_in ;;
  hdr <- lift (header_3Dto2D (hdu_header h)) ;;
  _ <- (if write then writeto written_header filedir_out (hdu_data h) hdr
        else ret tt) ;;
  ret hdr.

(** The samples of [a] along axis 0 at the position [p] of the other
    axes. *)
Definition axis0_samples (a : ndarray) (p : nat) : list float :=
  match shape a with
  | [] => []
  | n :: s => map (fun k => nth (k * size s + p)%nat (flat a) nan) (seq 0 n)
  end.

(** The number of samples that are not NaN. *)
Definition count_valid (l : list float) : Z :=
  Z.of_nat (length (filter (fun x => negb (is_nan x)) l)).

(** [np.nanmean(a, axis=0)], as NumPy computes it for an array of floats:
    the NaNs are replaced by 0, the array is summed along axis 0, and the
    sum is divided by the number of samples that are not NaN; 0/0 is NaN.
    A 0-d array has no axis 0. *)
Definition np_nanmean_axis0 (a : ndarray) : Result ndarray :=
  match shape a with
  | [] => Raise ValueError
  | _ :: s =>
      let arr := nan_to_zero a in
      let tot := np_sum_axis0 arr in
      Ok (mk_ndarray s
            (map (fun p => div (nth p (flat tot) nan)
                               (of_Z (count_valid (axis0_samples a p))))
                 (seq 0 (size s))))
  end.

(** [fcubeavg(filedir_in, filedir_out, write=False)] *)
Definition fcubeavg (filedir_in filedir_out : string) (write : bool)
  : IO (ndarray * header) :=
  h <- getdata filedir_in ;;
  data_avg <- lift (np_nanmean_axis0 (hdu_data h)) ;;
  header_avg <- fheader_3Dto2D filedir_in "." false ;;
  _ <- (if write then writeto written_header filedir_out data_avg header_avg
        else ret tt) ;;
  ret (data_avg, header_avg).

End FitsLibrary.

(** *** Sky coordinates *)

(** A grid of sky coordinates as a [SkyCoord] of the frame holds it: the
    two angles in degrees, [ra] and [dec] in the equatorial frame, [l] and
    [b] in the Galactic frame. *)
Record equatorial : Type := mk_equatorial { ra_deg : ndarray; dec_deg : ndarray }.
Record galactic : Type := mk_galactic { l_deg : ndarray; b_deg : ndarray }.

(** [np.abs] and unary minus on a sample. *)
Definition np_abs (x : float) : float := SFabs x.
Definition np_negative (x : float) : float := SFopp x.

(** [a[ii] = v] for a boolean array [ii] of the shape of [a]. *)
Definition setitem_mask (a : ndarray) (ii : list bool) (v : float) : ndarray :=
  mk_ndarray (shape a) (zip_with (fun (x : float) (c : bool) => if c then v else x)
              (flat a) ii).

(** [fhighlatmask(lb_coords, blim)] *)
Definition fhighlatmask (lb_coords : galactic) (blim : float) : ndarray :=
  let bgrid := b_deg lb_coords in
  let mask := np_ones (shape bgrid) in
  let ii := map (fun b => ltb (np_abs b) blim) (flat bgrid) in
  setitem_mask mask ii nan.

(** The samples of a 1-D array as [float64]. *)
Definition np1d_floats (a : np1d) : list float :=
  match a with Int64s l => map of_Z l | Float64s l => l end.

(** [np.meshgrid(x, y)]: two arrays of shape (len(y), len(x)), the first
    with [x] in every row, the second with [y] in every column. *)
Definition np_meshgrid (x y : list float) : ndarray * ndarray :=
  (mk_ndarray [length y; length x] (concat (map (fun _ => x) y)),
   mk_ndarray [length y; length x]
     (concat (map (fun v => replicate (length x) v) y))).

(** The pixel grid of the four [fcoordgrid] functions: the pixel numbers of
    both axes, from 0, minus 0.5. *)
Definition pixel_grid (hdr : header) : Result (ndarray * ndarray) :=
  NAXIS1 <~ header_get hdr "NAXIS1" ;;
  NAXIS2 <~ header_get hdr "NAXIS2" ;;
  r1 <~ np_arange NAXIS1 ;;
  xarray <~ arr_op Z.sub sub r1 (HFloat (dyadic 1 (-1))) ;;
  r2 <~ np_arange NAXIS2 ;;
  yarray <~ arr_op Z.sub sub r2 (HFloat (dyadic 1 (-1))) ;;
  Ok (np_meshgrid (np1d_floats xarray) (np1d_floats yarray)).

Section Astropy.

(** The routines of [astropy]: the WCS of a header, its transformation of
    pixel coordinates to world coordinates, the construction of a
    [SkyCoord] in a frame, and the change of frame. *)
Variable wcs : Type.
Variable WCS : header -> Result wcs.
Variable all_pix2world :
  wcs -> ndarray -> ndarray -> Result (ndarray * ndarray).
Variable SkyCoord_fk5 : ndarray -> ndarray -> Result equatorial.
Variable SkyCoord_galactic : ndarray -> ndarray -> Result galactic.
Variable to_galactic : equatorial -> Result galactic.
Variable to_fk5 : galactic -> Result equatorial.

(** [fcoordgrid_EQ(filedir)] *)
Definition fcoordgrid_EQ (filedir : string) : IO equatorial :=
  h <- getdata filedir ;;
  lift (w <~ WCS (hdu_header h) ;;
        grid <~ pixel_grid (hdu_header h) ;;
        world <~ all_pix2world w (fst grid) (snd grid) ;;
        SkyCoord_fk5 (fst world) (snd world)).

(** [fcoordgrid_GAL(filedir)] *)
Definition fcoordgrid_GAL (filedir : string) : IO galactic :=
  h <- getdata filedir ;;
  lift (w <~ WCS (hdu_header h) ;;
        grid <~ pixel_grid (hdu_header h) ;;
        world <~ all_pix2world w (fst grid) (snd grid) ;;
        SkyCoord_galactic (fst world) (snd world)).

(** [fcoordgrid_EQtoGAL(filedir)] *)
Definition fcoordgrid_EQtoGAL (filedir : string) : IO galactic :=
  h <- getdata filedir ;;
  lift (w <~ WCS (hdu_header h) ;;
        grid <~ pixel_grid (hdu_header h) ;;
        world <~ all_pix2world w (fst grid) (snd grid) ;;
        radec_coords <~ SkyCoord_fk5 (fst world) (snd world) ;;
        to_galactic radec_coords).

(** [fcoordgrid_GALtoEQ(filedir)] *)
Definition fcoordgrid_GALtoEQ (filedir : string) : IO equatorial :=
  h <- getdata filedir ;;
  lift (w <~ WCS (hdu_header h) ;;
        grid <~ pixel_grid (hdu_header h) ;;
        world <~ all_pix2world w (fst grid) (snd grid) ;;
        lb_coords <~ SkyCoord_galactic (fst world) (snd world) ;;
        to_fk5 lb_coords).

(** [fmask2DEQhighlat(filedir, blim)] *)
Definition fmask2DEQhighlat (filedir : string) (blim : float) : IO ndarray :=
  h <- getdata filedir ;;
  lb_coords <- fcoordgrid_EQtoGAL filedir ;;
  let mask := fhighlatmask lb_coords blim in
  lift (np_binop mul (hdu_data h) mask).

End Astropy.

(** *** Reprojection *)

(** The keywords of the minimal header of [freproject_2D], and those whose
    cards are copied from the header of the image. *)
Definition clean_keys : list string :=
  ["NAXIS"; "NAXIS1"; "NAXIS2"; "CTYPE1"; "CRPIX1"; "CRVAL1"; "CDELT1";
   "CTYPE2"; "CRPIX2"; "CRVAL2"; "CDELT2"].

Definition copied_keys : list string :=
  ["NAXIS1"; "NAXIS2"; "CTYPE1"; "CRPIX1"; "CRVAL1"; "CDELT1";
   "CTYPE2"; "CRPIX2"; "CRVAL2"; "CDELT2"].

(** [fits.Header.fromkeys(keys)]: a card for every keyword, appended in
    order. [hvalue] has no value for a card created without one, so the
    value [undefined] of these cards is left open. *)
Definition fromkeys (undefined : hvalue) (keys : list string) : header :=
  foldl (fun h key => append_card h (key, undefined)) [] keys.

(** [clean[key] = hdr[key]] *)
Definition copy_card (hdr : header) (r : Result header) (key : string)
  : Result header :=
  clean <~ r ;; v <~ header_get hdr key ;; Ok (header_set clean key v).

(** The minimal header that [freproject_2D] builds from the header of an
    image when [clean] is true. *)
Definition clean_header (undefined : hvalue) (hdr : header) : Result header :=
  let clean := fromkeys undefined clean_keys in
  let clean := header_set clean "NAXIS" (HInt 2) in
  foldl (copy_card hdr) (Ok clean) copied_keys.

Section Reproject.

(** [reproject_interp((data, header_in), header_out, order=order)] of the
    package [reproject]: the reprojected data and the footprint. *)
Variable reproject_interp :
  ndarray -> header -> header -> string -> Result (ndarray * ndarray).
Variable undefined : hvalue.

(** [freproject_2D(image1_dir, image2_dir, clean=False,
    order="nearest-neighbor")] *)
Definition freproject_2D (image1_dir image2_dir : string) (clean : bool)
    (order : string)
  : IO (ndarray * header * ndarray * header * ndarray * header * ndarray) :=
  image1 <- getdata image1_dir ;;
  image2 <- getdata image2_dir ;;
  headers <- lift (if clean
                   then image1_header_clean <~
                          clean_header undefined (hdu_header image1) ;;
                        image2_header_clean <~
                          clean_header undefined (hdu_header image2) ;;
                        Ok (image1_header_clean, image2_header_clean)
                   else Ok (hdu_header image2, hdu_header image2)) ;;
  r <- lift (reproject_interp (hdu_data image1) (fst headers) (snd headers)
               order) ;;
  ret (hdu_data image1, hdu_header image1, fst r, fst headers,
       hdu_data image2, snd headers, snd r).

End Reproject.

(** ** Definitions used in the statements *)

(** What the two updates of [fmaptheta_halfpolar] do to one sample. *)
Definition halfpolar_sample (deg : bool) (x : float) : float :=
  let half := if deg then of_Z 180 else of_Z 1 in
  let full := if deg then of_Z 360 else of_Z 2 in
  let y := if geb x half && neqb x full then sub x half else x in
  if eqb y full then sub y full else y.

(** [np.pi], the double nearest to pi: 0x1.921fb54442d18p+1. *)
Definition np_pi : float := S754_finite false 7074237752028440 (-51).

(** Sample inputs. *)
Definition angles_ex : ndarray :=
  vec [of_Z 2; dyadic 3 (-1); dyadic 1 (-1)].

Definition header_ex : header := [("CDELT2", HFloat (dyadic 1 (-6)))].

(** The header without the cards of one keyword, of a list of keywords,
    and the cards of one keyword. *)
Definition del_all (key : string) (h : header) : header :=
  filter (fun c => negb (String.eqb (fst c) key)) h.

Definition strip_keys (ks : list string) (h : header) : header :=
  filter (fun c => negb (has_key ks (fst c))) h.

Definition cards_of (key : string) (h : header) : header :=
  filter (fun c => String.eqb (fst c) key) h.

Definition cube_header_ex : header :=
  [("NAXIS", HInt 3); ("NAXIS3", HInt 4); ("CUNIT3", HStr "Hz")].

(** The header that [fheader_3Dto2D] returns. *)
Definition reduced (hdr : header) : header :=
  strip_keys keys_3D (header_set hdr "NAXIS" (HInt 2)).

(** A file system with one cube, at every path. *)
Definition cube_ex : hdu := mk_hdu (mk_ndarray [1; 1; 1]%nat [one]) cube_header_ex.
Definition fs_ex : fs := fun _ => Some cube_ex.

(** [is_sum l x]: [x] is a sum of the samples of [l], by binary64 additions
    in some order and grouping. A partial sum may start from a zero of
    either sign, as the loops of NumPy do. *)
Inductive is_sum : list float -> float -> Prop :=
| is_sum_nil s : is_sum [] (S754_zero s)
| is_sum_one x : is_sum [x] x
| is_sum_add l l1 l2 x y :
    is_sum l1 x -> is_sum l2 y -> l ≡ₚ l1 ++ l2 -> is_sum l (add x y).

(** What is used of [np.sum(a, axis=0)]: at every position of the other
    axes it is a sum of the samples along axis 0, in whatever order. *)
Definition sums_along_axis0 (np_sum_axis0 : ndarray -> ndarray) : Prop :=
  forall a n s p,
    shape a = n :: s -> (p < size s)%nat ->
    is_sum (axis0_samples a p) (nth p (flat (np_sum_axis0 a)) nan).

(** [m] is a mean of the samples of [l]: one of their sums divided by
    their number. *)
Definition is_mean (l : list float) (m : float) : Prop :=
  exists tot, is_sum l tot /\ m = div tot (of_Z (Z.of_nat (length l))).

(** Stand-ins for the two routines: a header whose NAXIS is set from the
    data, and the sum from 0 in index order. *)
Definition written_header_ex (data : ndarray) (h : header) : header :=
  header_set h "NAXIS" (HInt (Z.of_nat (ndim data))).
Definition np_sum_axis0_ex (a : ndarray) : ndarray :=
  match shape a with
  | [] => a
  | _ :: s =>
      mk_ndarray s
        (map (fun p => foldl add zero (axis0_samples a p)) (seq 0 (size s)))
  end.

(** A cube of three planes of one pixel, with the samples 1.0, NaN, 3.0. *)
Definition nan_cube_ex : hdu :=
  mk_hdu (mk_ndarray [3; 1; 1]%nat [of_Z 1; nan; of_Z 3]) cube_header_ex.
Definition nan_fs_ex : fs := fun _ => Some nan_cube_ex.

(** The array a Python argument stands for. *)
Definition arg_value (h : heap) (a : pyarg) : option ndarray :=
  match a with
  | PyFloat x => Some (scalar x)
  | PyArray l => h !! l
  end.

(** The sample of the noise that is broadcast to position [p] of an array
    of shape [s]. *)
Definition noise_at (nz : ndarray) (s : list nat) (p : nat) : float :=
  get nz (bindex (shape nz) (unravel s p)).

Definition data_ex : ndarray := vec [of_Z 1; of_Z 5; of_Z 10].

(** [np.broadcast_to(a, s)], written out by repetition and without index
    arithmetic: the samples, in row-major order, of the array of shape [s]
    that NumPy pairs with an operand [a] of shape [t]. The shapes are
    aligned at their last dimension. A dimension that [t] lacks is filled
    by repeating the whole operand; a dimension of length 1 of [t] is filled
    by repeating its one sub-array; a dimension that both shapes have is
    filled sub-array by sub-array. *)
Fixpoint chunks (k m : nat) (l : list float) : list (list float) :=
  match k with
  | O => []
  | S k' => take m l :: chunks k' m (drop m l)
  end.

Fixpoint tile (s t : list nat) (l : list float) {struct s} : list float :=
  match s with
  | [] => l
  | n :: s' =>
      if (length t <=? length s')%nat
      then concat (replicate n (tile s' t l))
      else match t with
           | [] => l
           | m :: t' =>
               if (m =? 1)%nat then concat (replicate n (tile s' t' l))
               else concat (map (tile s' t') (chunks n (size t') l))
           end
  end.

Definition broadcast_to (a : ndarray) (s : list nat) : list float :=
  tile s (shape a) (flat a).

(** [t] broadcasts to [s], read from the first dimension of [s]. *)
Fixpoint broadcasts_to (s t : list nat) : Prop :=
  match s with
  | [] => t = []
  | n :: s' =>
      if (length t <=? length s')%nat then broadcasts_to s' t
      else match t with
           | [] => False
           | m :: t' => (m = n \/ m = 1%nat) /\ length t' = length s'
                        /\ broadcasts_to s' t'
           end
  end.

(** The same, read from the last dimension, as [broadcast_rev] does. *)
Fixpoint compat_rev (a b : list nat) : Prop :=
  match b, a with
  | [], _ => True
  | _ :: _, [] => False
  | e :: b', d :: a' => (e = d \/ e = 1%nat) /\ compat_rev a' b'
  end.

(** Data of two rows and three columns, and a noise for the three
    columns. *)
Definition rows_ex : ndarray :=
  mk_ndarray [2; 3]%nat
    [of_Z 1; of_Z 5; of_Z 10; of_Z 1; of_Z 5; of_Z 10].
Definition column_noise_ex : ndarray := vec [of_Z 1; of_Z 1; of_Z 10].

(** One sample [x op v] with a Python number [v], as [arr_op] computes it. *)
Definition num_op (fz : Z -> Z -> Z) (ff : float -> float -> float)
    (x : num) (v : hvalue) : Result num :=
  match x, v with
  | _, HStr _ => Raise TypeError
  | NInt a, HInt z =>
      if in_int64 z then Ok (NInt (wrap64 (fz a z))) else Raise OverflowError
  | NInt a, HFloat y => Ok (NFloat (ff (of_Z a) y))
  | NFloat a, _ => y <~ py_float v ;; Ok (NFloat (ff a y))
  end.

(** Following the specification:
    axis[i] = CRVAL3 + ((i+1) - CRPIX3) * CDELT3. *)
Definition spec_axis_value (crval crpix cdelt : hvalue) (i : nat) : Result num :=
  d <~ num_op Z.sub sub (NInt (Z.of_nat i + 1)) crpix ;;
  p <~ num_op Z.mul mul d cdelt ;;
  num_op (fun x z => Z.add z x) (fun x y => add y x) p crval.

(** A number a FITS card can hold: an integer of [int64] or a finite
    float. *)
Definition valid_number (v : hvalue) : Prop :=
  match v with
  | HInt z => in_int64 z = true
  | HFloat y => is_finite y = true
  | HStr _ => False
  end.

(** The card holds the pixel number [k], as an integer or as a float. *)
Definition is_pixel (v : hvalue) (k : Z) : Prop :=
  v = HInt k \/ v = HFloat (of_Z k).

(** [x == v] for a sample and a Python number. *)
Definition num_eqb (x : num) (v : hvalue) : bool :=
  match x, v with
  | NInt a, HInt z => Z.eqb a z
  | NInt a, HFloat y => eqb (of_Z a) y
  | NFloat a, HInt z => eqb a (of_Z z)
  | NFloat a, HFloat y => eqb a y
  | _, HStr _ => false
  end.

Definition axis_keys : list string := ["CRVAL3"; "CRPIX3"; "CDELT3"; "NAXIS3"].

(** A cube of two planes with a frequency axis. *)
Definition axis_header_ex : header :=
  [("NAXIS", HInt 3); ("NAXIS3", HInt 2); ("CRVAL3", HFloat (of_Z 10));
   ("CRPIX3", HFloat (of_Z 1)); ("CDELT3", HInt 2)].
Definition axis_fs_ex : fs :=
  fun _ => Some (mk_hdu (mk_ndarray [2; 1; 1]%nat [one; one]) axis_header_ex).

(** A cube of two planes whose reference pixel, 0, is not a pixel of the
    axis. *)
Definition offaxis_header_ex : header :=
  [("NAXIS", HInt 3); ("NAXIS3", HInt 2); ("CRVAL3", HInt 10);
   ("CRPIX3", HInt 0); ("CDELT3", HInt 2)].
Definition offaxis_fs_ex : fs :=
  fun _ => Some (mk_hdu (mk_ndarray [2; 1; 1]%nat [one; one])
                   offaxis_header_ex).

(** An image of one row and two pixels. *)
Definition image_ex : ndarray := mk_ndarray [1; 2]%nat [of_Z 1; nan].

(** Stand-ins for the library routines, to run the functions that take
    them. *)
Definition gaussian_ex (M : nat) (std : float) : ndarray :=
  vec (replicate M std).
Definition np_sum_ex (a : ndarray) : float := foldl add zero (flat a).
Definition convolve_ex (a k : ndarray) : Result ndarray := Ok a.
Definition np_gradient_ex (a : ndarray) : Result (ndarray * ndarray) :=
  Ok (a, a).
Definition griddata_ex (image mask : ndarray) : Result ndarray := Ok image.

(** [frame W m]: running [m] only allocates new objects and updates, among
    the objects that exist before, only those at locations in [W]. *)
Definition frame {A} (W : loc -> Prop) (m : M A) : Prop :=
  forall h : heap,
    (length h <= length (fst (m h)))%nat /\
    forall l, (l < length h)%nat -> ~ W l -> fst (m h) !! l = h !! l.

Definition nowhere : loc -> Prop := fun _ => False.

(** What thresholding does to one sample: the sample of the mask and the
    sample of the clipped data for a sample [x] whose ratio to the noise is
    [r]. *)
Definition mask_sample (r t : float) : float :=
  if ltb r t then nan else one.
Definition clip_sample (r t x : float) : float :=
  if ltb r t then nan else x.

Definition short_noise_ex : ndarray := vec [of_Z 1; of_Z 2].

(** The half turn and the full turn of [fmaptheta_halfpolar], in the unit of
    the branch. *)
Definition half_turn (deg : bool) : float := if deg then of_Z 180 else of_Z 1.
Definition full_turn (deg : bool) : float := if deg then of_Z 360 else of_Z 2.

Definition line_ex : ndarray := vec [of_Z 1; nan].

(** A float that is NaN or has its sign bit clear. *)
Definition nonneg_or_nan (x : float) : Prop :=
  match x with
  | S754_nan => True
  | S754_zero s | S754_infinity s | S754_finite s _ _ => s = false
  end.

Definition gradient_ex : ndarray := mk_ndarray [1; 2]%nat [of_Z 3; of_Z (-4)].

(** An image header that is already two-dimensional. *)
Definition image_header_ex : header :=
  [("NAXIS", HInt 2); ("CUNIT3", HStr "Hz")].
Definition image_fs_ex : fs :=
  fun p => if String.eqb p "image.fits"
           then Some (mk_hdu image_ex image_header_ex) else None.

(** A cube of one plane. *)
Definition plane_cube_ex : hdu :=
  mk_hdu (mk_ndarray [1; 1; 2]%nat [of_Z 1; nan]) cube_header_ex.
Definition plane_fs_ex : fs :=
  fun p => if String.eqb p "cube.fits" then Some plane_cube_ex else None.

(** The type of the samples of an axis and the type of a card. *)
Definition is_int64s (a : np1d) : bool :=
  match a with Int64s _ => true | Float64s _ => false end.

Definition is_py_int (v : hvalue) : bool :=
  match v with HInt _ => true | _ => false end.

Definition is_py_str (v : hvalue) : bool :=
  match v with HStr _ => true | _ => false end.

(** A card that holds a number of [valid_number] or a string. *)
Definition number_or_str (v : hvalue) : Prop :=
  match v with HStr _ => True | _ => valid_number v end.

(** A cube whose axis cards are all integers, and one whose reference pixel
    is a string. *)
Definition int_axis_header_ex : header :=
  [("NAXIS", HInt 3); ("NAXIS3", HInt 3); ("CRVAL3", HInt 100);
   ("CRPIX3", HInt 2); ("CDELT3", HInt (-5))].
Definition int_axis_fs_ex : fs :=
  fun _ => Some (mk_hdu (mk_ndarray [3; 1; 1]%nat [one; one; one])
                   int_axis_header_ex).

Definition str_axis_header_ex : header :=
  [("NAXIS", HInt 3); ("NAXIS3", HInt 3); ("CRVAL3", HInt 100);
   ("CRPIX3", HStr "2"); ("CDELT3", HInt (-5))].
Definition str_axis_fs_ex : fs :=
  fun _ => Some (mk_hdu (mk_ndarray [3; 1; 1]%nat [one; one; one])
                   str_axis_header_ex).

(** What [fhighlatmask] gives at a latitude [b]. *)
Definition highlat_sample (blim b : float) : float :=
  if ltb (np_abs b) blim then nan else one.

(** Sample inputs: latitudes -5, 30, NaN and -60 degrees, and an image of
    these four pixels. *)
Definition latitudes_ex : ndarray :=
  mk_ndarray [2; 2]%nat [of_Z (-5); of_Z 30; nan; of_Z (-60)].
Definition lb_ex : galactic := mk_galactic (np_ones [2; 2]%nat) latitudes_ex.
Definition sky_image_ex : ndarray :=
  mk_ndarray [2; 2]%nat [of_Z 1; of_Z 2; of_Z 3; of_Z 4].
Definition sky_header_ex : header :=
  [("NAXIS", HInt 2); ("NAXIS1", HInt 2); ("NAXIS2", HInt 2)].
Definition sky_fs_ex : fs :=
  fun p => if String.eqb p "sky.fits"
           then Some (mk_hdu sky_image_ex sky_header_ex) else None.

(** Stand-ins for the routines of [astropy]. *)
Definition WCS_ex (hdr : header) : Result unit := Ok tt.
Definition all_pix2world_ex (w : unit) (x y : ndarray)
  : Result (ndarray * ndarray) := Ok (x, y).
Definition SkyCoord_fk5_ex (ra dec : ndarray) : Result equatorial :=
  Ok (mk_equatorial ra dec).
Definition SkyCoord_galactic_ex (l b : ndarray) : Result galactic :=
  Ok (mk_galactic l b).
Definition to_galactic_ex (c : equatorial) : Result galactic :=
  Ok (mk_galactic (ra_deg c) latitudes_ex).
Definition to_fk5_ex (c : galactic) : Result equatorial :=
  Ok (mk_equatorial (l_deg c) (b_deg c)).

(** Two images with full headers (the first with one more card), and a
    stand-in for [reproject_interp]. *)
Definition wcs_header_ex (n : Z) : header :=
  [("SIMPLE", HStr "T"); ("NAXIS", HInt 3); ("NAXIS1", HInt n);
   ("NAXIS2", HInt 1); ("CTYPE1", HStr "RA---TAN"); ("CRPIX1", HInt 1);
   ("CRVAL1", HInt 0); ("CDELT1", HInt 1); ("CTYPE2", HStr "DEC--TAN");
   ("CRPIX2", HInt 1); ("CRVAL2", HInt 0); ("CDELT2", HInt 1)].
Definition reproject_fs_ex : fs :=
  fun p => if String.eqb p "image1.fits"
           then Some (mk_hdu image_ex (wcs_header_ex 2))
           else if String.eqb p "image2.fits"
           then Some (mk_hdu data_ex (wcs_header_ex 3))
           else if String.eqb p "cube.fits" then Some cube_ex
           else None.
Definition reproject_interp_ex (data : ndarray) (header_in header_out : header)
    (order : string) : Result (ndarray * ndarray) :=
  Ok (data, np_ones (shape data)).

(** The reprojected data and the footprint among the values that
    [freproject_2D] returns. *)
Definition reprojected
    (t : ndarray * header * ndarray * header * ndarray * header * ndarray)
  : ndarray * ndarray :=
  let '(_, _, data_reproj, _, _, _, footprint) := t in
  (data_reproj, footprint).

Definition result_map {A B} (g : A -> B) (r : Result A) : Result B :=
  x <~ r ;; Ok (g x).

(** * Properties *)

(** ** Floating-point facts *)

Section FloatFacts.

Lemma one_eq : one = S754_finite false 4503599627370496 (-52).
Proof. reflexivity. Qed.

Lemma bounded_fexp m e :
  bounded prec emax m e = true ->
  fexp prec emax (Zpos (digits2_pos m) + e) = e /\ (e <=? emax - prec) = true.
Proof.
  unfold bounded, canonical_mantissa. intros H.
  apply andb_prop in H as [H1 H2]. apply Z.eqb_eq in H1. auto.
Qed.

Lemma canonical_cases m e :
  bounded prec emax m e = true ->
  (Zpos (digits2_pos m) = 53 /\ -1074 <= e) \/
  (e = -1074 /\ Zpos (digits2_pos m) <= 53).
Proof.
  intros H. destruct (bounded_fexp _ _ H) as [H1 _]. revert H1.
  unfold fexp, SpecFloat.emin, prec, emax. lia.
Qed.

Lemma div_eucl_exact a b q :
  0 < b -> a = b * q -> Z.div_eucl a b = (q, 0).
Proof.
  intros Hb ->. generalize (Z_div_mod (b * q) b ltac:(lia)).
  destruct (Z.div_eucl (b * q) b) as [q' r]. intros [H1 H2].
  assert (q' = q) by nia. subst. f_equal. lia.
Qed.

(** Rounding a mantissa that is already canonical changes nothing. *)
Lemma binary_round_aux_canonical s m e :
  bounded prec emax m e = true ->
  binary_round_aux prec emax s (Zpos m) e loc_Exact = S754_finite s m e.
Proof.
  intros Hb. destruct (bounded_fexp _ _ Hb) as [Hf Hle].
  unfold binary_round_aux, shr_fexp. cbn [Zdigits2].
  rewrite Hf, Z.sub_diag.
  cbn [shr shr_record_of_loc shr_m loc_of_shr_record round_nearest_even
       Zdigits2].
  rewrite Hf, Z.sub_diag. cbn [shr shr_record_of_loc shr_m].
  rewrite Hle. reflexivity.
Qed.

(** Division by 1.0 is exact on every binary64 value. *)
Lemma div_one x : valid x = true -> div x one = x.
Proof.
  destruct x as [s|s| |s m e]; try (destruct s; reflexivity); try reflexivity.
  unfold valid, valid_binary. intros Hb.
  pose proof (canonical_cases _ _ Hb) as Hc.
  destruct (bounded_fexp _ _ Hb) as [Hf Hle].
  unfold div. rewrite one_eq. unfold SFdiv, SFdiv_core_binary.
  replace (Zdigits2 4503599627370496) with 53 by reflexivity.
  cbn [Zdigits2].
  replace (xorb s false) with s by (destruct s; reflexivity).
  set (d := Zpos (digits2_pos m)) in *.
  destruct (Z.eq_dec e (-1074)) as [E|E].
  - replace (fexp prec emax (d + e - (53 + -52)) `min` (e - -52)) with e
      by (unfold fexp, SpecFloat.emin, prec, emax; lia).
    replace (e - -52 - e) with 52 by lia.
    rewrite Z.shiftl_mul_pow2 by lia.
    rewrite (div_eucl_exact _ _ (Zpos m)) by lia.
    change (new_location 4503599627370496 0) with loc_Exact.
    apply binary_round_aux_canonical, Hb.
  - assert (Hd : d = 53) by lia.
    replace (fexp prec emax (d + e - (53 + -52)) `min` (e - -52)) with (e - 1)
      by (unfold fexp, SpecFloat.emin, prec, emax; lia).
    replace (e - -52 - (e - 1)) with 53 by lia.
    rewrite Z.shiftl_mul_pow2 by lia.
    rewrite (div_eucl_exact _ _ (Zpos m~0)) by lia.
    change (new_location 4503599627370496 0) with loc_Exact.
    unfold binary_round_aux, shr_fexp. cbn [Zdigits2 digits2_pos].
    rewrite Pos2Z.inj_succ. fold d.
    replace (fexp prec emax (Z.succ d + (e - 1)) - (e - 1)) with 1
      by (unfold fexp, SpecFloat.emin, prec, emax in *; lia).
    cbn [shr shr_record_of_loc SpecFloat.iter_pos shr_1 orb shr_m
         loc_of_shr_record round_nearest_even Zdigits2].
    replace (e - 1 + 1) with e by lia. fold d.
    rewrite Hf, Z.sub_diag. cbn [shr shr_m]. rewrite Hle. reflexivity.
Qed.

(** [x - x] is [+0] for every finite [x]. *)
Lemma sub_diag x : is_finite x = true -> sub x x = zero.
Proof.
  destruct x as [s|s| |s m e]; try discriminate; intros _.
  - destruct s; reflexivity.
  - unfold sub, SFsub. rewrite Z.sub_diag. reflexivity.
Qed.

(** A number below zero has no square root. *)
Lemma sqrt_negative x : ltb x zero = true -> sqrt x = nan.
Proof.
  destruct x as [[]|[]| |[] m e]; intros H; (discriminate H || reflexivity).
Qed.

Lemma same_value_refl x : same_value x x.
Proof. left. reflexivity. Qed.

Lemma add_zero_r x : same_value (add x zero) x.
Proof.
  destruct x as [s|s| |s m e]; try (left; reflexivity).
  right. destruct s; eexists _, _; split; reflexivity.
Qed.

Lemma add_same_value x x' y :
  same_value x x' -> same_value (add x y) (add x' y).
Proof.
  intros [->|(s & t & -> & ->)]; [apply same_value_refl|].
  destruct y as [u|u| |u m e]; try (left; reflexivity).
  right. destruct s, t, u; eexists _, _; split; reflexivity.
Qed.

Lemma div_same_value x x' y :
  same_value x x' -> same_value (div x y) (div x' y).
Proof.
  intros [->|(s & t & -> & ->)]; [apply same_value_refl|].
  destruct y as [u|u| |u m e]; try (left; reflexivity);
    right; eexists _, _; split; reflexivity.
Qed.

End FloatFacts.

(** ** Conversion of integers to floats *)

Section Conversion.

Lemma digits2_pos_size p : digits2_pos p = Pos.size p.
Proof. induction p; cbn; congruence. Qed.

Lemma Zdigits2_bound m k :
  0 <= k -> 0 <= m < 2 ^ k -> 0 <= Zdigits2 m <= k.
Proof.
  intros Hk [Hm Hlt]. destruct m as [|p|p]; cbn [Zdigits2]; [lia| |lia].
  rewrite digits2_pos_size. split; [lia|].
  pose proof (Pos.size_le p) as Hs.
  apply Pos2Z.pos_le_pos in Hs. rewrite Pos2Z.inj_pow in Hs.
  assert (2 ^ Zpos (Pos.size p) < 2 ^ (k + 1)).
  { replace (k + 1) with (Z.succ k) by lia. rewrite Z.pow_succ_r by lia.
    generalize dependent (2 ^ Z.pos (Pos.size p)).
    generalize dependent (2 ^ k). intros. lia. }
  apply Z.pow_lt_mono_r_iff in H; lia.
Qed.

Lemma Zdigits2_lower p : Zpos p < 2 ^ Zpos (digits2_pos p).
Proof.
  rewrite digits2_pos_size, <- Pos2Z.inj_pow. apply Pos2Z.pos_lt_pos.
  apply Pos.size_gt.
Qed.

Lemma iter_xO p d : Zpos (Pos.iter xO p d) = Zpos p * 2 ^ Zpos d.
Proof.
  induction d as [|d IH] using Pos.peano_ind.
  - cbn. lia.
  - rewrite Pos.iter_succ, Pos2Z.inj_succ, Z.pow_succ_r by lia.
    rewrite Pos2Z.inj_xO, IH. lia.
Qed.

Lemma shr_1_bound mrs M :
  0 <= shr_m mrs <= M -> 0 <= shr_m (shr_1 mrs) <= M.
Proof.
  destruct mrs as [m r s]. destruct m as [|[p|p|]|p]; cbn; lia.
Qed.

Lemma iter_pos_invariant {A} (P : A -> Prop) (f : A -> A) :
  (forall x, P x -> P (f x)) ->
  forall n x, P x -> P (SpecFloat.iter_pos f n x).
Proof.
  intros Hf. induction n as [n IH|n IH|]; intros x Hx; cbn; auto.
Qed.

Lemma shr_bound mrs e n M :
  0 <= shr_m mrs <= M ->
  0 <= shr_m (fst (shr mrs e n)) <= M /\
  snd (shr mrs e n) = e + Z.max 0 n.
Proof.
  intros H. destruct n as [|p|p]; cbn [shr fst snd]; [split; [exact H|lia]| |split; [exact H|lia]].
  split; [|lia].
  apply (iter_pos_invariant (fun r => 0 <= shr_m r <= M)); [|exact H].
  intros x. apply shr_1_bound.
Qed.

Lemma round_nearest_even_bound m l :
  0 <= m -> 0 <= round_nearest_even m l <= m + 1.
Proof.
  intros Hm. destruct l as [|[| |]]; cbn [round_nearest_even];
    try destruct (Z.even m); lia.
Qed.

(** Rounding a small integer mantissa with a small exponent gives a finite
    number. *)
Lemma binary_round_aux_finite s m e :
  0 <= m < 2 ^ 64 -> -1074 <= e <= 0 ->
  is_finite (binary_round_aux prec emax s m e loc_Exact) = true.
Proof.
  intros Hm He. unfold binary_round_aux, shr_fexp.
  set (n1 := fexp prec emax (Zdigits2 m + e) - e).
  pose proof (shr_bound (shr_record_of_loc m loc_Exact) e n1 m
                ltac:(cbn; lia)) as [Hb1 He1].
  destruct (shr (shr_record_of_loc m loc_Exact) e n1) as [mrs' e'].
  cbn [fst snd] in Hb1, He1.
  pose proof (round_nearest_even_bound (shr_m mrs') (loc_of_shr_record mrs')
                ltac:(lia)) as Hr.
  set (m2 := round_nearest_even (shr_m mrs') (loc_of_shr_record mrs')) in *.
  set (n2 := fexp prec emax (Zdigits2 m2 + e') - e').
  pose proof (shr_bound (shr_record_of_loc m2 loc_Exact) e' n2 m2
                ltac:(cbn; lia)) as [Hb2 He2].
  destruct (shr (shr_record_of_loc m2 loc_Exact) e' n2) as [mrs'' e''].
  cbn [fst snd] in Hb2, He2.
  pose proof (Zdigits2_bound m 64 ltac:(lia) Hm) as Hd1.
  pose proof (Zdigits2_bound m2 65 ltac:(lia) ltac:(lia)) as Hd2.
  assert (He'' : e'' <= 971).
  { subst e'' e' n1 n2. unfold fexp, SpecFloat.emin, prec, emax. lia. }
  destruct (shr_m mrs'') as [|p|p]; [reflexivity| |lia].
  replace (e'' <=? emax - prec) with true; [reflexivity|].
  symmetry. apply Z.leb_le. unfold emax, prec. lia.
Qed.

Lemma binary_round_finite s p :
  Zpos p < 2 ^ 64 -> is_finite (binary_round prec emax s p 0) = true.
Proof.
  intros Hp. unfold binary_round, shl_align.
  pose proof (Zdigits2_bound (Zpos p) 64 ltac:(lia) ltac:(lia)) as Hd.
  pose proof (Zdigits2_lower p) as Hlow.
  cbn [Zdigits2] in Hd. set (D := Zpos (digits2_pos p)) in *.
  assert (Hf : fexp prec emax (D + 0) = D - 53).
  { unfold fexp, SpecFloat.emin, prec, emax. lia. }
  rewrite Hf. destruct (D - 53 - 0) as [|d|d] eqn:E.
  - apply binary_round_aux_finite; lia.
  - apply binary_round_aux_finite; lia.
  - apply binary_round_aux_finite; [|lia].
    rewrite iter_xO. split; [lia|].
    assert (Zpos p * 2 ^ Zpos d < 2 ^ D * 2 ^ Zpos d).
    { apply Z.mul_lt_mono_pos_r; [apply Z.pow_pos_nonneg; lia|exact Hlow]. }
    rewrite <- Z.pow_add_r in H by lia.
    replace (D + Zpos d) with 53 in H by lia. lia.
Qed.

Lemma of_Z_finite z : in_int64 z = true -> is_finite (of_Z z) = true.
Proof.
  unfold in_int64. intros H. apply andb_prop in H as [H1 H2].
  apply Z.leb_le in H1. apply Z.ltb_lt in H2.
  destruct z as [|p|p]; [reflexivity| |];
    apply binary_round_finite; lia.
Qed.

End Conversion.

(** ** Running the heap operations *)

Section HeapFacts.

Context {A B : Type}.

Lemma bind_ok (m : M A) (k : A -> M B) h h' a :
  m h = (h', Ok a) -> bind m k h = k a h'.
Proof. unfold bind. intros ->. reflexivity. Qed.

Lemma read_ok (h : heap) l a : h !! l = Some a -> read l h = (h, Ok a).
Proof. unfold read. intros ->. reflexivity. Qed.

Lemma write_ok (h : heap) l a b :
  h !! l = Some a -> write l b h = (<[l := b]> h, Ok tt).
Proof. unfold write. intros ->. reflexivity. Qed.

End HeapFacts.

(** ** Indices and broadcasting *)

Section IndexFacts.
Implicit Types (s idx : list nat) (q : nat).

Lemma size_cons d s : size (d :: s) = (d * size s)%nat.
Proof. reflexivity. Qed.

Lemma unravel_in_bounds s : forall q,
  (q < size s)%nat -> in_bounds s (unravel s q) = true.
Proof.
  induction s as [|d s IH]; intros q Hq; [reflexivity|].
  rewrite size_cons in Hq. cbn [unravel in_bounds].
  assert (size s <> 0)%nat by (intros E; rewrite E in Hq; lia).
  apply andb_true_intro. split.
  - apply Nat.ltb_lt, Nat.Div0.div_lt_upper_bound. lia.
  - apply IH, Nat.mod_upper_bound. assumption.
Qed.

Lemma ravel_unravel s : forall q,
  (q < size s)%nat -> ravel s (unravel s q) = q.
Proof.
  induction s as [|d s IH]; intros q Hq.
  - cbn in *. lia.
  - rewrite size_cons in Hq. cbn [unravel ravel].
    assert (size s <> 0)%nat by (intros E; rewrite E in Hq; lia).
    rewrite IH by (apply Nat.mod_upper_bound; assumption).
    pose proof (Nat.div_mod_eq q (size s)). lia.
Qed.

Lemma in_bounds_length s : forall idx,
  in_bounds s idx = true -> length idx = length s.
Proof.
  induction s as [|d s IH]; intros [|i idx] H; try discriminate;
    [reflexivity|].
  cbn in H. apply andb_prop in H as [_ H]. cbn. f_equal. auto.
Qed.

Lemma zip_in_bounds s : forall idx,
  in_bounds s idx = true ->
  zip_with (fun d i => if (d =? 1)%nat then 0%nat else i) s idx = idx.
Proof.
  induction s as [|d s IH]; intros [|i idx] H; try discriminate;
    [reflexivity|].
  cbn in H. apply andb_prop in H as [Hi H]. apply Nat.ltb_lt in Hi.
  cbn [zip_with]. rewrite IH by exact H.
  destruct (Nat.eqb_spec d 1); [f_equal; lia|reflexivity].
Qed.

Lemma bindex_in_bounds s idx : in_bounds s idx = true -> bindex s idx = idx.
Proof.
  intros H. unfold bindex. rewrite (in_bounds_length _ _ H), Nat.sub_diag.
  rewrite drop_0. apply zip_in_bounds, H.
Qed.

Lemma get_unravel a q :
  (q < size (shape a))%nat ->
  get a (bindex (shape a) (unravel (shape a) q)) = nth q (flat a) nan.
Proof.
  intros Hq. unfold get.
  rewrite bindex_in_bounds by (apply unravel_in_bounds, Hq).
  rewrite ravel_unravel by exact Hq. reflexivity.
Qed.

Lemma broadcast_rev_nil_r s : broadcast_rev s [] = Some s.
Proof. destruct s; reflexivity. Qed.

Lemma broadcast_rev_refl s : broadcast_rev s s = Some s.
Proof.
  induction s as [|d s IH]; [reflexivity|].
  cbn. rewrite IH, Nat.eqb_refl. reflexivity.
Qed.

Lemma broadcast_shapes_scalar s : broadcast_shapes s [] = Some s.
Proof.
  unfold broadcast_shapes. cbn [rev]. rewrite broadcast_rev_nil_r.
  cbn. rewrite rev_involutive. reflexivity.
Qed.

Lemma broadcast_shapes_refl s : broadcast_shapes s s = Some s.
Proof.
  unfold broadcast_shapes. rewrite broadcast_rev_refl.
  cbn. rewrite rev_involutive. reflexivity.
Qed.

Lemma map_nth_seq {A} (l : list A) d :
  map (fun q => nth q l d) (seq 0 (length l)) = l.
Proof.
  apply list_eq. intros i. rewrite list_lookup_fmap.
  destruct (decide (i < length l)%nat) as [Hi|Hi].
  - rewrite lookup_seq_lt by exact Hi. cbn. rewrite nth_lookup.
    destruct (lookup_lt_is_Some_2 l i Hi) as [x Hx]. rewrite Hx. reflexivity.
  - rewrite lookup_seq_ge by lia. rewrite lookup_ge_None_2 by lia. reflexivity.
Qed.

End IndexFacts.

Section MaskFacts.

Lemma np_binop_same_shape f a b :
  shape b = shape a ->
  np_binop f a b
  = Ok (mk_ndarray (shape a)
          (map (fun q => f (nth q (flat a) nan) (nth q (flat b) nan))
               (seq 0 (size (shape a))))).
Proof.
  intros Hs. unfold np_binop. rewrite Hs, broadcast_shapes_refl.
  do 2 f_equal. apply map_ext_in. intros q Hq.
  apply in_seq in Hq. cbn zeta.
  rewrite get_unravel by lia.
  rewrite <- Hs at 1 2. rewrite get_unravel by (rewrite Hs; lia).
  reflexivity.
Qed.

Lemma foldl_setitem s v qs :
  Forall (fun q => q < size s)%nat qs ->
  forall (fl : list float) p,
    foldl (fun fl idx => <[ravel s idx := v]> fl) fl (map (unravel s) qs) !! p
    = if decide (p ∈ qs) then (fun _ => v) <$> fl !! p else fl !! p.
Proof.
  induction 1 as [|q qs Hq _ IH]; intros fl p.
  - cbn. rewrite decide_False by apply not_elem_of_nil. reflexivity.
  - cbn [map foldl]. rewrite ravel_unravel by exact Hq. rewrite IH.
    destruct (decide (p = q)) as [->|Hne].
    + rewrite (decide_True (P := q ∈ q :: qs)) by apply list_elem_of_here.
      destruct (decide (q < length fl)%nat) as [Hlt|Hge].
      * rewrite list_lookup_insert_eq by exact Hlt.
        destruct (lookup_lt_is_Some_2 fl q Hlt) as [x ->].
        destruct (decide (q ∈ qs)); reflexivity.
      * rewrite list_insert_ge by lia.
        rewrite lookup_ge_None_2 by lia.
        destruct (decide (q ∈ qs)); reflexivity.
    + rewrite list_lookup_insert_ne by congruence.
      destruct (decide (p ∈ qs)) as [Hin|Hin].
      * rewrite decide_True by (apply list_elem_of_further, Hin). reflexivity.
      * rewrite decide_False; [reflexivity|].
        rewrite elem_of_cons. intros [?|?]; contradiction.
Qed.

Lemma setitem_where s low :
  s <> [] ->
  exists mask,
    setitem_indices (np_ones s) (where_arity s) (np_where s low) nan = Ok mask
    /\ shape mask = s /\ length (flat mask) = size s
    /\ forall p, (p < size s)%nat ->
         flat mask !! p = Some (if nth p low false then nan else one).
Proof.
  intros Hs. unfold setitem_indices, np_where.
  assert (Hq : Forall (fun q => q < size s)%nat
                 (filter (fun q => nth q low false) (seq 0 (size s)))).
  { apply Forall_forall. intros q Hq.
    apply list_elem_of_filter in Hq as [_ Hq]. apply elem_of_seq in Hq. lia. }
  replace (ndim (np_ones s) <? where_arity s)%nat with false.
  2:{ symmetry. apply Nat.ltb_ge. unfold where_arity, ndim. cbn [np_ones shape].
      destruct s; [contradiction|cbn; lia]. }
  rewrite (proj2 (forallb_forall _ _)).
  2:{ intros idx Hidx. apply in_map_iff in Hidx as (q & <- & Hin).
      apply unravel_in_bounds.
      apply list_elem_of_In in Hin. rewrite Forall_forall in Hq. auto. }
  eexists. split; [reflexivity|]. cbn [shape flat np_ones].
  split; [reflexivity|]. split.
  { generalize (replicate (size s) one) (length_replicate (size s) one).
    generalize (map (unravel s)
                  (filter (fun q => nth q low false) (seq 0 (size s)))).
    intros idxs. induction idxs as [|i idxs IH]; intros fl Hfl; [exact Hfl|].
    cbn [foldl]. apply IH. rewrite length_insert. exact Hfl. }
  intros p Hp. rewrite (foldl_setitem _ _ _ Hq).
  rewrite lookup_replicate_2 by exact Hp. cbn.
  destruct (nth p low false) eqn:E.
  - rewrite decide_True; [reflexivity|].
    apply list_elem_of_filter. split; [rewrite E; exact I|].
    apply elem_of_seq. lia.
  - rewrite decide_False; [reflexivity|].
    intros Hin. apply list_elem_of_filter in Hin as [Hin _].
    rewrite E in Hin. exact Hin.
Qed.

Lemma nan_mask_spec data low :
  wf_array data -> shape data <> [] ->
  exists mask clean,
    nan_mask data (shape data) low = Ok (mask, clean) /\
    shape mask = shape data /\ shape clean = shape data /\
    forall p x, flat data !! p = Some x ->
      flat mask !! p = Some (if nth p low false then nan else one) /\
      flat clean !! p = Some (mul x (if nth p low false then nan else one)).
Proof.
  intros Hwf Hs.
  destruct (setitem_where (shape data) low Hs)
    as (mask & Hset & Hshape & Hlen & Hmask).
  unfold nan_mask. rewrite Hset. cbn [rbind].
  rewrite (np_binop_same_shape _ _ _ Hshape). cbn [rbind].
  eexists _, _. split; [reflexivity|]. split; [exact Hshape|].
  split; [reflexivity|]. intros p x Hx.
  assert (Hp : (p < size (shape data))%nat).
  { rewrite <- Hwf. eapply lookup_lt_Some, Hx. }
  split; [apply Hmask, Hp|]. cbn [flat].
  rewrite list_lookup_fmap, lookup_seq_lt by exact Hp.
  cbn [fmap option_fmap option_map Nat.add].
  rewrite (nth_lookup (flat data)), (nth_lookup (flat mask)).
  rewrite Hx, (Hmask p Hp). reflexivity.
Qed.

End MaskFacts.

(** ** Headers *)

Section HeaderFacts.

Implicit Types (h : header) (k key : string) (ks : list string).

Lemma has_key_elem ks k : has_key ks k = true <-> k ∈ ks.
Proof.
  unfold has_key. rewrite existsb_exists. split.
  - intros (x & Hin & Hx). apply String.eqb_eq in Hx. subst.
    apply list_elem_of_In, Hin.
  - intros H. exists k. split; [apply list_elem_of_In, H|].
    apply String.eqb_refl.
Qed.

Lemma has_key_cons ks k k0 :
  has_key (k0 :: ks) k = String.eqb k k0 || has_key ks k.
Proof. reflexivity. Qed.

Lemma del_all_cons key c h :
  del_all key (c :: h)
  = if String.eqb (fst c) key then del_all key h else c :: del_all key h.
Proof.
  unfold del_all. rewrite filter_cons.
  destruct (String.eqb (fst c) key); reflexivity.
Qed.

Lemma strip_keys_cons ks c h :
  strip_keys ks (c :: h)
  = if has_key ks (fst c) then strip_keys ks h else c :: strip_keys ks h.
Proof.
  unfold strip_keys. rewrite filter_cons.
  destruct (has_key ks (fst c)); reflexivity.
Qed.

Lemma cards_of_cons key c h :
  cards_of key (c :: h)
  = if String.eqb (fst c) key then c :: cards_of key h else cards_of key h.
Proof.
  unfold cards_of. rewrite filter_cons.
  destruct (String.eqb (fst c) key); reflexivity.
Qed.

Lemma header_keys_cons c h : header_keys (c :: h) = fst c :: header_keys h.
Proof. reflexivity. Qed.

Lemma del_all_absent h key :
  has_key (header_keys h) key = false -> del_all key h = h.
Proof.
  induction h as [|[k v] h IH]; [reflexivity|].
  rewrite header_keys_cons, has_key_cons, del_all_cons. cbn [fst].
  rewrite (String.eqb_sym key k).
  destruct (String.eqb k key); cbn [orb]; [discriminate|].
  intros H. rewrite IH by exact H. reflexivity.
Qed.

Lemma has_key_del_all_ne h key k :
  k <> key ->
  has_key (header_keys (del_all key h)) k = has_key (header_keys h) k.
Proof.
  intros Hne. induction h as [|[k0 v] h IH]; [reflexivity|].
  rewrite del_all_cons, header_keys_cons, has_key_cons. cbn [fst].
  destruct (String.eqb_spec k0 key) as [->|Hk].
  - rewrite (proj2 (String.eqb_neq _ _) Hne). exact IH.
  - rewrite header_keys_cons, has_key_cons, IH. reflexivity.
Qed.

Lemma header_keys_update_first h key v :
  header_keys (update_first h key v) = header_keys h.
Proof.
  induction h as [|[k w] h IH]; [reflexivity|]. cbn [update_first].
  destruct (String.eqb k key); rewrite !header_keys_cons; cbn [fst];
    congruence.
Qed.

Lemma has_key_append_card_ne h key v k :
  k <> key ->
  has_key (header_keys (append_card h (key, v))) k = has_key (header_keys h) k.
Proof.
  intros Hne. pose proof (proj2 (String.eqb_neq _ _) Hne) as E.
  induction h as [|[k0 w] h IH].
  - cbn. rewrite E. reflexivity.
  - cbn [append_card].
    destruct (forallb _ _); rewrite !header_keys_cons, !has_key_cons;
      cbn [fst].
    + rewrite E. reflexivity.
    + rewrite IH. reflexivity.
Qed.

Lemma has_key_header_set_ne h key v k :
  k <> key ->
  has_key (header_keys (header_set h key v)) k = has_key (header_keys h) k.
Proof.
  intros Hne. unfold header_set. destruct (has_key (header_keys h) key).
  - rewrite header_keys_update_first. reflexivity.
  - apply has_key_append_card_ne, Hne.
Qed.

Lemma header_get_update_first h key v :
  has_key (header_keys h) key = true ->
  header_get (update_first h key v) key = Ok v.
Proof.
  induction h as [|[k w] h IH]; [discriminate|].
  rewrite header_keys_cons, has_key_cons. cbn [fst update_first].
  rewrite (String.eqb_sym key k).
  destruct (String.eqb k key) eqn:E; cbn [header_get orb]; rewrite E; auto.
Qed.

Lemma header_get_append_card h key v :
  has_key (header_keys h) key = false ->
  header_get (append_card h (key, v)) key = Ok v.
Proof.
  induction h as [|[k w] h IH]; intros H.
  - cbn. rewrite String.eqb_refl. reflexivity.
  - rewrite header_keys_cons, has_key_cons in H. cbn [fst] in H.
    apply orb_false_elim in H as [H1 H2].
    rewrite (String.eqb_sym key k) in H1. cbn [append_card].
    destruct (forallb _ _); cbn [header_get].
    + rewrite String.eqb_refl. reflexivity.
    + rewrite H1. auto.
Qed.

Lemma header_get_header_set h key v :
  header_get (header_set h key v) key = Ok v.
Proof.
  unfold header_set. destruct (has_key (header_keys h) key) eqn:E.
  - apply header_get_update_first, E.
  - apply header_get_append_card, E.
Qed.

Lemma header_get_has_key h key v :
  header_get h key = Ok v -> has_key (header_keys h) key = true.
Proof.
  induction h as [|[k w] h IH]; [discriminate|].
  rewrite header_keys_cons, has_key_cons. cbn [header_get fst].
  rewrite (String.eqb_sym key k). destruct (String.eqb k key); cbn [orb]; auto.
Qed.

Lemma update_first_same h key v :
  header_get h key = Ok v -> update_first h key v = h.
Proof.
  induction h as [|[k w] h IH]; [reflexivity|].
  cbn [header_get update_first].
  destruct (String.eqb k key); [congruence|].
  intros H. rewrite IH by exact H. reflexivity.
Qed.

Lemma header_set_same h key v :
  header_get h key = Ok v -> header_set h key v = h.
Proof.
  intros H. unfold header_set. rewrite (header_get_has_key _ _ _ H).
  apply update_first_same, H.
Qed.

Lemma header_get_strip_keys ks h key :
  has_key ks key = false ->
  header_get (strip_keys ks h) key = header_get h key.
Proof.
  intros Hk. induction h as [|[k w] h IH]; [reflexivity|].
  rewrite strip_keys_cons. cbn [fst header_get].
  destruct (String.eqb_spec k key) as [->|Hne].
  - rewrite Hk. cbn [header_get]. rewrite String.eqb_refl. reflexivity.
  - destruct (has_key ks k); [exact IH|]. cbn [header_get].
    rewrite (proj2 (String.eqb_neq _ _) Hne). exact IH.
Qed.

Lemma has_key_strip_keys ks h key :
  has_key ks key = true -> has_key (header_keys (strip_keys ks h)) key = false.
Proof.
  intros Hk. induction h as [|[k w] h IH]; [reflexivity|].
  rewrite strip_keys_cons. cbn [fst].
  destruct (has_key ks k) eqn:E; [exact IH|].
  rewrite header_keys_cons, has_key_cons, IH, orb_false_r. cbn [fst].
  apply String.eqb_neq. intros ->. congruence.
Qed.

Lemma strip_keys_idem ks h : strip_keys ks (strip_keys ks h) = strip_keys ks h.
Proof. unfold strip_keys. apply list_filter_filter_r. auto. Qed.

Lemma strip_keys_nil h : strip_keys [] h = h.
Proof.
  induction h as [|c h IH]; [reflexivity|].
  rewrite strip_keys_cons. cbn. congruence.
Qed.

Lemma strip_keys_del_all ks key h :
  strip_keys ks (del_all key h) = strip_keys (key :: ks) h.
Proof.
  induction h as [|c h IH]; [reflexivity|].
  rewrite del_all_cons, (strip_keys_cons (key :: ks)), has_key_cons.
  destruct (String.eqb (fst c) key); cbn [orb]; [exact IH|].
  rewrite strip_keys_cons, IH. reflexivity.
Qed.

Lemma cards_of_strip_keys ks h key :
  has_key ks key = false -> cards_of key (strip_keys ks h) = cards_of key h.
Proof.
  intros Hk. induction h as [|[k w] h IH]; [reflexivity|].
  rewrite strip_keys_cons, cards_of_cons. cbn [fst].
  destruct (String.eqb_spec k key) as [->|Hne].
  - rewrite Hk, cards_of_cons. cbn [fst]. rewrite String.eqb_refl.
    congruence.
  - destruct (has_key ks k); [exact IH|]. rewrite cards_of_cons. cbn [fst].
    rewrite (proj2 (String.eqb_neq _ _) Hne). exact IH.
Qed.

Lemma cards_of_update_first h key v k :
  k <> key -> cards_of k (update_first h key v) = cards_of k h.
Proof.
  intros Hne. induction h as [|[k0 w] h IH]; [reflexivity|].
  cbn [update_first]. destruct (String.eqb_spec k0 key) as [->|Hk].
  - rewrite !cards_of_cons. cbn [fst].
    rewrite (proj2 (String.eqb_neq key k)) by congruence. reflexivity.
  - rewrite !cards_of_cons. cbn [fst]. rewrite IH. reflexivity.
Qed.

Lemma cards_of_append_card h key v k :
  k <> key -> cards_of k (append_card h (key, v)) = cards_of k h.
Proof.
  intros Hne. pose proof (proj2 (String.eqb_neq key k)) as E.
  induction h as [|c h IH].
  - cbn [append_card]. rewrite cards_of_cons. cbn [fst].
    rewrite E by congruence. reflexivity.
  - cbn [append_card]. destruct (forallb _ _).
    + rewrite (cards_of_cons k (key, v)). cbn [fst].
      rewrite E by congruence. reflexivity.
    + rewrite !cards_of_cons, IH. reflexivity.
Qed.

Lemma cards_of_header_set h key v k :
  k <> key -> cards_of k (header_set h key v) = cards_of k h.
Proof.
  intros Hne. unfold header_set. destruct (has_key (header_keys h) key).
  - apply cards_of_update_first, Hne.
  - apply cards_of_append_card, Hne.
Qed.

(** The guarded deletions of [fheader_3Dto2D] never raise. *)
Lemma guarded_deletions keys ks :
  NoDup ks ->
  forall h,
    (forall k, k ∈ ks -> has_key (header_keys h) k = has_key keys k) ->
    foldl (fun r key =>
             h <~ r ;; if has_key keys key then header_del h key else Ok h)
          (Ok h) ks
    = Ok (strip_keys ks h).
Proof.
  induction 1 as [|k ks Hk Hnd IH]; intros h Hinv.
  - cbn. rewrite strip_keys_nil. reflexivity.
  - cbn [foldl rbind].
    assert (Hstep :
      (if has_key keys k then header_del h k else Ok h) = Ok (del_all k h)).
    { pose proof (Hinv k (list_elem_of_here _ _)) as Hk0.
      unfold header_del. rewrite Hk0.
      destruct (has_key keys k); [reflexivity|].
      rewrite del_all_absent by exact Hk0. reflexivity. }
    rewrite Hstep, IH.
    + rewrite strip_keys_del_all. reflexivity.
    + intros k' Hk'. rewrite has_key_del_all_ne by (intros ->; auto).
      apply Hinv, list_elem_of_further, Hk'.
Qed.

Lemma keys_3D_NoDup : NoDup keys_3D.
Proof. compute_done. Qed.

Lemma keys_3D_not_NAXIS k : k ∈ keys_3D -> k <> "NAXIS".
Proof.
  intros Hk ->. revert Hk. apply (bool_decide_unpack _). compute_done.
Qed.

Lemma header_3Dto2D_eq hdr :
  header_3Dto2D hdr
  = Ok (strip_keys keys_3D (header_set hdr "NAXIS" (HInt 2))).
Proof.
  unfold header_3Dto2D. apply guarded_deletions; [apply keys_3D_NoDup|].
  intros k Hk. apply has_key_header_set_ne, keys_3D_not_NAXIS, Hk.
Qed.

End HeaderFacts.

(** ** [fconvolve] *)

Lemma fconvolve_kernelsize_raise oldres newres hdr e :
  fconvolve_kernelsize oldres newres hdr = Raise e ->
  header_get hdr "CDELT2" = Raise e \/
  exists v, header_get hdr "CDELT2" = Ok v /\ py_float v = Raise e.
Proof.
  unfold fconvolve_kernelsize, py_mul_float.
  destruct (header_get hdr "CDELT2") as [v|e']; cbn [rbind].
  - destruct (py_float v) as [x|e'] eqn:Hv; cbn [rbind]; [discriminate|].
    intros [= ->]. right. exists v. auto.
  - intros [= ->]. left. reflexivity.
Qed.

Lemma np_outer_wf a b : wf_array (np_outer a b).
Proof.
  unfold wf_array, np_outer. cbn [flat shape size foldr].
  rewrite Nat.mul_1_r.
  induction (flat a) as [|x l IH]; [reflexivity|].
  cbn [flat_map length]. rewrite length_app, length_map, IH. lia.
Qed.

Lemma np_binop_scalar f a c :
  wf_array a -> np_binop f a (scalar c) = Ok (np_map (fun x => f x c) a).
Proof.
  intros Hwf. unfold np_binop, np_map. cbn [shape scalar].
  rewrite broadcast_shapes_scalar. do 2 f_equal.
  etransitivity;
    [|apply (f_equal (map (fun x => f x c)) (map_nth_seq (flat a) nan))].
  rewrite Hwf, map_map.
  apply map_ext_in. intros q Hq. apply in_seq in Hq. cbn zeta.
  rewrite get_unravel by lia. reflexivity.
Qed.

Lemma fconvolve_run gaussian np_sum fftconvolve convolve_fft
    oldres newres data hdr method (h : heap) d sx sy rest ks :
  fconvolve_kernelsize oldres newres hdr = Ok ks ->
  h !! data = Some d ->
  shape d = sx :: sy :: rest ->
  let kernel := np_outer (gaussian sx ks) (gaussian sy ks) in
  let kernel_norm := np_map (fun x => div x (np_sum kernel)) kernel in
  snd (fconvolve gaussian np_sum fftconvolve convolve_fft
         oldres newres data hdr method h)
  = if String.eqb method "scipy" then
      _ <~ fftconvolve (nan_to_zero d) kernel_norm ;; Ok (length h)
    else if String.eqb method "astropy" then
      _ <~ convolve_fft d kernel_norm ;; Ok (length h)
    else Raise UnboundLocalError.
Proof.
  intros Hks Hd Hs kernel kernel_norm.
  pose proof (lookup_lt_Some _ _ _ Hd) as Hlt.
  unfold fconvolve.
  erewrite bind_ok by (unfold lift; rewrite Hks; reflexivity).
  erewrite bind_ok by (apply read_ok, Hd).
  rewrite Hs.
  erewrite bind_ok
    by (unfold lift; rewrite (np_binop_scalar _ _ _ (np_outer_wf _ _));
        reflexivity).
  fold kernel. fold kernel_norm.
  destruct (String.eqb method "scipy").
  - erewrite bind_ok by (eapply write_ok, Hd).
    erewrite bind_ok by (apply read_ok, list_lookup_insert_eq, Hlt).
    unfold bind, lift, alloc.
    destruct (fftconvolve _ _); cbn [snd rbind]; [|reflexivity].
    rewrite length_insert. reflexivity.
  - destruct (String.eqb method "astropy"); [|reflexivity].
    unfold bind, lift, alloc.
    destruct (convolve_fft _ _); reflexivity.
Qed.

(** C1, as amended. When the value under the square root is negative, as
    it is for newres = 2 < oldres = 4, [fconvolve] raises no domain error:
    the kernel size is NaN whenever [header["CDELT2"]] is a number, the
    kernel is built from that NaN, and the call returns what the library
    convolution returns. The kernel size computation raises only what the
    lookup of [CDELT2] or its conversion to a float raises. *)
Theorem fconvolve_negative_radicand_nan
    gaussian np_sum fftconvolve convolve_fft oldres newres hdr v c :
  ltb (kernel_radicand oldres newres) zero = true ->
  header_get hdr "CDELT2" = Ok v ->
  py_float v = Ok c ->
  fconvolve_kernelsize oldres newres hdr = Ok nan /\
  (forall (h : heap) data d sx sy rest method,
      h !! data = Some d ->
      shape d = sx :: sy :: rest ->
      let kernel := np_outer (gaussian sx nan) (gaussian sy nan) in
      let kernel_norm := np_map (fun x => div x (np_sum kernel)) kernel in
      snd (fconvolve gaussian np_sum fftconvolve convolve_fft
             oldres newres data hdr method h)
      = if String.eqb method "scipy" then
          _ <~ fftconvolve (nan_to_zero d) kernel_norm ;; Ok (length h)
        else if String.eqb method "astropy" then
          _ <~ convolve_fft d kernel_norm ;; Ok (length h)
        else Raise UnboundLocalError) /\
  (forall hdr' e,
      fconvolve_kernelsize oldres newres hdr' = Raise e ->
      header_get hdr' "CDELT2" = Raise e \/
      exists v', header_get hdr' "CDELT2" = Ok v' /\ py_float v' = Raise e).
Proof.
  intros Hneg Hv Hc.
  assert (Hks : fconvolve_kernelsize oldres newres hdr = Ok nan).
  { unfold fconvolve_kernelsize, py_mul_float.
    rewrite Hv. cbn [rbind]. rewrite Hc. cbn [rbind].
    rewrite (sqrt_negative _ Hneg). reflexivity. }
  split; [exact Hks|]. split.
  - intros h data d sx sy rest method Hd Hs.
    apply (fconvolve_run _ _ _ _ _ _ _ _ _ _ _ _ _ _ _ Hks Hd Hs).
  - intros hdr' e. apply fconvolve_kernelsize_raise.
Qed.

Lemma fconvolve_negative_radicand_nan_witness :
  ltb (kernel_radicand (of_Z 4) (of_Z 2)) zero = true /\
  fconvolve_kernelsize (of_Z 4) (of_Z 2) header_ex = Ok nan /\
  snd (fconvolve gaussian_ex np_sum_ex convolve_ex convolve_ex
         (of_Z 4) (of_Z 2) 0%nat header_ex "astropy" [image_ex])
  = Ok 1%nat.
Proof.
  split; [reflexivity|].
  destruct (fconvolve_negative_radicand_nan
              gaussian_ex np_sum_ex convolve_ex convolve_ex
              (of_Z 4) (of_Z 2) header_ex
              (HFloat (dyadic 1 (-6))) (dyadic 1 (-6))
              eq_refl eq_refl eq_refl) as (Hks & Hrun & _).
  split; [exact Hks|].
  apply (Hrun [image_ex] 0%nat image_ex 1%nat 2%nat [] "astropy");
    reflexivity.
Defined.

(** C1 fails as stated: with newres = 2 < oldres = 4 the kernel size
    computation returns NaN and raises nothing. *)
Lemma fconvolve_no_domain_error :
  ltb (of_Z 2) (of_Z 4) = true /\
  fconvolve_kernelsize (of_Z 4) (of_Z 2) header_ex = Ok nan.
Proof. split; reflexivity. Qed.

(** ** [fmask_snr] and [fmask_signal] *)

Lemma read_arg_ok (h : heap) a nz :
  arg_value h a = Some nz -> read_arg a h = (h, Ok nz).
Proof.
  destruct a as [x|l]; cbn [arg_value read_arg].
  - intros [= <-]. reflexivity.
  - apply read_ok.
Qed.

Lemma np_divide_broadcast d nz :
  broadcast_shapes (shape d) (shape nz) = Some (shape d) ->
  exists data_snr,
    np_binop div d nz = Ok data_snr /\
    shape data_snr = shape d /\
    forall p x, (p < size (shape d))%nat -> flat d !! p = Some x ->
      flat data_snr !! p = Some (div x (noise_at nz (shape d) p)).
Proof.
  intros Hb. unfold np_binop. rewrite Hb. eexists. split; [reflexivity|].
  split; [reflexivity|]. intros p x Hp Hx. cbn [flat].
  rewrite list_lookup_fmap, lookup_seq_lt by exact Hp.
  cbn [fmap option_fmap option_map Nat.add].
  rewrite get_unravel by exact Hp. rewrite nth_lookup, Hx. reflexivity.
Qed.

(** *** Broadcasting: the index arithmetic of [np_binop] against
    repetition *)

Section Broadcasting.

Lemma nth_concat_rows {A} (rows : list (list A)) (n : nat) d :
  Forall (fun r => length r = n) rows ->
  forall j i, (i < n)%nat ->
    nth (j * n + i) (concat rows) d = nth i (nth j rows []) d.
Proof.
  induction 1 as [|r rows Hr _ IH]; intros j i Hi.
  - cbn [concat]. destruct (j * n + i)%nat, j, i; reflexivity.
  - cbn [concat]. destruct j as [|j].
    + cbn [Nat.mul Nat.add nth]. apply app_nth1. lia.
    + cbn [nth]. rewrite app_nth2 by (cbn; lia).
      replace (S j * n + i - length r)%nat with (j * n + i)%nat by (cbn; lia).
      apply IH, Hi.
Qed.

Lemma length_concat_rows {A} (rows : list (list A)) (n : nat) :
  Forall (fun r => length r = n) rows ->
  length (concat rows) = (length rows * n)%nat.
Proof.
  induction 1 as [|r rows Hr _ IH]; [reflexivity|].
  cbn [concat length]. rewrite length_app, IH, Hr. lia.
Qed.

Implicit Types (s t idx : list nat) (l : list float).

Lemma broadcast_rev_compat a : forall b,
  broadcast_rev a b = Some a -> compat_rev a b.
Proof.
  induction a as [|d a IH]; intros [|e b] H; cbn in *; try exact I.
  - discriminate.
  - destruct (broadcast_rev a b) as [r|] eqn:E; [|discriminate].
    destruct (Nat.eqb_spec d e) as [->|Hde].
    + injection H as ->. split; [auto|]. apply IH, E.
    + destruct (Nat.eqb_spec d 1) as [->|Hd1].
      * injection H as H _. congruence.
      * destruct (Nat.eqb_spec e 1) as [->|He1]; [|discriminate].
        injection H as ->. split; [auto|]. apply IH, E.
Qed.

Lemma compat_rev_length a : forall b,
  compat_rev a b -> (length b <= length a)%nat.
Proof.
  induction a as [|d a IH]; intros [|e b] H; cbn in *; try lia;
    try contradiction.
  destruct H as [_ H]. apply IH in H. lia.
Qed.

Lemma compat_rev_app_l a c : forall b,
  (length b <= length a)%nat -> compat_rev (a ++ c) b -> compat_rev a b.
Proof.
  induction a as [|d a IH]; intros [|e b] Hl H; cbn in *; try exact I.
  - lia.
  - destruct H as [H1 H2]. split; [exact H1|]. apply IH; [lia|exact H2].
Qed.

Lemma compat_rev_snoc a : forall b n m,
  length b = length a ->
  compat_rev (a ++ [n]) (b ++ [m]) ->
  compat_rev a b /\ (m = n \/ m = 1%nat).
Proof.
  induction a as [|d a IH]; intros [|e b] n m Hl H; cbn in *;
    try discriminate.
  - destruct H as [H _]. split; [exact I|exact H].
  - destruct H as [H1 H2]. injection Hl as Hl.
    destruct (IH b n m Hl H2) as [H3 H4]. auto.
Qed.

Lemma compat_rev_broadcasts_to s : forall t,
  compat_rev (rev s) (rev t) -> broadcasts_to s t.
Proof.
  induction s as [|n s IH]; intros t H.
  - cbn in *. destruct (rev t) as [|e r] eqn:E; [|contradiction].
    apply (f_equal (@rev nat)) in E. rewrite rev_involutive in E. exact E.
  - cbn [broadcasts_to]. pose proof (compat_rev_length _ _ H) as Hl.
    rewrite !length_rev in Hl. cbn [length] in Hl. cbn [rev] in H.
    destruct (Nat.leb_spec (length t) (length s)) as [Hle|Hgt].
    + apply IH. eapply compat_rev_app_l; [|exact H].
      rewrite !length_rev. exact Hle.
    + destruct t as [|m t]; [cbn in Hgt; lia|]. cbn [length] in *.
      cbn [rev] in H.
      assert (Hlen : length t = length s) by lia.
      destruct (compat_rev_snoc (rev s) (rev t) n m) as [H1 H2];
        [rewrite !length_rev; exact Hlen|exact H|].
      split; [exact H2|]. split; [exact Hlen|]. apply IH, H1.
Qed.

Lemma broadcast_shapes_broadcasts_to s t :
  broadcast_shapes s t = Some s -> broadcasts_to s t.
Proof.
  unfold broadcast_shapes. intros H.
  destruct (broadcast_rev (rev s) (rev t)) as [r|] eqn:E; [|discriminate].
  cbn in H. injection H as H.
  apply (f_equal (@rev nat)) in H. rewrite rev_involutive in H. subst r.
  apply compat_rev_broadcasts_to, broadcast_rev_compat, E.
Qed.

Lemma length_unravel s : forall q, length (unravel s q) = length s.
Proof.
  induction s as [|d s IH]; intros q; [reflexivity|].
  cbn [unravel length]. rewrite IH. reflexivity.
Qed.

Lemma chunks_spec k m : forall l,
  length l = (k * m)%nat ->
  length (chunks k m l) = k /\
  Forall (fun c => length c = m) (chunks k m l) /\
  forall j, (j < k)%nat -> nth j (chunks k m l) [] = take m (drop (j * m) l).
Proof.
  induction k as [|k IH]; intros l Hl.
  - split; [reflexivity|]. split; [constructor|]. intros j Hj. lia.
  - cbn [chunks]. destruct (IH (drop m l)) as (H1 & H2 & H3).
    { rewrite length_drop. lia. }
    split; [cbn; rewrite H1; reflexivity|]. split.
    + constructor; [rewrite length_take; lia|exact H2].
    + intros [|j] Hj; [reflexivity|]. cbn [nth].
      rewrite H3 by lia. rewrite drop_drop. reflexivity.
Qed.

Lemma nth_concat_replicate (n : nat) (row : list float) j i :
  (j < n)%nat -> (i < length row)%nat ->
  nth (j * length row + i) (concat (replicate n row)) nan = nth i row nan.
Proof.
  intros Hj Hi.
  assert (Hrows : Forall (fun r : list float => length r = length row)
                    (replicate n row)).
  { apply Forall_forall. intros r Hr.
    apply elem_of_replicate in Hr as [-> _]. reflexivity. }
  rewrite (nth_concat_rows _ _ nan Hrows j i Hi).
  rewrite (nth_lookup (replicate n row)), lookup_replicate_2 by exact Hj.
  reflexivity.
Qed.

Lemma length_concat_replicate (n : nat) (row : list float) :
  length (concat (replicate n row)) = (n * length row)%nat.
Proof.
  induction n as [|n IH]; [reflexivity|].
  cbn [replicate concat]. rewrite length_app, IH. lia.
Qed.

Lemma length_tile s : forall t l,
  broadcasts_to s t -> length l = size t ->
  length (tile s t l) = size s.
Proof.
  induction s as [|n s IH]; intros t l Hb Hl.
  - cbn in Hb. subst t. exact Hl.
  - cbn [tile broadcasts_to] in *. rewrite size_cons.
    destruct (length t <=? length s)%nat.
    + rewrite length_concat_replicate, (IH t l Hb Hl). reflexivity.
    + destruct t as [|m t]; [contradiction|].
      destruct Hb as (Hm & Hlen & Hb). rewrite size_cons in Hl.
      destruct (Nat.eqb_spec m 1) as [->|Hm1].
      * rewrite length_concat_replicate, (IH t l Hb) by lia. reflexivity.
      * destruct Hm as [->|Hm]; [|contradiction].
        destruct (chunks_spec n (size t) l Hl) as (Hk & Hc & _).
        rewrite (length_concat_rows _ (size s)).
        -- rewrite length_map, Hk. reflexivity.
        -- apply Forall_fmap. eapply Forall_impl; [exact Hc|].
           intros c Hcl. cbn. apply IH; assumption.
Qed.

(** The sample that [np_binop] reads in an operand of shape [t] for the
    position [p] of the result is the sample at [p] of the operand repeated
    to the shape of the result. *)
Lemma tile_spec s : forall t l p,
  broadcasts_to s t -> length l = size t -> (p < size s)%nat ->
  (ravel t (bindex t (unravel s p)) < size t)%nat /\
  nth (ravel t (bindex t (unravel s p))) l nan = nth p (tile s t l) nan.
Proof.
  induction s as [|n s IH]; intros t l p Hb Hl Hp.
  - cbn in Hb. subst t. cbn in *. split; [lia|].
    replace p with 0%nat by lia. reflexivity.
  - rewrite size_cons in Hp.
    assert (Hs0 : size s <> 0%nat) by (intros E; rewrite E in Hp; lia).
    assert (Hj : (p / size s < n)%nat)
      by (apply Nat.Div0.div_lt_upper_bound; lia).
    assert (Hq : (p mod size s < size s)%nat)
      by (apply Nat.mod_upper_bound; exact Hs0).
    assert (Ep : p = (p / size s * size s + p mod size s)%nat)
      by (pose proof (Nat.div_mod_eq p (size s)); lia).
    cbn [unravel tile broadcasts_to] in *.
    set (j := (p / size s)%nat) in *. set (q := (p mod size s)%nat) in *.
    destruct (Nat.leb_spec (length t) (length s)) as [Hle|Hgt].
    + assert (Eb : bindex t (j :: unravel s q) = bindex t (unravel s q)).
      { unfold bindex. cbn [length]. rewrite length_unravel.
        replace (S (length s) - length t)%nat
          with (S (length s - length t)) by lia.
        reflexivity. }
      rewrite Eb. destruct (IH t l q Hb Hl Hq) as [Hr Hn].
      split; [exact Hr|]. rewrite Hn, Ep.
      rewrite <- (length_tile s t l Hb Hl).
      apply eq_sym, nth_concat_replicate; [exact Hj|].
      rewrite (length_tile s t l Hb Hl). exact Hq.
    + destruct t as [|m t]; [contradiction|].
      destruct Hb as (Hm & Hlen & Hb). rewrite size_cons in Hl.
      assert (Eb : bindex (m :: t) (j :: unravel s q)
                   = (if (m =? 1)%nat then 0%nat else j)
                     :: bindex t (unravel s q)).
      { unfold bindex. cbn [length]. rewrite !length_unravel, Hlen.
        rewrite !Nat.sub_diag. reflexivity. }
      rewrite Eb. cbn [ravel]. rewrite size_cons.
      destruct (Nat.eqb_spec m 1) as [->|Hm1].
      * destruct (IH t l q Hb ltac:(lia) Hq) as [Hr Hn].
        split; [lia|]. cbn [Nat.mul Nat.add]. rewrite Hn, Ep.
        rewrite <- (length_tile s t l Hb ltac:(lia)).
        apply eq_sym, nth_concat_replicate; [exact Hj|].
        rewrite (length_tile s t l Hb ltac:(lia)). exact Hq.
      * destruct Hm as [->|Hm]; [|contradiction].
        destruct (chunks_spec n (size t) l Hl) as (Hk & Hc & Hnth).
        set (c := take (size t) (drop (j * size t) l)).
        assert (Hcl : length c = size t).
        { unfold c. rewrite length_take, length_drop. nia. }
        destruct (IH t c q Hb Hcl Hq) as [Hr Hn].
        split; [nia|].
        assert (Hrows : Forall (fun r : list float => length r = size s)
                          (map (tile s t) (chunks n (size t) l))).
        { apply Forall_fmap. eapply Forall_impl; [exact Hc|].
          intros c' Hc'. cbn. apply length_tile; assumption. }
        rewrite Ep. rewrite (nth_concat_rows _ _ nan Hrows j q Hq).
        rewrite (nth_lookup (map _ _) j), list_lookup_fmap.
        destruct (lookup_lt_is_Some_2 (chunks n (size t) l) j
                    ltac:(rewrite Hk; exact Hj)) as [c' Hc'].
        rewrite Hc'. cbn [fmap option_fmap option_map default].
        assert (c' = c) as ->.
        { unfold c. rewrite <- (Hnth j Hj), nth_lookup, Hc'. reflexivity. }
        unfold id. rewrite <- Hn. unfold c.
        rewrite !nth_lookup, lookup_take_lt, lookup_drop by exact Hr.
        reflexivity.
Qed.

Lemma tile_scalar s c : tile s [] [c] = replicate (size s) c.
Proof.
  induction s as [|n s IH]; [reflexivity|].
  cbn [tile length]. cbn [Nat.leb]. rewrite IH, size_cons.
  generalize (size s). intros k. induction n as [|n IHn]; [reflexivity|].
  cbn [replicate concat Nat.mul]. rewrite IHn, replicate_add. reflexivity.
Qed.

Lemma noise_at_broadcast_to nz s p :
  broadcast_shapes s (shape nz) = Some s -> wf_array nz -> (p < size s)%nat ->
  noise_at nz s p = nth p (broadcast_to nz s) nan.
Proof.
  intros Hb Hwf Hp. unfold noise_at, get, broadcast_to.
  apply tile_spec; [apply broadcast_shapes_broadcasts_to, Hb|exact Hwf|].
  exact Hp.
Qed.

End Broadcasting.

Section SameShape.

Lemma concat_chunks k m : forall l,
  length l = (k * m)%nat -> concat (chunks k m l) = l.
Proof.
  induction k as [|k IH]; intros l Hl.
  - destruct l; [reflexivity|discriminate].
  - cbn [chunks concat]. rewrite IH by (rewrite length_drop; lia).
    apply take_drop.
Qed.

Lemma tile_same s : forall l, length l = size s -> tile s s l = l.
Proof.
  induction s as [|n s IH]; intros l Hl; [reflexivity|].
  cbn [tile]. rewrite size_cons in Hl.
  destruct (Nat.leb_spec (length (n :: s)) (length s)) as [H|_];
    [cbn in H; lia|].
  destruct (Nat.eqb_spec n 1) as [->|Hn].
  - cbn [replicate concat]. rewrite app_nil_r. apply IH. lia.
  - destruct (chunks_spec n (size s) l Hl) as (_ & Hc & _).
    rewrite <- (concat_chunks n (size s) l Hl) at 2. f_equal.
    rewrite <- (map_id (chunks n (size s) l)) at 2.
    apply map_ext_in. intros c Hin. apply IH.
    rewrite Forall_forall in Hc. apply Hc, list_elem_of_In, Hin.
Qed.

End SameShape.

(** C7. For data of at least one dimension and a noise that is a float or
    an array that broadcasts to the shape of the data, [fmask_snr] returns
    two new arrays of the shape of the data: [mask] is NaN exactly where
    data/noise < snr and 1 elsewhere, and [clipped] is data*mask. The noise
    sample that is paired with a sample of the data is the one NumPy's
    broadcasting gives: the float itself, the sample at the same position
    for a noise of the shape of the data, and for two rows of three columns
    and a noise of three samples the noise of the column. On the data
    1, 5, 10 with noise 1.0 and snr 3.0 the arrays are NaN, 1, 1 and
    NaN, 5, 10; on two such rows with the noise 1, 1, 10 each row of the
    mask is NaN, 1, NaN. *)
Theorem fmask_snr_spec (h : heap) data d noise nz snr :
  h !! data = Some d ->
  arg_value h noise = Some nz ->
  wf_array d ->
  wf_array nz ->
  shape d <> [] ->
  broadcast_shapes (shape d) (shape nz) = Some (shape d) ->
  (exists mask clean,
    fmask_snr data noise snr h
    = (h ++ [mask; clean], Ok (length h, S (length h))) /\
    shape mask = shape d /\ shape clean = shape d /\
    length (broadcast_to nz (shape d)) = length (flat d) /\
    forall p x c,
      flat d !! p = Some x ->
      broadcast_to nz (shape d) !! p = Some c ->
      flat mask !! p = Some (if ltb (div x c) snr then nan else one) /\
      flat clean !! p
      = Some (mul x (if ltb (div x c) snr then nan else one))) /\
  (forall c s, broadcast_to (scalar c) s = replicate (size s) c) /\
  (forall a, wf_array a -> broadcast_to a (shape a) = flat a) /\
  (forall a b c,
      broadcast_to (vec [a; b; c]) [2; 3]%nat = [a; b; c; a; b; c]) /\
  fmask_snr 0%nat (PyFloat (of_Z 1)) (of_Z 3) [data_ex]
  = ([data_ex; vec [nan; of_Z 1; of_Z 1]; vec [nan; of_Z 5; of_Z 10]],
     Ok (1%nat, 2%nat)) /\
  fmask_snr 0%nat (PyArray 1%nat) (of_Z 3) [rows_ex; column_noise_ex]
  = ([rows_ex; column_noise_ex;
      mk_ndarray [2; 3]%nat [nan; of_Z 1; nan; nan; of_Z 1; nan];
      mk_ndarray [2; 3]%nat [nan; of_Z 5; nan; nan; of_Z 5; nan]],
     Ok (2%nat, 3%nat)).
Proof.
  intros Hd Hn Hwf Hwn Hs Hb.
  split; [|split; [intros c s; apply tile_scalar|split;
                   [intros a Ha; apply tile_same, Ha
                   |split; [reflexivity|split; reflexivity]]]].
  destruct (np_divide_broadcast d nz Hb) as (data_snr & Hdiv & Hshape & Hsnr).
  destruct (nan_mask_spec d (map (fun x => ltb x snr) (flat data_snr)) Hwf Hs)
    as (mask & clean & Hmask & Hsm & Hsc & Hp).
  assert (Hlen : length (broadcast_to nz (shape d)) = length (flat d)).
  { unfold broadcast_to.
    rewrite (length_tile _ _ _ (broadcast_shapes_broadcasts_to _ _ Hb) Hwn).
    symmetry. exact Hwf. }
  exists mask, clean. split.
  - unfold fmask_snr.
    erewrite bind_ok by (apply read_ok, Hd).
    erewrite bind_ok by (apply read_arg_ok, Hn).
    erewrite bind_ok by (unfold lift; rewrite Hdiv; reflexivity).
    erewrite bind_ok by (unfold lift; rewrite Hshape, Hmask; reflexivity).
    unfold bind, alloc, ret. cbn [fst snd]. rewrite length_app.
    rewrite <- app_assoc. cbn [app length].
    replace (length h + 1)%nat with (S (length h)) by lia. reflexivity.
  - split; [exact Hsm|]. split; [exact Hsc|]. split; [exact Hlen|].
    intros p x c Hx Hc.
    assert (Hlt : (p < size (shape d))%nat).
    { rewrite <- Hwf. eapply lookup_lt_Some, Hx. }
    assert (Hnz : noise_at nz (shape d) p = c).
    { rewrite (noise_at_broadcast_to _ _ _ Hb Hwn Hlt), nth_lookup, Hc.
      reflexivity. }
    assert (Hlow : nth p (map (fun x => ltb x snr) (flat data_snr)) false
                   = ltb (div x c) snr).
    { rewrite nth_lookup, list_lookup_fmap, (Hsnr p x Hlt Hx), Hnz.
      reflexivity. }
    rewrite <- Hlow. apply Hp, Hx.
Qed.

Lemma fmask_snr_spec_witness :
  [rows_ex; column_noise_ex] !! 0%nat = Some rows_ex /\
  exists mask clean,
    fmask_snr 0%nat (PyArray 1%nat) (of_Z 3) [rows_ex; column_noise_ex]
    = ([rows_ex; column_noise_ex] ++ [mask; clean], Ok (2%nat, 3%nat)) /\
    flat mask !! 2%nat = Some nan /\
    flat mask !! 4%nat = Some one /\
    flat clean !! 4%nat = Some (of_Z 5).
Proof.
  split; [reflexivity|].
  destruct (fmask_snr_spec [rows_ex; column_noise_ex] 0%nat rows_ex
              (PyArray 1%nat) column_noise_ex (of_Z 3) eq_refl eq_refl
              eq_refl eq_refl ltac:(discriminate) eq_refl)
    as [(mask & clean & Hrun & _ & _ & _ & Hp) _].
  exists mask, clean. split; [exact Hrun|].
  destruct (Hp 2%nat (of_Z 10) (of_Z 10) eq_refl eq_refl) as [H2 _].
  destruct (Hp 4%nat (of_Z 5) (of_Z 1) eq_refl eq_refl) as [H4 H4'].
  repeat split; assumption.
Defined.

Lemma np_divide_one d : valid_array d -> np_binop div d (scalar one) = Ok d.
Proof.
  intros [Hwf Hv]. unfold np_binop. cbn [shape scalar].
  rewrite broadcast_shapes_scalar. f_equal.
  destruct d as [s fl]. unfold wf_array in Hwf. cbn [shape flat] in *.
  f_equal. etransitivity; [|apply (map_nth_seq fl nan)]. rewrite Hwf.
  apply map_ext_in. intros q Hq. apply in_seq in Hq. cbn zeta.
  rewrite (get_unravel (mk_ndarray s fl)) by (cbn [shape]; lia).
  cbn [flat]. change (get (scalar one) (bindex [] (unravel s q))) with one.
  apply div_one. rewrite nth_lookup.
  destruct (lookup_lt_is_Some_2 fl q ltac:(lia)) as [x Hx]. rewrite Hx.
  exact (proj1 (Forall_lookup _ _) Hv q x Hx).
Qed.

(** C10. [fmask_signal(data, t)] runs exactly as
    [fmask_snr(data, 1.0, t)]: the same heap, the same pair of new arrays
    or the same exception. *)
Theorem fmask_signal_is_unit_noise (h : heap) data t :
  (forall d, h !! data = Some d -> valid_array d) ->
  fmask_signal data t h = fmask_snr data (PyFloat one) t h.
Proof.
  intros Hv. destruct (h !! data) as [d|] eqn:E.
  - specialize (Hv d eq_refl). unfold fmask_signal, fmask_snr.
    erewrite !(bind_ok (read data)) by (apply read_ok, E).
    erewrite (bind_ok (read_arg _)) by reflexivity.
    erewrite (bind_ok (lift (np_binop _ _ _)))
      by (unfold lift; rewrite (np_divide_one d Hv); reflexivity).
    reflexivity.
  - unfold fmask_signal, fmask_snr, bind, read. rewrite E. reflexivity.
Qed.

Lemma fmask_signal_is_unit_noise_witness :
  (forall d, [data_ex] !! 0%nat = Some d -> valid_array d) /\
  fmask_signal 0%nat (of_Z 3) [data_ex]
  = fmask_snr 0%nat (PyFloat one) (of_Z 3) [data_ex].
Proof.
  assert (H : forall d, [data_ex] !! 0%nat = Some d -> valid_array d).
  { intros d [= <-]. split; [reflexivity|].
    repeat constructor. }
  split; [exact H|].
  apply (fmask_signal_is_unit_noise [data_ex] 0%nat (of_Z 3) H).
Defined.

(** ** [fmaptheta_halfpolar] *)

Lemma fmaptheta_halfpolar_run (h : heap) l a deg :
  h !! l = Some a ->
  fmaptheta_halfpolar l deg h
  = (<[l := np_map (halfpolar_sample deg) a]> h, Ok l).
Proof.
  intros Hl. pose proof (lookup_lt_Some _ _ _ Hl) as Hlt.
  unfold fmaptheta_halfpolar.
  destruct deg; cbn [negb];
    (erewrite bind_ok by (apply read_ok, Hl);
     erewrite bind_ok by (eapply write_ok, Hl);
     erewrite bind_ok by (apply read_ok, list_lookup_insert_eq, Hlt);
     erewrite bind_ok
       by (eapply write_ok, list_lookup_insert_eq, Hlt);
     rewrite list_insert_insert_eq; unfold ret, isub_where, np_map;
     cbn [shape flat]; rewrite map_map; reflexivity).
Qed.

Lemma np_map_lookup f a i x :
  flat a !! i = Some x -> flat (np_map f a) !! i = Some (f x).
Proof. intros H. cbn. rewrite list_lookup_fmap, H. reflexivity. Qed.

(** C9. With [deg=False], [fmaptheta_halfpolar] updates its array so that a
    sample equal to 2.0 becomes 0.0, a sample equal to 1.5 becomes 0.5 and
    a sample equal to 0.5 stays 0.5. *)
Theorem fmaptheta_halfpolar_normalized (h : heap) l a :
  h !! l = Some a ->
  exists a',
    fmaptheta_halfpolar l false h = (<[l := a']> h, Ok l) /\
    shape a' = shape a /\
    forall i,
      (flat a !! i = Some (of_Z 2) -> flat a' !! i = Some zero) /\
      (flat a !! i = Some (dyadic 3 (-1)) ->
       flat a' !! i = Some (dyadic 1 (-1))) /\
      (flat a !! i = Some (dyadic 1 (-1)) ->
       flat a' !! i = Some (dyadic 1 (-1))).
Proof.
  intros Hl. exists (np_map (halfpolar_sample false) a).
  split; [apply fmaptheta_halfpolar_run, Hl|]. split; [reflexivity|].
  intros i. repeat split; intros Hi;
    rewrite (np_map_lookup _ _ _ _ Hi); reflexivity.
Qed.

Lemma fmaptheta_halfpolar_normalized_witness :
  [angles_ex] !! 0%nat = Some angles_ex /\
  exists a',
    fmaptheta_halfpolar 0%nat false [angles_ex]
    = (<[0%nat := a']> [angles_ex], Ok 0%nat) /\
    shape a' = shape angles_ex /\
    forall i,
      (flat angles_ex !! i = Some (of_Z 2) -> flat a' !! i = Some zero) /\
      (flat angles_ex !! i = Some (dyadic 3 (-1)) ->
       flat a' !! i = Some (dyadic 1 (-1))) /\
      (flat angles_ex !! i = Some (dyadic 1 (-1)) ->
       flat a' !! i = Some (dyadic 1 (-1))).
Proof.
  split; [reflexivity|].
  apply (fmaptheta_halfpolar_normalized [angles_ex] 0%nat angles_ex).
  reflexivity.
Defined.

(** C2. The radian branch of [fmaptheta_halfpolar] compares with 1 and 2
    where its documentation says pi and 2 pi: the angle 1.5, which lies in
    [0, pi), is mapped to 0.5, and the angle pi is mapped to pi - 1 and not
    to 0. The degree branch maps 200 to 20, 180 and 360 to 0 and leaves 10
    as it is. *)
Theorem fmaptheta_halfpolar_radians :
  ltb (dyadic 3 (-1)) np_pi = true /\
  fmaptheta_halfpolar 0%nat false [vec [dyadic 3 (-1); np_pi]]
  = ([vec [dyadic 1 (-1); sub np_pi one]], Ok 0%nat) /\
  eqb (sub np_pi one) zero = false /\
  fmaptheta_halfpolar 0%nat true
    [vec [of_Z 200; of_Z 180; of_Z 360; of_Z 10]]
  = ([vec [of_Z 20; zero; zero; of_Z 10]], Ok 0%nat).
Proof. repeat split. Qed.

(** ** Which array objects a call updates *)

Section Frame.

Context {A B : Type} (W : loc -> Prop).

Lemma frame_ret (a : A) : frame W (ret a).
Proof. intros h. split; [reflexivity|]. intros; reflexivity. Qed.

Lemma frame_raise e : frame W (@raise heap A e).
Proof. intros h. split; [reflexivity|]. intros; reflexivity. Qed.

Lemma frame_lift (r : Result A) : frame W (lift r).
Proof. intros h. split; [reflexivity|]. intros; reflexivity. Qed.

Lemma frame_read l : frame W (read l).
Proof.
  intros h. unfold read. destruct (h !! l); cbn; (split; [lia|auto]).
Qed.

Lemma frame_alloc a : frame W (alloc a).
Proof.
  intros h. unfold alloc. cbn. rewrite length_app. split; [lia|].
  intros l Hl _. apply lookup_app_l, Hl.
Qed.

Lemma frame_write l a : W l -> frame W (write l a).
Proof.
  intros HW h. unfold write. destruct (h !! l); cbn.
  - rewrite length_insert. split; [lia|].
    intros l' _ Hl'. apply list_lookup_insert_ne. congruence.
  - split; [lia|auto].
Qed.

Lemma frame_bind (m : M A) (k : A -> M B) :
  frame W m -> (forall a, frame W (k a)) -> frame W (bind m k).
Proof.
  intros Hm Hk h. unfold bind. specialize (Hm h).
  destruct (m h) as [h' [a|e]]; cbn [fst] in *; [|exact Hm].
  destruct Hm as [Hlen Hm]. destruct (Hk a h') as [Hlen' Hk'].
  split; [lia|]. intros l Hl HW.
  rewrite Hk' by (auto; lia). auto.
Qed.

End Frame.

Ltac frame_steps :=
  repeat first
    [ apply frame_bind; [|intros ?]
    | apply frame_ret | apply frame_raise | apply frame_lift
    | apply frame_read | apply frame_alloc ].

Lemma frame_read_arg W a : frame W (read_arg a).
Proof. destruct a; [apply frame_ret|apply frame_read]. Qed.

Lemma frame_fmask_snr data noise snr : frame nowhere (fmask_snr data noise snr).
Proof. unfold fmask_snr. frame_steps. apply frame_read_arg. Qed.

Lemma frame_fmask_signal data signal :
  frame nowhere (fmask_signal data signal).
Proof. unfold fmask_signal. frame_steps. Qed.

Lemma frame_fgradient np_gradient image :
  frame nowhere (fgradient np_gradient image).
Proof. unfold fgradient. frame_steps. Qed.

Lemma frame_fmaskinterp griddata_cubic image mask :
  frame nowhere (fmaskinterp griddata_cubic image mask).
Proof.
  unfold fmaskinterp. frame_steps.
  destruct (shape _) as [|? [|? ?]]; frame_steps.
Qed.

Lemma frame_fmaptheta_halfpolar angles deg :
  frame (eq angles) (fmaptheta_halfpolar angles deg).
Proof.
  unfold fmaptheta_halfpolar.
  destruct deg; cbn [negb]; frame_steps; apply frame_write; reflexivity.
Qed.

Lemma frame_fconvolve gaussian np_sum fftconvolve convolve_fft
    oldres newres data hdr method :
  frame (fun l => l = data /\ method = "scipy")
    (fconvolve gaussian np_sum fftconvolve convolve_fft
       oldres newres data hdr method).
Proof.
  unfold fconvolve. frame_steps.
  destruct (shape _) as [|? [|? ?]]; frame_steps.
  destruct (String.eqb_spec method "scipy") as [->|_].
  - frame_steps. apply frame_write. auto.
  - destruct (String.eqb method "astropy"); frame_steps.
Qed.

Lemma frame_lookup {A} W (m : M A) (h : heap) l a :
  frame W m -> h !! l = Some a -> ~ W l -> fst (m h) !! l = Some a.
Proof.
  intros Hm Hl HW. destruct (Hm h) as [_ H].
  rewrite H; auto. eapply lookup_lt_Some, Hl.
Qed.

(** C3, as amended. [fconvolve] with [method="scipy"] overwrites the NaNs
    of [data] with 0 and [fmaptheta_halfpolar] rewrites its array of angles
    in place; [fmask_snr], [fmask_signal], [fgradient], [fmaskinterp] and
    [fconvolve] with another method leave every array that exists before
    the call as it is, and so do the two updating functions for every array
    other than their argument. [ffreqaxis], and [fheader_3Dto2D] and
    [fcubeavg] without [write], leave the files as they are. *)
Theorem only_fconvolve_and_fmaptheta_update_arrays
    gaussian np_sum fftconvolve convolve_fft np_gradient griddata_cubic
    (h : heap) l a :
  h !! l = Some a ->
  (forall data noise snr, fst (fmask_snr data noise snr h) !! l = Some a) /\
  (forall data signal, fst (fmask_signal data signal h) !! l = Some a) /\
  (forall image, fst (fgradient np_gradient image h) !! l = Some a) /\
  (forall image mask,
      fst (fmaskinterp griddata_cubic image mask h) !! l = Some a) /\
  (forall oldres newres data hdr method,
      l <> data \/ method <> "scipy" ->
      fst (fconvolve gaussian np_sum fftconvolve convolve_fft
             oldres newres data hdr method h) !! l = Some a) /\
  (forall oldres newres hdr,
      let h' := fst (fconvolve gaussian np_sum fftconvolve convolve_fft
                       oldres newres l hdr "scipy" h) in
      h' !! l = Some a \/ h' !! l = Some (nan_to_zero a)) /\
  (forall angles deg,
      l <> angles -> fst (fmaptheta_halfpolar angles deg h) !! l = Some a) /\
  (forall deg,
      fst (fmaptheta_halfpolar l deg h) !! l
      = Some (np_map (halfpolar_sample deg) a)) /\
  (forall file (f : fs), fst (ffreqaxis file f) = f) /\
  (forall written_header filedir_in filedir_out (f : fs),
      fst (fheader_3Dto2D written_header filedir_in filedir_out false f)
      = f) /\
  (forall written_header np_sum_axis0 filedir_in filedir_out (f : fs),
      fst (fcubeavg written_header np_sum_axis0 filedir_in filedir_out false
             f) = f).
Proof.
  intros Hl. pose proof (lookup_lt_Some _ _ _ Hl) as Hlt.
  repeat apply conj.
  - intros. eapply frame_lookup; eauto using frame_fmask_snr.
  - intros. eapply frame_lookup; eauto using frame_fmask_signal.
  - intros. eapply frame_lookup; eauto using frame_fgradient.
  - intros. eapply frame_lookup; eauto using frame_fmaskinterp.
  - intros * Hne. eapply frame_lookup; eauto using frame_fconvolve.
    intros [-> ->]. destruct Hne; congruence.
  - intros oldres newres hdr. cbn zeta. unfold fconvolve, bind, lift, raise.
    destruct (fconvolve_kernelsize oldres newres hdr); cbn [fst]; auto.
    rewrite (read_ok _ _ _ Hl).
    destruct (shape a) as [|sx [|sy rest]]; cbn [fst]; auto.
    destruct (np_binop _ _ _); cbn [fst]; auto.
    cbn [String.eqb Ascii.eqb Bool.eqb]. rewrite (write_ok _ _ _ _ Hl).
    rewrite (read_ok _ _ (nan_to_zero a))
      by (apply list_lookup_insert_eq, Hlt).
    right. destruct (fftconvolve _ _); unfold alloc; cbn [fst].
    + rewrite lookup_app_l by (rewrite length_insert; exact Hlt).
      apply list_lookup_insert_eq, Hlt.
    + apply list_lookup_insert_eq, Hlt.
  - intros angles deg Hne.
    eapply frame_lookup; eauto using frame_fmaptheta_halfpolar.
  - intros deg. rewrite (fmaptheta_halfpolar_run _ _ _ _ Hl). cbn [fst].
    apply list_lookup_insert_eq, Hlt.
  - intros file f. unfold ffreqaxis, getheader, getdata, bind, lift, ret.
    destruct (f file); reflexivity.
  - intros wh fin fout f. unfold fheader_3Dto2D, getdata, bind, lift, ret.
    destruct (f fin) as [x|]; [|reflexivity].
    destruct (header_3Dto2D (hdu_header x)); reflexivity.
  - intros wh sum0 fin fout f.
    unfold fcubeavg, fheader_3Dto2D, getdata, bind, lift, ret.
    destruct (f fin) as [x|] eqn:E; [|reflexivity].
    destruct (np_nanmean_axis0 sum0 (hdu_data x)); [|reflexivity].
    rewrite E. destruct (header_3Dto2D (hdu_header x)); reflexivity.
Qed.

Lemma only_fconvolve_and_fmaptheta_update_arrays_witness :
  [data_ex; angles_ex] !! 0%nat = Some data_ex /\
  fst (fmask_snr 0%nat (PyFloat one) (of_Z 3) [data_ex; angles_ex]) !! 0%nat
  = Some data_ex /\
  fst (fmaptheta_halfpolar 1%nat false [data_ex; angles_ex]) !! 0%nat
  = Some data_ex /\
  fst (fgradient np_gradient_ex 0%nat [data_ex; angles_ex]) !! 0%nat
  = Some data_ex.
Proof.
  split; [reflexivity|].
  destruct (only_fconvolve_and_fmaptheta_update_arrays
              gaussian_ex np_sum_ex convolve_ex convolve_ex np_gradient_ex
              griddata_ex [data_ex; angles_ex] 0%nat data_ex eq_refl)
    as (Hsnr & _ & Hgrad & _ & _ & _ & Htheta & _).
  split; [apply Hsnr|]. split; [apply Htheta; discriminate|apply Hgrad].
Defined.

(** C3 fails as stated: [fmaptheta_halfpolar] changes the array it is
    given. *)
Lemma fmaptheta_halfpolar_updates_its_input :
  [vec [dyadic 3 (-1)]] !! 0%nat = Some (vec [dyadic 3 (-1)]) /\
  fst (fmaptheta_halfpolar 0%nat false [vec [dyadic 3 (-1)]]) !! 0%nat
  = Some (vec [dyadic 1 (-1)]) /\
  vec [dyadic 1 (-1)] <> vec [dyadic 3 (-1)].
Proof. repeat split. intros [=]. Qed.

(** ** [fheader_3Dto2D] *)

Lemma fheader_3Dto2D_run written_header (f : fs) filedir_in filedir_out
    write x :
  f filedir_in = Some x ->
  fheader_3Dto2D written_header filedir_in filedir_out write f
  = (if write
     then fun p => if String.eqb p filedir_out
                   then Some (mk_hdu (hdu_data x)
                                (written_header (hdu_data x)
                                   (reduced (hdu_header x))))
                   else f p
     else f,
     Ok (reduced (hdu_header x))).
Proof.
  intros Hf. unfold fheader_3Dto2D, bind, getdata, lift. rewrite Hf.
  rewrite header_3Dto2D_eq. destruct write; reflexivity.
Qed.

Lemma reduced_NAXIS hdr : header_get (reduced hdr) "NAXIS" = Ok (HInt 2).
Proof.
  unfold reduced. rewrite header_get_strip_keys by reflexivity.
  apply header_get_header_set.
Qed.

Lemma reduced_idem hdr : reduced (reduced hdr) = reduced hdr.
Proof.
  unfold reduced at 1. rewrite (header_set_same _ _ _ (reduced_NAXIS hdr)).
  apply strip_keys_idem.
Qed.

(** C4, as amended. The header that [fheader_3Dto2D] returns has [NAXIS]
    equal to 2 and no card with one of the six keywords NAXIS3, CDELT3,
    CROTA3, CRPIX3, CRVAL3, CTYPE3; the cards of every other keyword, CUNIT3
    and any other axis-3 keyword among them, are those of the input. *)
Theorem fheader_3Dto2D_strips_six_keys written_header (f : fs)
    filedir_in filedir_out write x :
  f filedir_in = Some x ->
  exists hdr2,
    snd (fheader_3Dto2D written_header filedir_in filedir_out write f)
    = Ok hdr2 /\
    header_get hdr2 "NAXIS" = Ok (HInt 2) /\
    (forall key, key ∈ keys_3D -> has_key (header_keys hdr2) key = false) /\
    (forall key, key ∉ keys_3D -> key <> "NAXIS" ->
                 cards_of key hdr2 = cards_of key (hdu_header x)).
Proof.
  intros Hf. exists (reduced (hdu_header x)).
  rewrite (fheader_3Dto2D_run _ _ _ _ _ _ Hf). cbn [snd].
  split; [reflexivity|]. split; [apply reduced_NAXIS|]. split.
  - intros key Hk. apply has_key_strip_keys, has_key_elem, Hk.
  - intros key Hk Hne. unfold reduced.
    rewrite cards_of_strip_keys.
    + apply cards_of_header_set, Hne.
    + destruct (has_key keys_3D key) eqn:E; [|reflexivity].
      apply has_key_elem in E. contradiction.
Qed.

Lemma fheader_3Dto2D_strips_six_keys_witness :
  fs_ex "cube.fits" = Some cube_ex /\
  exists hdr2,
    snd (fheader_3Dto2D written_header_ex "cube.fits" "image.fits" false
           fs_ex) = Ok hdr2 /\
    header_get hdr2 "NAXIS" = Ok (HInt 2) /\
    (forall key, key ∈ keys_3D -> has_key (header_keys hdr2) key = false) /\
    (forall key, key ∉ keys_3D -> key <> "NAXIS" ->
                 cards_of key hdr2 = cards_of key (hdu_header cube_ex)).
Proof.
  split; [reflexivity|].
  apply (fheader_3Dto2D_strips_six_keys written_header_ex fs_ex "cube.fits"
           "image.fits" false cube_ex).
  reflexivity.
Defined.

(** C4 fails as stated: the card CUNIT3 of a cube is still in the header
    that [fheader_3Dto2D] returns. *)
Lemma fheader_3Dto2D_keeps_CUNIT3 :
  snd (fheader_3Dto2D written_header_ex "cube.fits" "image.fits" false fs_ex)
  = Ok [("NAXIS", HInt 2); ("CUNIT3", HStr "Hz")] /\
  has_key (header_keys [("NAXIS", HInt 2); ("CUNIT3", HStr "Hz")]) "CUNIT3"
  = true.
Proof. split; reflexivity. Qed.

(** C6. [fheader_3Dto2D] is idempotent: the reduction of the header it
    returns is that header again, and applied to any file that holds the
    header it returned it returns the same header. *)
Theorem fheader_3Dto2D_idempotent written_header (f : fs)
    filedir_in filedir_out write x :
  f filedir_in = Some x ->
  exists hdr2,
    snd (fheader_3Dto2D written_header filedir_in filedir_out write f)
    = Ok hdr2 /\
    header_3Dto2D hdr2 = Ok hdr2 /\
    (forall written_header' (g : fs) file_in file_out write' y,
        g file_in = Some y -> hdu_header y = hdr2 ->
        snd (fheader_3Dto2D written_header' file_in file_out write' g)
        = Ok hdr2).
Proof.
  intros Hf. exists (reduced (hdu_header x)).
  rewrite !(fheader_3Dto2D_run _ _ _ _ _ _ Hf). cbn [fst snd].
  split; [reflexivity|]. split.
  - rewrite header_3Dto2D_eq. fold (reduced (reduced (hdu_header x))).
    rewrite reduced_idem. reflexivity.
  - intros wh g fi fo w' y Hg Hy.
    rewrite (fheader_3Dto2D_run _ _ _ _ _ _ Hg). cbn [snd].
    rewrite Hy, reduced_idem. reflexivity.
Qed.

Lemma fheader_3Dto2D_idempotent_witness :
  fs_ex "cube.fits" = Some cube_ex /\
  exists hdr2,
    snd (fheader_3Dto2D written_header_ex "cube.fits" "image.fits" true
           fs_ex) = Ok hdr2 /\
    header_3Dto2D hdr2 = Ok hdr2.
Proof.
  split; [reflexivity|].
  destruct (fheader_3Dto2D_idempotent written_header_ex fs_ex "cube.fits"
              "image.fits" true cube_ex eq_refl) as (hdr2 & H1 & H2 & _).
  exists hdr2. split; assumption.
Defined.

(** ** [fcubeavg] *)

Lemma fcubeavg_run written_header np_sum_axis0 (f : fs)
    filedir_in filedir_out write x avg :
  f filedir_in = Some x ->
  np_nanmean_axis0 np_sum_axis0 (hdu_data x) = Ok avg ->
  snd (fcubeavg written_header np_sum_axis0 filedir_in filedir_out write f)
  = Ok (avg, reduced (hdu_header x)).
Proof.
  intros Hf Havg. unfold fcubeavg, bind, getdata, lift.
  rewrite Hf, Havg. rewrite (fheader_3Dto2D_run _ _ _ _ _ _ Hf).
  destruct write; reflexivity.
Qed.

(** *** Sums in any order *)

Section Summation.

Lemma same_value_sym x y : same_value x y -> same_value y x.
Proof. intros [->|(s & t & -> & ->)]; [left|right]; eauto. Qed.

Lemma same_value_trans x y z :
  same_value x y -> same_value y z -> same_value x z.
Proof.
  intros [->|(s & t & -> & ->)] H; [exact H|].
  destruct H as [<-|(s' & t' & _ & ->)]; right; eauto.
Qed.

Lemma add_same_value_r x y y' :
  same_value y y' -> same_value (add x y) (add x y').
Proof.
  intros [->|(s & t & -> & ->)]; [apply same_value_refl|].
  destruct x as [u|u| |u m e]; try (left; reflexivity).
  right. destruct u, s, t; eexists _, _; split; reflexivity.
Qed.

Lemma add_same_value_both x x' y y' :
  same_value x x' -> same_value y y' -> same_value (add x y) (add x' y').
Proof.
  intros Hx Hy. eapply same_value_trans; [apply add_same_value, Hx|].
  apply add_same_value_r, Hy.
Qed.

(** Adding a zero of either sign changes at most the sign of a zero. *)
Lemma add_zero_any_r x s : same_value (add x (S754_zero s)) x.
Proof.
  destruct x as [u|u| |u m e]; try (left; reflexivity).
  right. destruct u, s; eexists _, _; split; reflexivity.
Qed.

Lemma add_zero_any_l x s : same_value (add (S754_zero s) x) x.
Proof.
  destruct x as [u|u| |u m e]; try (left; reflexivity).
  right. destruct u, s; eexists _, _; split; reflexivity.
Qed.

(** The sum from 0 in index order is one of the sums. *)
Lemma is_sum_foldl l : is_sum l (foldl add zero l).
Proof.
  induction l as [|x l IH] using rev_ind; [apply is_sum_nil|].
  rewrite foldl_app. cbn [foldl].
  eapply is_sum_add; [exact IH|apply is_sum_one|reflexivity].
Qed.

Lemma is_sum_perm l l' x : l ≡ₚ l' -> is_sum l x -> is_sum l' x.
Proof.
  intros Hp H. revert l' Hp. induction H as [s|x|l l1 l2 x y H1 _ H2 _ Hl];
    intros l' Hp.
  - apply Permutation_nil_l in Hp as <-. apply is_sum_nil.
  - apply Permutation_singleton_l in Hp as <-. apply is_sum_one.
  - eapply is_sum_add; [exact H1|exact H2|]. rewrite <- Hp. exact Hl.
Qed.

(** A sum of zeros is a zero. *)
Lemma is_sum_zeros l x :
  is_sum l x ->
  Forall (fun y => exists s, y = S754_zero s) l ->
  exists s, x = S754_zero s.
Proof.
  induction 1 as [s|x|l l1 l2 x y _ IH1 _ IH2 Hl]; intros Hz.
  - eauto.
  - exact (proj1 (Forall_singleton _ _) Hz).
  - rewrite Hl in Hz. apply Forall_app in Hz as [Hz1 Hz2].
    destruct (IH1 Hz1) as [s ->], (IH2 Hz2) as [t ->].
    destruct s, t; eexists; reflexivity.
Qed.

(** The samples that [np.nanmean] sets to 0 contribute nothing to the sum:
    a sum of the samples with the NaNs replaced is, up to the sign of a
    zero, a sum of the samples that are not NaN. *)
Lemma is_sum_without_nan L x :
  is_sum L x ->
  forall l, L = map (fun y => if is_nan y then zero else y) l ->
  exists x', is_sum (filter (fun y => negb (is_nan y)) l) x' /\
             same_value x x'.
Proof.
  induction 1 as [s|x|L l1 l2 x y _ IH1 _ IH2 HL]; intros l E.
  - symmetry in E. apply map_eq_nil in E as ->.
    exists (S754_zero s). split; [apply is_sum_nil|apply same_value_refl].
  - destruct l as [|y [|z l]]; try discriminate. injection E as ->.
    rewrite filter_cons, filter_nil. destruct (is_nan y) eqn:Ey.
    + rewrite decide_False by (cbn; auto).
      exists zero. split; [apply is_sum_nil|apply same_value_refl].
    + rewrite decide_True by (cbn; auto).
      exists y. split; [apply is_sum_one|apply same_value_refl].
  - subst L. symmetry in HL. apply Permutation_map_inv in HL
      as (l3 & E3 & Hp).
    symmetry in E3. apply map_eq_app in E3 as (la & lb & -> & Ea & Eb).
    destruct (IH1 la (eq_sym Ea)) as (xa & Ha & Sa).
    destruct (IH2 lb (eq_sym Eb)) as (xb & Hb & Sb).
    exists (add xa xb). split; [|apply add_same_value_both; assumption].
    eapply is_sum_add; [exact Ha|exact Hb|].
    rewrite <- filter_app. apply filter_Permutation. exact Hp.
Qed.

Lemma sum_list_perm (l l' : list Z) :
  l ≡ₚ l' -> foldr Z.add 0 l = foldr Z.add 0 l'.
Proof.
  induction 1 as [|z l l' _ IH|y z l|l l' l'' _ IH1 _ IH2]; cbn [foldr];
    lia.
Qed.

Lemma add_small_integers a b :
  0 <= a -> 0 <= b -> a + b <= 4 -> add (of_Z a) (of_Z b) = of_Z (a + b).
Proof.
  intros Ha Hb Hab.
  assert (Ea : a = 0 \/ a = 1 \/ a = 2 \/ a = 3 \/ a = 4) by lia.
  assert (Eb : b = 0 \/ b = 1 \/ b = 2 \/ b = 3 \/ b = 4) by lia.
  destruct Ea as [->|[->|[->|[->| ->]]]], Eb as [->|[->|[->|[->| ->]]]];
    try lia; reflexivity.
Qed.

(** A sum of small non-negative integers is exact in every order. *)
Lemma is_sum_small_integers L x :
  is_sum L x ->
  forall zs, L = map of_Z zs -> Forall (fun z => 0 <= z) zs ->
    foldr Z.add 0 zs <= 4 ->
    x = of_Z (foldr Z.add 0 zs)
    \/ (foldr Z.add 0 zs = 0 /\ x = S754_zero true).
Proof.
  assert (Hnn : forall zs, Forall (fun z => 0 <= z) zs -> 0 <= foldr Z.add 0 zs).
  { induction 1; cbn [foldr]; lia. }
  induction 1 as [s|x|L l1 l2 x y _ IH1 _ IH2 HL]; intros zs E Hz Hs.
  - symmetry in E. apply map_eq_nil in E as ->. cbn [foldr].
    destruct s; [right|left]; auto.
  - destruct zs as [|z [|z' zs]]; try discriminate. injection E as ->.
    cbn [foldr]. rewrite Z.add_0_r. left. reflexivity.
  - subst L. symmetry in HL. apply Permutation_map_inv in HL
      as (l3 & E3 & Hp).
    symmetry in E3. apply map_eq_app in E3 as (za & zb & -> & Ea & Eb).
    rewrite (sum_list_perm _ _ Hp) in *. rewrite Hp in Hz.
    apply Forall_app in Hz as [Hza Hzb].
    rewrite foldr_app in *.
    assert (Esum : forall (l l' : list Z),
              foldr Z.add (foldr Z.add 0 l') l
              = foldr Z.add 0 l + foldr Z.add 0 l').
    { intros l l'. induction l as [|z l IH]; cbn [foldr]; lia. }
    rewrite Esum in *.
    pose proof (Hnn _ Hza) as Na. pose proof (Hnn _ Hzb) as Nb.
    destruct (IH1 za (eq_sym Ea) Hza ltac:(lia)) as [->|[Za ->]],
             (IH2 zb (eq_sym Eb) Hzb ltac:(lia)) as [->|[Zb ->]].
    + left. apply add_small_integers; lia.
    + left. rewrite Zb, Z.add_0_r.
      destruct (of_Z (foldr Z.add 0 za)) as [[]|[]| |[] m e]; reflexivity.
    + left. rewrite Za, Z.add_0_l.
      destruct (of_Z (foldr Z.add 0 zb)) as [[]|[]| |[] m e]; reflexivity.
    + right. split; [lia|reflexivity].
Qed.

Lemma axis0_samples_nan_to_zero a n s p :
  wf_array a -> shape a = n :: s -> (p < size s)%nat ->
  axis0_samples (nan_to_zero a) p
  = map (fun y => if is_nan y then zero else y) (axis0_samples a p).
Proof.
  intros Hwf Hs Hp. unfold wf_array in Hwf. rewrite Hs, size_cons in Hwf.
  unfold axis0_samples, nan_to_zero, np_map. cbn [shape flat]. rewrite Hs.
  rewrite map_map. apply map_ext_in. intros k Hk. apply in_seq in Hk.
  rewrite !nth_lookup, list_lookup_fmap.
  destruct (lookup_lt_is_Some_2 (flat a) (k * size s + p)%nat) as [y Hy];
    [nia|].
  rewrite Hy. reflexivity.
Qed.

Lemma np_sum_axis0_ex_sums : sums_along_axis0 np_sum_axis0_ex.
Proof.
  intros a n s p Hs Hp. unfold np_sum_axis0_ex. rewrite Hs. cbn [flat].
  rewrite nth_lookup, list_lookup_fmap, lookup_seq_lt by exact Hp.
  cbn [fmap option_fmap option_map default Nat.add]. apply is_sum_foldl.
Qed.

End Summation.

(** C8. For a cube of binary64 samples, and in whatever order NumPy adds the
    samples along axis 0, [fcubeavg] returns at every pixel the NaN-aware
    mean of the samples along axis 0: it is a mean of the samples that are
    not NaN (one of their sums divided by their number, up to the sign of a
    zero), so that a NaN sample contributes nothing; it is NaN when every
    sample is NaN; and it is 2.0 for the samples 1.0, NaN, 3.0. *)
Theorem fcubeavg_nanmean written_header np_sum_axis0 (f : fs)
    filedir_in filedir_out write x n s :
  sums_along_axis0 np_sum_axis0 ->
  f filedir_in = Some x ->
  wf_array (hdu_data x) ->
  shape (hdu_data x) = n :: s ->
  exists avg hdr2,
    snd (fcubeavg written_header np_sum_axis0 filedir_in filedir_out write f)
    = Ok (avg, hdr2) /\
    shape avg = s /\
    length (flat avg) = size s /\
    forall p, (p < size s)%nat ->
      exists samples v,
        samples = axis0_samples (hdu_data x) p /\
        length samples = n /\
        (forall k, (k < n)%nat ->
           samples !! k
           = Some (nth (k * size s + p) (flat (hdu_data x)) nan)) /\
        flat avg !! p = Some v /\
        (exists m,
           is_mean (filter (fun y => negb (is_nan y)) samples) m /\
           same_value v m) /\
        (Forall (fun y => is_nan y = true) samples -> v = nan) /\
        (samples = [of_Z 1; nan; of_Z 3] -> v = of_Z 2).
Proof.
  intros Hsum Hf Hwf Hs.
  eexists _, _. split.
  { apply (fcubeavg_run _ _ _ _ _ _ _ _ Hf). unfold np_nanmean_axis0.
    rewrite Hs. reflexivity. }
  split; [reflexivity|].
  split; [cbn [flat]; rewrite length_map, length_seq; reflexivity|].
  intros p Hp. cbn [flat].
  set (samples := axis0_samples (hdu_data x) p).
  set (tot := nth p (flat (np_sum_axis0 (nan_to_zero (hdu_data x)))) nan).
  assert (Hsam : samples
            = map (fun k => nth (k * size s + p)%nat (flat (hdu_data x)) nan)
                  (seq 0 n)).
  { unfold samples, axis0_samples. rewrite Hs. reflexivity. }
  assert (Htot : is_sum (map (fun y => if is_nan y then zero else y) samples)
                   tot).
  { unfold samples.
    rewrite <- (axis0_samples_nan_to_zero _ n s p Hwf Hs Hp).
    apply (Hsum (nan_to_zero (hdu_data x)) n s p); [exact Hs|exact Hp]. }
  exists samples, (div tot (of_Z (count_valid samples))).
  split; [reflexivity|].
  split; [rewrite Hsam, length_map, length_seq; reflexivity|].
  split.
  { intros k Hk. rewrite Hsam, list_lookup_fmap, lookup_seq_lt by exact Hk.
    reflexivity. }
  split.
  { rewrite list_lookup_fmap, lookup_seq_lt by exact Hp. reflexivity. }
  split; [|split].
  - destruct (is_sum_without_nan _ _ Htot samples eq_refl) as (t' & Ht' & St).
    exists (div t' (of_Z (count_valid samples))). split.
    + exists t'. split; [exact Ht'|reflexivity].
    + apply div_same_value, St.
  - intros Hall.
    assert (Hz : Forall (fun y => exists s0, y = S754_zero s0)
                   (map (fun y => if is_nan y then zero else y) samples)).
    { apply Forall_fmap. eapply Forall_impl; [exact Hall|].
      intros y Hy. cbn. rewrite Hy. exists false. reflexivity. }
    destruct (is_sum_zeros _ _ Htot Hz) as [s0 ->].
    assert (Hcnt : count_valid samples = 0).
    { unfold count_valid. clear -Hall.
      induction Hall as [|y l Hy _ IH]; [reflexivity|].
      rewrite filter_cons, decide_False by (rewrite Hy; cbn; auto).
      exact IH. }
    rewrite Hcnt. destruct s0; reflexivity.
  - intros E. rewrite E in Htot |- *.
    destruct (is_sum_small_integers _ _ Htot [1; 0; 3] eq_refl)
      as [->|[Hz _]]; [repeat constructor; lia|cbn; lia| |discriminate Hz].
    reflexivity.
Qed.

Lemma fcubeavg_nanmean_witness :
  nan_fs_ex "cube.fits" = Some nan_cube_ex /\
  shape (hdu_data nan_cube_ex) = [3; 1; 1]%nat /\
  axis0_samples (hdu_data nan_cube_ex) 0 = [of_Z 1; nan; of_Z 3] /\
  exists avg hdr2,
    snd (fcubeavg written_header_ex np_sum_axis0_ex "cube.fits" "avg.fits"
           false nan_fs_ex) = Ok (avg, hdr2) /\
    flat avg !! 0%nat = Some (of_Z 2).
Proof.
  split; [reflexivity|]. split; [reflexivity|]. split; [reflexivity|].
  destruct (fcubeavg_nanmean written_header_ex np_sum_axis0_ex nan_fs_ex
              "cube.fits" "avg.fits" false nan_cube_ex 3%nat [1; 1]%nat
              np_sum_axis0_ex_sums eq_refl eq_refl eq_refl)
    as (avg & hdr2 & Hrun & _ & _ & Hp).
  exists avg, hdr2. split; [exact Hrun|].
  destruct (Hp 0%nat ltac:(cbn; lia))
    as (samples & v & Es & _ & _ & Hv & _ & _ & H).
  rewrite Hv, (H Es). reflexivity.
Defined.

(** ** [ffreqaxis] *)

Section AxisFacts.

Lemma wrap64_small z : in_int64 z = true -> wrap64 z = z.
Proof.
  unfold in_int64, wrap64. intros H. apply andb_prop in H as [H1 H2].
  apply Z.leb_le in H1. apply Z.ltb_lt in H2.
  rewrite Z.mod_small by lia. lia.
Qed.

Lemma eqb_refl_finite x : is_finite x = true -> eqb x x = true.
Proof.
  destruct x as [s|s| |s m e]; try discriminate; intros _; [reflexivity|].
  unfold eqb, SFeqb, SFcompare.
  rewrite Z.compare_refl, Pos.compare_cont_refl. destruct s; reflexivity.
Qed.

Lemma eqb_add_zero x s :
  is_finite x = true -> eqb (add x (S754_zero s)) x = true.
Proof.
  destruct x as [t|t| |t m e]; try discriminate; intros H.
  - destruct t, s; reflexivity.
  - change (add (S754_finite t m e) (S754_zero s)) with (S754_finite t m e).
    apply eqb_refl_finite, H.
Qed.

Lemma mul_zero_l s y :
  is_finite y = true -> exists t, mul (S754_zero s) y = S754_zero t.
Proof.
  destruct y as [t|t| |t m e]; try discriminate; intros _; eexists;
    reflexivity.
Qed.

Lemma header_get_raise h key e : header_get h key = Raise e -> e = KeyError.
Proof.
  induction h as [|[k v] h IH]; cbn [header_get]; [congruence|].
  destruct (String.eqb k key); [discriminate|exact IH].
Qed.

Lemma arr_op_spec fz ff a v :
  valid_number v ->
  exists a',
    arr_op fz ff a v = Ok a' /\
    np1d_length a' = np1d_length a /\
    forall i x, np1d_get a i = Some x ->
      exists y, num_op fz ff x v = Ok y /\ np1d_get a' i = Some y.
Proof.
  intros Hv. destruct a as [l|l], v as [z|y|s]; cbn [valid_number] in Hv;
    try contradiction; cbn [arr_op num_op py_float rbind];
    try (lazymatch type of Hv with
         | in_int64 _ = true =>
             pose proof Hv as Hz; pose proof (of_Z_finite _ Hv) as Hf
         end);
    (eexists; split;
     [rewrite ?Hz, ?Hf; reflexivity
     |split;
      [apply length_map
      |intros i x; cbn [np1d_get]; rewrite list_lookup_fmap;
       destruct (l !! i) as [a|]; [|discriminate]; intros [= <-];
       cbn [num_op py_float]; rewrite ?Hz, ?Hf; eauto]]).
Qed.

End AxisFacts.

Lemma np_arange_plus_one (n : nat) :
  Z.of_nat n < 2 ^ 63 ->
  exists px,
    arr_op Z.add add (Int64s (map Z.of_nat (seq 0 n))) (HInt 1) = Ok px
    /\ np1d_length px = n
    /\ forall i, (i < n)%nat -> np1d_get px i = Some (NInt (Z.of_nat i + 1)).
Proof.
  intros Hn. cbn [arr_op].
  change (in_int64 1) with true. cbv iota. eexists. split; [reflexivity|].
  cbn [np1d_length np1d_get]. rewrite !length_map, length_seq.
  split; [reflexivity|]. intros i Hi.
  rewrite !list_lookup_fmap, lookup_seq_lt by exact Hi.
  cbn [fmap option_fmap option_map Nat.add]. do 2 f_equal.
  apply wrap64_small. unfold in_int64.
  apply andb_true_intro. split; [apply Z.leb_le|apply Z.ltb_lt]; lia.
Qed.

Lemma ffreqaxis_run (f : fs) file x crval crpix cdelt naxis3 :
  f file = Some x ->
  header_get (hdu_header x) "CRVAL3" = Ok crval ->
  header_get (hdu_header x) "CRPIX3" = Ok crpix ->
  header_get (hdu_header x) "CDELT3" = Ok cdelt ->
  header_get (hdu_header x) "NAXIS3" = Ok naxis3 ->
  snd (ffreqaxis file f)
  = (r <~ np_arange naxis3 ;;
     freqpixels <~ arr_op Z.add add r (HInt 1) ;;
     d <~ arr_op Z.sub sub freqpixels crpix ;;
     p <~ arr_op Z.mul mul d cdelt ;;
     op_arr Z.add add crval p).
Proof.
  intros Hf H1 H2 H3 H4.
  unfold ffreqaxis, getheader, getdata, bind, ret, lift.
  rewrite Hf. cbn [snd]. rewrite H1, H2, H3, H4. reflexivity.
Qed.

Lemma ffreqaxis_missing (f : fs) file x key :
  f file = Some x ->
  key ∈ axis_keys ->
  header_get (hdu_header x) key = Raise KeyError ->
  snd (ffreqaxis file f) = Raise KeyError.
Proof.
  intros Hf Hk Hget.
  unfold ffreqaxis, getheader, getdata, bind, ret, lift.
  rewrite Hf. cbn [snd].
  destruct (header_get (hdu_header x) "CRVAL3") as [v1|e1] eqn:E1;
    [|rewrite (header_get_raise _ _ _ E1); reflexivity].
  destruct (header_get (hdu_header x) "CRPIX3") as [v2|e2] eqn:E2;
    [|rewrite (header_get_raise _ _ _ E2); reflexivity].
  destruct (header_get (hdu_header x) "CDELT3") as [v3|e3] eqn:E3;
    [|rewrite (header_get_raise _ _ _ E3); reflexivity].
  destruct (header_get (hdu_header x) "NAXIS3") as [v4|e4] eqn:E4;
    [|rewrite (header_get_raise _ _ _ E4); reflexivity].
  exfalso. unfold axis_keys in Hk.
  repeat (apply elem_of_cons in Hk as [->|Hk]; [congruence|]).
  apply not_elem_of_nil in Hk. exact Hk.
Qed.

(** At the reference pixel every term but CRVAL3 vanishes. *)
Lemma spec_axis_value_reference crval crpix cdelt (i : nat) v :
  valid_number crval -> valid_number crpix -> valid_number cdelt ->
  is_pixel crpix (Z.of_nat i + 1) ->
  spec_axis_value crval crpix cdelt i = Ok v ->
  num_eqb v crval = true.
Proof.
  intros Hcv Hcp Hcd Hpix. unfold spec_axis_value.
  assert (Hd : num_op Z.sub sub (NInt (Z.of_nat i + 1)) crpix = Ok (NInt 0)
               \/ num_op Z.sub sub (NInt (Z.of_nat i + 1)) crpix
                  = Ok (NFloat zero)).
  { destruct Hpix as [->| ->]; cbn [num_op valid_number] in *.
    - left. rewrite Hcp, Z.sub_diag. reflexivity.
    - right. rewrite (sub_diag _ Hcp). reflexivity. }
  assert (Hp : forall d, d = NInt 0 \/ d = NFloat zero ->
             exists p, num_op Z.mul mul d cdelt = Ok p /\
                       (p = NInt 0 \/ exists t, p = NFloat (S754_zero t))).
  { intros d [-> | ->]; destruct cdelt as [z|y|s];
      cbn [num_op valid_number py_float rbind] in *; try contradiction.
    - rewrite Hcd. eexists. split; [reflexivity|]. left. reflexivity.
    - destruct (mul_zero_l false y Hcd) as [t Ht].
      eexists. split; [reflexivity|]. right. exists t.
      change (of_Z 0) with (S754_zero false). rewrite Ht. reflexivity.
    - pose proof (of_Z_finite _ Hcd) as Hf. rewrite Hf. cbn [rbind].
      destruct (mul_zero_l false _ Hf) as [t Ht].
      eexists. split; [reflexivity|]. right. exists t.
      unfold zero. rewrite Ht. reflexivity.
    - destruct (mul_zero_l false y Hcd) as [t Ht].
      eexists. split; [reflexivity|]. right. exists t.
      unfold zero. rewrite Ht. reflexivity. }
  assert (Hdp : exists p, (d <~ num_op Z.sub sub (NInt (Z.of_nat i + 1)) crpix ;;
                           num_op Z.mul mul d cdelt) = Ok p /\
                          (p = NInt 0 \/ exists t, p = NFloat (S754_zero t))).
  { destruct Hd as [Hd|Hd]; rewrite Hd; cbn [rbind]; apply Hp; auto. }
  clear Hd Hp. destruct Hdp as (p & Hmul & Hpz).
  destruct (num_op Z.sub sub (NInt (Z.of_nat i + 1)) crpix) as [d|e];
    cbn [rbind] in *; [|discriminate].
  rewrite Hmul; cbn [rbind]; clear Hmul;
    (
     destruct Hpz as [->|[t ->]]; destruct crval as [c|y|s];
     cbn [num_op valid_number py_float rbind] in *; try contradiction;
     try (lazymatch type of Hcv with
          | in_int64 _ = true =>
              pose proof Hcv as Hc; pose proof (of_Z_finite _ Hcv) as Hf;
              rewrite ?Hc, ?Hf; cbn [rbind]
          end);
     intros [= <-]; cbn [num_eqb]).
  all: try (rewrite Z.add_0_r, (wrap64_small _ Hc); apply Z.eqb_refl).
  all: try (change (of_Z 0) with (S754_zero false)).
  all: try (apply eqb_add_zero; assumption).
Qed.

(** C5, as amended. For a header whose cards CRVAL3, CRPIX3, CDELT3 are
    numbers and whose NAXIS3 is the integer [n], [ffreqaxis] returns an axis
    of length [n] with axis[i] = CRVAL3 + ((i+1) - CRPIX3) * CDELT3 for
    every i below [n]; when CRPIX3 is a pixel number of the axis, that is
    i + 1 for an i below [n], the sample at i = CRPIX3 - 1 equals CRVAL3;
    and [ffreqaxis] raises [KeyError] when one of the four cards is
    absent. *)
Theorem ffreqaxis_spec (f : fs) file x crval crpix cdelt (n : nat) :
  f file = Some x ->
  header_get (hdu_header x) "CRVAL3" = Ok crval ->
  header_get (hdu_header x) "CRPIX3" = Ok crpix ->
  header_get (hdu_header x) "CDELT3" = Ok cdelt ->
  header_get (hdu_header x) "NAXIS3" = Ok (HInt (Z.of_nat n)) ->
  valid_number crval -> valid_number crpix -> valid_number cdelt ->
  Z.of_nat n < 2 ^ 63 ->
  (exists axis,
      snd (ffreqaxis file f) = Ok axis /\
      np1d_length axis = n /\
      (forall i, (i < n)%nat ->
         exists v, np1d_get axis i = Some v /\
                   spec_axis_value crval crpix cdelt i = Ok v) /\
      (forall i v, (i < n)%nat ->
         is_pixel crpix (Z.of_nat i + 1) ->
         np1d_get axis i = Some v -> num_eqb v crval = true)) /\
  (forall (g : fs) file' y key,
      g file' = Some y -> key ∈ axis_keys ->
      header_get (hdu_header y) key = Raise KeyError ->
      snd (ffreqaxis file' g) = Raise KeyError).
Proof.
  intros Hf H1 H2 H3 H4 Hcv Hcp Hcd Hn.
  split; [|intros g file' y key; apply ffreqaxis_missing].
  rewrite (ffreqaxis_run _ _ _ _ _ _ _ Hf H1 H2 H3 H4).
  cbn [np_arange rbind]. rewrite Nat2Z.id.
  destruct (np_arange_plus_one n Hn) as (px & Hpx & Hlpx & Hgpx).
  rewrite Hpx. cbn [rbind].
  destruct (arr_op_spec Z.sub sub px crpix Hcp) as (d & Hd & Hld & Hgd).
  rewrite Hd. cbn [rbind].
  destruct (arr_op_spec Z.mul mul d cdelt Hcd) as (p & Hp & Hlp & Hgp).
  rewrite Hp. cbn [rbind]. unfold op_arr.
  destruct (arr_op_spec (fun x z => Z.add z x) (fun x y => add y x) p crval Hcv)
    as (axis & Ha & Hla & Hga).
  rewrite Ha. exists axis. split; [reflexivity|].
  split; [congruence|].
  assert (Hval : forall i, (i < n)%nat ->
            exists v, np1d_get axis i = Some v /\
                      spec_axis_value crval crpix cdelt i = Ok v).
  { intros i Hi. unfold spec_axis_value.
    destruct (Hgd i _ (Hgpx i Hi)) as (vd & Hvd & Hid).
    destruct (Hgp i _ Hid) as (vp & Hvp & Hip).
    destruct (Hga i _ Hip) as (v & Hv & Hiv).
    exists v. split; [exact Hiv|].
    rewrite Hvd. cbn [rbind]. rewrite Hvp. cbn [rbind]. exact Hv. }
  split; [exact Hval|].
  intros i v Hi Hpix Hiv. destruct (Hval i Hi) as (v' & Hiv' & Hv').
  assert (v' = v) by congruence. subst v'.
  exact (spec_axis_value_reference crval crpix cdelt i v Hcv Hcp Hcd Hpix Hv').
Qed.

Lemma ffreqaxis_spec_witness :
  snd (ffreqaxis "cube.fits" axis_fs_ex)
  = Ok (Float64s [of_Z 10; of_Z 12]) /\
  exists axis,
    snd (ffreqaxis "cube.fits" axis_fs_ex) = Ok axis /\
    np1d_length axis = 2%nat /\
    (forall v, np1d_get axis 0 = Some v ->
               num_eqb v (HFloat (of_Z 10)) = true).
Proof.
  split; [reflexivity|].
  destruct (ffreqaxis_spec axis_fs_ex "cube.fits"
              (mk_hdu (mk_ndarray [2; 1; 1]%nat [one; one]) axis_header_ex)
              (HFloat (of_Z 10)) (HFloat (of_Z 1)) (HInt 2) 2%nat
              eq_refl eq_refl eq_refl eq_refl eq_refl
              eq_refl eq_refl eq_refl eq_refl)
    as [(axis & Hrun & Hlen & _ & Href) _].
  exists axis. split; [exact Hrun|]. split; [exact Hlen|].
  intros v Hv. apply (Href 0%nat v); [lia|right; reflexivity|exact Hv].
Defined.

(** C5 fails as stated: with the reference pixel 0 no sample of the axis
    equals CRVAL3. *)
Lemma ffreqaxis_reference_off_axis :
  snd (ffreqaxis "cube.fits" offaxis_fs_ex) = Ok (Int64s [12; 14]) /\
  header_get offaxis_header_ex "CRVAL3" = Ok (HInt 10) /\
  header_get offaxis_header_ex "CRPIX3" = Ok (HInt 0) /\
  forall i v,
    np1d_get (Int64s [12; 14]) i = Some v -> num_eqb v (HInt 10) = false.
Proof.
  repeat split. intros [|[|i]] v; cbn; intros [= <-]; reflexivity.
Qed.

(** ** Multiplication by 1.0 *)

Lemma mul_one x : valid x = true -> mul x one = x.
Proof.
  destruct x as [s|s| |s m e]; try (destruct s; reflexivity); try reflexivity.
  unfold valid, valid_binary. intros Hb.
  destruct (bounded_fexp _ _ Hb) as [Hf Hle].
  unfold mul. rewrite one_eq. unfold SFmul.
  replace (xorb s false) with s by (destruct s; reflexivity).
  rewrite Pos.mul_comm.
  let t := eval vm_compute in (Pos.mul 4503599627370496 m) in
  change (Pos.mul 4503599627370496 m) with t.
  unfold binary_round_aux, shr_fexp. cbn [Zdigits2 digits2_pos].
  rewrite !Pos2Z.inj_succ.
  set (d := Zpos (digits2_pos m)) in *.
  match goal with |- context [fexp prec emax ?a - ?b] =>
    replace (fexp prec emax a - b) with 52
      by (replace a with (d + e) by lia; rewrite Hf; lia) end.
  cbn [shr shr_record_of_loc SpecFloat.iter_pos shr_1 orb shr_m
       loc_of_shr_record round_nearest_even Zdigits2].
  replace (e + -52 + 52) with e by lia. fold d.
  rewrite Hf, Z.sub_diag. cbn [shr shr_m]. rewrite Hle. reflexivity.
Qed.

(** ** [fmask_signal] and [fmask_snr], sample by sample *)

Section MaskRuns.

Lemma mul_nan_r x : mul x nan = nan.
Proof. destruct x; reflexivity. Qed.

Lemma ltb_nan_l t : ltb nan t = false.
Proof. reflexivity. Qed.

Lemma ltb_nan_r x : ltb x nan = false.
Proof. destruct x; reflexivity. Qed.

Lemma map_seq_nth {A B} (g : A -> B) (l : list A) d :
  map (fun p => g (nth p l d)) (seq 0 (length l)) = map g l.
Proof. rewrite <- (map_map (fun p => nth p l d) g), map_nth_seq. reflexivity. Qed.

Lemma valid_nth (l : list float) p :
  Forall (fun x => valid x = true) l -> valid (nth p l nan) = true.
Proof.
  intros H. rewrite nth_lookup. destruct (l !! p) as [x|] eqn:E; [|reflexivity].
  exact (proj1 (Forall_lookup _ _) H p x E).
Qed.

(** The two arrays of [nan_mask], sample by sample. *)
Lemma nan_mask_eq d (r : list float) t :
  valid_array d -> shape d <> [] -> length r = length (flat d) ->
  nan_mask d (shape d) (map (fun x => ltb x t) r)
  = Ok (mk_ndarray (shape d) (map (fun x => mask_sample x t) r),
        mk_ndarray (shape d)
          (zip_with (fun x y => clip_sample x t y) r (flat d))).
Proof.
  intros [Hwf Hv] Hs Hr.
  destruct (nan_mask_spec d (map (fun x => ltb x t) r) Hwf Hs)
    as (mask & clean & Hrun & Hsm & Hsc & Hp).
  rewrite Hrun. f_equal.
  assert (Hlow : forall p x, r !! p = Some x ->
            nth p (map (fun x => ltb x t) r) false = ltb x t).
  { intros p x Hx. rewrite nth_lookup, list_lookup_fmap, Hx. reflexivity. }
  assert (Hlen : forall p, (p < length (flat d))%nat ->
            exists x y, r !! p = Some x /\ flat d !! p = Some y).
  { intros p Hlt.
    destruct (lookup_lt_is_Some_2 r p ltac:(lia)) as [x Hx].
    destruct (lookup_lt_is_Some_2 (flat d) p Hlt) as [y Hy]. eauto. }
  assert (Hm : flat mask = map (fun x => mask_sample x t) r).
  { apply list_eq. intros p. rewrite list_lookup_fmap.
    destruct (decide (p < length (flat d))%nat) as [Hlt|Hge].
    - destruct (Hlen p Hlt) as (x & y & Hx & Hy).
      destruct (Hp p y Hy) as [Hmp _].
      rewrite Hmp, Hx, (Hlow p x Hx). reflexivity.
    - rewrite (lookup_ge_None_2 r) by lia. cbn.
      destruct (flat mask !! p) as [z|] eqn:E; [|reflexivity].
      exfalso. apply lookup_lt_Some in E.
      enough (length (flat mask) = length (flat d)) by lia.
      clear -Hrun Hwf Hs. unfold nan_mask in Hrun.
      destruct (setitem_where (shape d) (map (fun x => ltb x t) r) Hs)
        as (mask' & Hset & _ & Hl & _).
      rewrite Hset in Hrun. cbn [rbind] in Hrun.
      destruct (np_binop mul d mask'); cbn [rbind] in Hrun; [|discriminate].
      injection Hrun as <- _. rewrite Hl. symmetry. exact Hwf. }
  assert (Hc : flat clean
               = zip_with (fun x y => clip_sample x t y) r (flat d)).
  { apply list_eq. intros p. rewrite lookup_zip_with.
    destruct (decide (p < length (flat d))%nat) as [Hlt|Hge].
    - destruct (Hlen p Hlt) as (x & y & Hx & Hy).
      destruct (Hp p y Hy) as [_ Hcp].
      rewrite Hcp, Hx, Hy, (Hlow p x Hx). cbn. unfold clip_sample.
      destruct (ltb x t); [rewrite mul_nan_r; reflexivity|].
      rewrite mul_one; [reflexivity|].
      exact (proj1 (Forall_lookup _ _) Hv p y Hy).
    - rewrite (lookup_ge_None_2 r) by lia. cbn.
      destruct (flat clean !! p) as [z|] eqn:E; [|reflexivity].
      exfalso. apply lookup_lt_Some in E.
      enough (length (flat clean) = length (flat d)) by lia.
      clear -Hrun Hwf Hs. unfold nan_mask in Hrun.
      destruct (setitem_where (shape d) (map (fun x => ltb x t) r) Hs)
        as (mask' & Hset & Hsh & Hl & _).
      rewrite Hset in Hrun. cbn [rbind] in Hrun.
      rewrite (np_binop_same_shape _ _ _ Hsh) in Hrun. cbn [rbind] in Hrun.
      injection Hrun as _ <-. cbn [flat].
      rewrite length_map, length_seq. symmetry. exact Hwf. }
  destruct mask as [sm fm], clean as [sc fc]. cbn [shape flat] in *.
  subst. reflexivity.
Qed.

Lemma zip_with_self {A B} (f : A -> A -> B) (l : list A) :
  zip_with f l l = map (fun x => f x x) l.
Proof. induction l as [|x l IH]; cbn; congruence. Qed.

Lemma zip_with_map_l {A B C D} (f : B -> C -> D) (g : A -> B) l k :
  zip_with f (map g l) k = zip_with (fun x y => f (g x) y) l k.
Proof.
  revert k. induction l as [|x l IH]; intros [|y k]; cbn; try reflexivity.
  rewrite IH. reflexivity.
Qed.

Lemma alloc_two (h : heap) (r : ndarray * ndarray) :
  (mask <- alloc (fst r) ;; data_clean <- alloc (snd r) ;;
   ret (mask, data_clean)) h
  = (h ++ [fst r; snd r], Ok (length h, S (length h))).
Proof.
  unfold bind, alloc, ret. rewrite length_app, <- app_assoc. cbn [app length].
  replace (length h + 1)%nat with (S (length h)) by lia. reflexivity.
Qed.

Lemma fmask_signal_run (h : heap) data d t :
  h !! data = Some d -> valid_array d -> shape d <> [] ->
  fmask_signal data t h
  = (h ++ [np_map (fun x => mask_sample x t) d;
           np_map (fun x => clip_sample x t x) d],
     Ok (length h, S (length h))).
Proof.
  intros Hd Hv Hs. unfold fmask_signal.
  erewrite bind_ok by (apply read_ok, Hd).
  erewrite bind_ok
    by (unfold lift; rewrite (nan_mask_eq d (flat d) t Hv Hs eq_refl);
        reflexivity).
  rewrite alloc_two. cbn [fst snd]. rewrite zip_with_self. reflexivity.
Qed.

Lemma fmask_snr_scalar_run (h : heap) data d c snr :
  h !! data = Some d -> valid_array d -> shape d <> [] ->
  fmask_snr data (PyFloat c) snr h
  = (h ++ [np_map (fun x => mask_sample (div x c) snr) d;
           np_map (fun x => clip_sample (div x c) snr x) d],
     Ok (length h, S (length h))).
Proof.
  intros Hd Hv Hs. unfold fmask_snr.
  erewrite bind_ok by (apply read_ok, Hd).
  erewrite (bind_ok (read_arg _)) by reflexivity.
  erewrite bind_ok
    by (unfold lift; rewrite (np_binop_scalar _ _ _ (proj1 Hv)); reflexivity).
  cbn [np_map shape flat].
  erewrite bind_ok
    by (unfold lift;
        rewrite (nan_mask_eq d (map (fun x => div x c) (flat d)) snr Hv Hs
                   (length_map _ _));
        reflexivity).
  rewrite alloc_two. cbn [fst snd]. unfold np_map.
  rewrite map_map, zip_with_map_l, zip_with_self. reflexivity.
Qed.

End MaskRuns.

Lemma valid_clipped d t :
  valid_array d -> valid_array (np_map (fun x => clip_sample x t x) d).
Proof.
  intros [Hwf Hv]. split.
  - unfold wf_array, np_map in *. cbn [flat shape]. rewrite length_map.
    exact Hwf.
  - cbn [np_map flat]. apply Forall_forall. intros y Hy.
    apply list_elem_of_In, in_map_iff in Hy as (x & <- & Hx).
    unfold clip_sample. destruct (ltb x t); [reflexivity|].
    rewrite Forall_forall in Hv. apply Hv, list_elem_of_In, Hx.
Qed.

(** X1. [fmask_signal] returns two new arrays of the size of the data. Where
    a sample is below the threshold, the mask and the clipped data are both
    NaN; elsewhere the mask is 1.0 and the clipped data is the sample
    itself. A NaN sample is below no threshold: its mask is 1.0 and it stays
    NaN in the clipped data. *)
Theorem fmask_signal_keeps_or_masks (h : heap) data d t :
  h !! data = Some d -> valid_array d -> shape d <> [] ->
  exists mask clean,
    fmask_signal data t h
    = (h ++ [mask; clean], Ok (length h, S (length h))) /\
    length (flat mask) = length (flat d) /\
    length (flat clean) = length (flat d) /\
    forall p x, flat d !! p = Some x ->
      (ltb x t = true ->
       flat mask !! p = Some nan /\ flat clean !! p = Some nan) /\
      (ltb x t = false ->
       flat mask !! p = Some one /\ flat clean !! p = Some x) /\
      (is_nan x = true ->
       flat mask !! p = Some one /\ flat clean !! p = Some nan).
Proof.
  intros Hd Hv Hs. eexists _, _.
  split; [apply (fmask_signal_run _ _ _ _ Hd Hv Hs)|].
  cbn [np_map flat]. rewrite !length_map. split; [reflexivity|].
  split; [reflexivity|]. intros p x Hx.
  rewrite !list_lookup_fmap, Hx. cbn [fmap option_fmap option_map].
  unfold mask_sample, clip_sample.
  split; [intros ->; auto|]. split; [intros ->; auto|].
  destruct x; try discriminate. intros _. auto.
Qed.

Lemma fmask_signal_keeps_or_masks_witness :
  [data_ex] !! 0%nat = Some data_ex /\
  exists mask clean,
    fmask_signal 0%nat (of_Z 3) [data_ex]
    = ([data_ex] ++ [mask; clean], Ok (1%nat, 2%nat)) /\
    flat clean !! 1%nat = Some (of_Z 5).
Proof.
  split; [reflexivity|].
  destruct (fmask_signal_keeps_or_masks [data_ex] 0%nat data_ex (of_Z 3)
              eq_refl) as (mask & clean & Hrun & _ & _ & Hp).
  - split; [reflexivity|]. repeat constructor.
  - discriminate.
  - exists mask, clean. split; [exact Hrun|].
    destruct (Hp 1%nat (of_Z 5) eq_refl) as (_ & Hkeep & _).
    apply Hkeep. reflexivity.
Defined.

(** X2. Clipping twice is clipping once: [fmask_signal] applied with the
    same threshold to the clipped data it has returned masks nothing more;
    its mask is all ones and its clipped data is the array it was given. *)
Theorem fmask_signal_idempotent (h : heap) data d t :
  h !! data = Some d -> valid_array d -> shape d <> [] ->
  exists mask clean,
    fmask_signal data t h
    = (h ++ [mask; clean], Ok (length h, S (length h))) /\
    fmask_signal (S (length h)) t (h ++ [mask; clean])
    = ((h ++ [mask; clean]) ++ [np_ones (shape d); clean],
       Ok (length (h ++ [mask; clean]), S (length (h ++ [mask; clean])))).
Proof.
  intros Hd Hv Hs. eexists _, _.
  split; [apply (fmask_signal_run _ _ _ _ Hd Hv Hs)|].
  set (clean := np_map (fun x => clip_sample x t x) d).
  rewrite (fmask_signal_run _ (S (length h)) clean t).
  - do 3 f_equal.
    + unfold clean, np_ones, np_map. cbn [shape flat]. f_equal.
      rewrite map_map. destruct Hv as [Hwf _]. rewrite <- Hwf.
      induction (flat d) as [|x l IH]; [reflexivity|].
      cbn [map length replicate]. rewrite IH. f_equal.
      unfold mask_sample, clip_sample.
      destruct (ltb x t) eqn:E; [reflexivity|]. rewrite E. reflexivity.
    + f_equal. unfold clean, np_map. cbn [shape flat]. f_equal.
      rewrite map_map. apply map_ext. intros x. unfold clip_sample.
      destruct (ltb x t) eqn:E; [reflexivity|]. rewrite E. reflexivity.
  - rewrite lookup_app_r by lia.
    replace (S (length h) - length h)%nat with 1%nat by lia. reflexivity.
  - apply valid_clipped, Hv.
  - exact Hs.
Qed.

Lemma fmask_signal_idempotent_witness :
  [data_ex] !! 0%nat = Some data_ex /\
  exists mask clean,
    fmask_signal 0%nat (of_Z 3) [data_ex]
    = ([data_ex] ++ [mask; clean], Ok (1%nat, 2%nat)) /\
    fmask_signal 2%nat (of_Z 3) ([data_ex] ++ [mask; clean])
    = (([data_ex] ++ [mask; clean]) ++ [np_ones [3%nat]; clean],
       Ok (3%nat, 4%nat)).
Proof.
  split; [reflexivity|].
  apply (fmask_signal_idempotent [data_ex] 0%nat data_ex (of_Z 3) eq_refl).
  - split; [reflexivity|]. repeat constructor.
  - discriminate.
Defined.

(** X3. With a scalar noise [fmask_snr] thresholds the ratio of each sample
    to the noise: where the ratio is below [snr] the mask and the clipped
    data are NaN, elsewhere the mask is 1.0 and the sample is kept. A NaN
    noise or a NaN [snr] masks nothing: the mask is all ones and the
    clipped data equals the data. *)
Theorem fmask_snr_scalar_noise (h : heap) data d c snr :
  h !! data = Some d -> valid_array d -> shape d <> [] ->
  exists mask clean,
    fmask_snr data (PyFloat c) snr h
    = (h ++ [mask; clean], Ok (length h, S (length h))) /\
    (forall p x, flat d !! p = Some x ->
       (ltb (div x c) snr = true ->
        flat mask !! p = Some nan /\ flat clean !! p = Some nan) /\
       (ltb (div x c) snr = false ->
        flat mask !! p = Some one /\ flat clean !! p = Some x)) /\
    (is_nan c = true \/ is_nan snr = true ->
     mask = np_ones (shape d) /\ clean = d).
Proof.
  intros Hd Hv Hs. eexists _, _.
  split; [apply (fmask_snr_scalar_run _ _ _ _ _ Hd Hv Hs)|]. split.
  - intros p x Hx. cbn [np_map flat].
    rewrite !list_lookup_fmap, Hx. cbn [fmap option_fmap option_map].
    unfold mask_sample, clip_sample. split; intros ->; auto.
  - intros Hnan.
    assert (Hkeep : forall x, ltb (div x c) snr = false).
    { intros x. destruct Hnan as [Hc|Hc].
      - destruct c; try discriminate. destruct x; reflexivity.
      - destruct snr; try discriminate. apply ltb_nan_r. }
    destruct Hv as [Hwf _]. destruct d as [s fl].
    unfold np_ones, np_map, wf_array in *. cbn [shape flat] in *. split.
    + f_equal. rewrite <- Hwf. clear Hwf Hd.
      induction fl as [|x l IH]; [reflexivity|].
      cbn [map length replicate]. rewrite IH. f_equal.
      unfold mask_sample. rewrite Hkeep. reflexivity.
    + f_equal. rewrite <- (map_id fl) at 2. apply map_ext. intros x.
      unfold clip_sample. rewrite Hkeep. reflexivity.
Qed.

Lemma fmask_snr_scalar_noise_witness :
  [data_ex] !! 0%nat = Some data_ex /\
  exists mask clean,
    fmask_snr 0%nat (PyFloat (of_Z 2)) nan [data_ex]
    = ([data_ex] ++ [mask; clean], Ok (1%nat, 2%nat)) /\
    mask = np_ones [3%nat] /\ clean = data_ex.
Proof.
  split; [reflexivity|].
  destruct (fmask_snr_scalar_noise [data_ex] 0%nat data_ex (of_Z 2) nan
              eq_refl) as (mask & clean & Hrun & _ & Hnan).
  - split; [reflexivity|]. repeat constructor.
  - discriminate.
  - exists mask, clean. split; [exact Hrun|]. apply Hnan. right. reflexivity.
Defined.

(** X4. [fmask_snr] on 1-D data with a 1-D noise of another length, neither
    of them of length 1, raises [ValueError] and creates no array. *)
Theorem fmask_snr_shape_mismatch (h : heap) data d noise nz snr n m :
  h !! data = Some d ->
  arg_value h noise = Some nz ->
  shape d = [n] -> shape nz = [m] ->
  n <> m -> n <> 1%nat -> m <> 1%nat ->
  fmask_snr data noise snr h = (h, Raise ValueError).
Proof.
  intros Hd Hn Hsd Hsn Hnm Hn1 Hm1. unfold fmask_snr.
  erewrite bind_ok by (apply read_ok, Hd).
  erewrite bind_ok by (apply read_arg_ok, Hn).
  unfold bind, lift, np_binop, broadcast_shapes. rewrite Hsd, Hsn.
  cbn [rev app broadcast_rev].
  rewrite (proj2 (Nat.eqb_neq n m) Hnm), (proj2 (Nat.eqb_neq n 1) Hn1),
    (proj2 (Nat.eqb_neq m 1) Hm1).
  reflexivity.
Qed.

Lemma fmask_snr_shape_mismatch_witness :
  fmask_snr 0%nat (PyArray 1%nat) (of_Z 3) [data_ex; short_noise_ex]
  = ([data_ex; short_noise_ex], Raise ValueError).
Proof.
  apply (fmask_snr_shape_mismatch [data_ex; short_noise_ex] 0%nat data_ex
           (PyArray 1%nat) short_noise_ex (of_Z 3) 3%nat 2%nat);
    (reflexivity || discriminate).
Defined.

(** ** [fmaptheta_halfpolar], sample by sample *)

Section Comparisons.

Lemma SFcompare_swap x y :
  SFcompare y x
  = match SFcompare x y with Some c => Some (CompOpp c) | None => None end.
Proof.
  destruct x as [s|s| |s m e], y as [t|t| |t n f]; try reflexivity;
    try (destruct s; reflexivity); try (destruct t; reflexivity);
    try (destruct s, t; reflexivity).
  cbn [SFcompare].
  destruct s, t; try reflexivity; rewrite (Z.compare_antisym e f);
    destruct (e ?= f)%Z; cbn [CompOpp]; try reflexivity;
    rewrite (Pos.compare_cont_antisym m n Eq); reflexivity.
Qed.

Lemma ltb_not_geb x y : ltb x y = true -> geb x y = false.
Proof.
  unfold ltb, geb, SFltb, SFleb. rewrite (SFcompare_swap x y).
  destruct (SFcompare x y) as [[| |]|]; try discriminate. reflexivity.
Qed.

(** A float equal to a finite non-zero float is that float. *)
Lemma eqb_finite_eq x s m e :
  eqb x (S754_finite s m e) = true -> x = S754_finite s m e.
Proof.
  unfold eqb, SFeqb.
  destruct x as [t|t| |t n f]; cbn [SFcompare];
    try (destruct t; discriminate); try (destruct s; discriminate);
    try (destruct s, t; discriminate); try discriminate.
  destruct t, s; try discriminate;
    destruct (f ?= e)%Z eqn:Ee; try discriminate;
    apply Z.compare_eq in Ee; subst f;
    destruct (Pos.compare_cont Eq n m) eqn:Em; try discriminate;
    apply Pos.compare_eq in Em; subst n; reflexivity.
Qed.

End Comparisons.

Lemma halfpolar_sample_turns deg x :
  halfpolar_sample deg x
  = let y := if geb x (half_turn deg) && neqb x (full_turn deg)
             then sub x (half_turn deg) else x in
    if eqb y (full_turn deg) then sub y (full_turn deg) else y.
Proof. destruct deg; reflexivity. Qed.

Lemma full_turn_finite deg :
  exists m e, full_turn deg = S754_finite false m e.
Proof. destruct deg; eexists _, _; reflexivity. Qed.

Lemma halfpolar_sample_not_full deg x :
  eqb (halfpolar_sample deg x) (full_turn deg) = false.
Proof.
  rewrite halfpolar_sample_turns. cbn zeta.
  set (y := if geb x (half_turn deg) && neqb x (full_turn deg)
            then sub x (half_turn deg) else x).
  destruct (eqb y (full_turn deg)) eqn:E; [|exact E].
  destruct (full_turn_finite deg) as (m & e & Hf). rewrite Hf in E.
  apply eqb_finite_eq in E. rewrite E, <- Hf. destruct deg; reflexivity.
Qed.

(** X5. After [fmaptheta_halfpolar] no sample of the array equals the full
    turn (2.0, or 360.0 with [deg=True]); the array is updated in place,
    keeps its shape and is the value returned. *)
Theorem fmaptheta_halfpolar_never_full_turn (h : heap) angles a deg :
  h !! angles = Some a ->
  exists a',
    fmaptheta_halfpolar angles deg h = (<[angles := a']> h, Ok angles) /\
    shape a' = shape a /\
    length (flat a') = length (flat a) /\
    forall p y, flat a' !! p = Some y -> eqb y (full_turn deg) = false.
Proof.
  intros Ha. exists (np_map (halfpolar_sample deg) a).
  split; [apply fmaptheta_halfpolar_run, Ha|]. split; [reflexivity|].
  cbn [np_map flat]. split; [apply length_map|].
  intros p y. rewrite list_lookup_fmap.
  destruct (flat a !! p) as [x|]; [|discriminate]. intros [= <-].
  apply halfpolar_sample_not_full.
Qed.

Lemma fmaptheta_halfpolar_never_full_turn_witness :
  [angles_ex] !! 0%nat = Some angles_ex /\
  exists a',
    fmaptheta_halfpolar 0%nat false [angles_ex]
    = (<[0%nat := a']> [angles_ex], Ok 0%nat) /\
    forall p y, flat a' !! p = Some y -> eqb y (of_Z 2) = false.
Proof.
  split; [reflexivity|].
  destruct (fmaptheta_halfpolar_never_full_turn [angles_ex] 0%nat angles_ex
              false eq_refl) as (a' & Hrun & _ & _ & Hp).
  exists a'. split; [exact Hrun|exact Hp].
Defined.

(** X6. What [fmaptheta_halfpolar] does to each sample: a sample below the
    half turn, or NaN, is unchanged; the full turn becomes 0.0; any other
    sample not below the half turn has the half turn subtracted once, and
    becomes 0.0 when the difference is the full turn (540.0 with
    [deg=True]). Samples above the full turn are therefore not brought
    below the half turn. *)
Theorem fmaptheta_halfpolar_samples (h : heap) angles a deg :
  h !! angles = Some a ->
  exists a',
    fmaptheta_halfpolar angles deg h = (<[angles := a']> h, Ok angles) /\
    forall p x, flat a !! p = Some x ->
      exists y, flat a' !! p = Some y /\
        (ltb x (half_turn deg) = true \/ is_nan x = true -> y = x) /\
        (eqb x (full_turn deg) = true -> y = zero) /\
        (geb x (half_turn deg) = true -> eqb x (full_turn deg) = false ->
         y = if eqb (sub x (half_turn deg)) (full_turn deg) then zero
             else sub x (half_turn deg)).
Proof.
  intros Ha. exists (np_map (halfpolar_sample deg) a).
  split; [apply fmaptheta_halfpolar_run, Ha|].
  intros p x Hx. exists (halfpolar_sample deg x).
  split; [apply np_map_lookup, Hx|].
  rewrite halfpolar_sample_turns. cbn zeta.
  destruct (full_turn_finite deg) as (m & e & Hf).
  split; [|split].
  - intros [Hlt|Hnan].
    + rewrite (ltb_not_geb _ _ Hlt). cbn [andb].
      destruct (eqb x (full_turn deg)) eqn:E; [|reflexivity].
      exfalso. rewrite Hf in E. apply eqb_finite_eq in E.
      rewrite E, <- Hf in Hlt. destruct deg; discriminate.
    + destruct x; try discriminate. destruct deg; reflexivity.
  - intros E. change (neqb x (full_turn deg)) with (negb (eqb x (full_turn deg))).
    rewrite E. cbn [negb]. rewrite andb_false_r.
    cbv iota. rewrite E.
    rewrite Hf in E. apply eqb_finite_eq in E. rewrite E, <- Hf.
    destruct deg; reflexivity.
  - intros Hge Hne.
    change (neqb x (full_turn deg)) with (negb (eqb x (full_turn deg))).
    rewrite Hge, Hne. cbn [negb andb].
    destruct (eqb (sub x (half_turn deg)) (full_turn deg)) eqn:E;
      [|reflexivity].
    rewrite Hf in E. apply eqb_finite_eq in E. rewrite E, <- Hf.
    destruct deg; reflexivity.
Qed.

Lemma fmaptheta_halfpolar_samples_witness :
  [vec [of_Z 540; of_Z 10]] !! 0%nat = Some (vec [of_Z 540; of_Z 10]) /\
  exists a',
    fmaptheta_halfpolar 0%nat true [vec [of_Z 540; of_Z 10]]
    = (<[0%nat := a']> [vec [of_Z 540; of_Z 10]], Ok 0%nat) /\
    flat a' !! 0%nat = Some zero /\ flat a' !! 1%nat = Some (of_Z 10).
Proof.
  split; [reflexivity|].
  destruct (fmaptheta_halfpolar_samples [vec [of_Z 540; of_Z 10]] 0%nat
              (vec [of_Z 540; of_Z 10]) true eq_refl) as (a' & Hrun & Hp).
  exists a'. split; [exact Hrun|]. split.
  - destruct (Hp 0%nat (of_Z 540) eq_refl) as (y & Hy & _ & _ & H3).
    rewrite Hy, (H3 eq_refl eq_refl). reflexivity.
  - destruct (Hp 1%nat (of_Z 10) eq_refl) as (y & Hy & H1 & _).
    rewrite Hy, (H1 (or_introl eq_refl)). reflexivity.
Defined.

(** ** [fconvolve]: kernel size, errors and the update of the data *)

(** X7. With equal resolutions the value under the square root of
    [fconvolve] is 0.0 (provided the square of the standard deviation is
    finite), so the kernel size is 0.0 divided by the pixel size in
    arcminutes: a zero with the sign of the pixel size when that is finite
    and not zero. *)
Theorem fconvolve_equal_resolutions res hdr v c :
  is_finite (mul (div res fwhm_factor) (div res fwhm_factor)) = true ->
  header_get hdr "CDELT2" = Ok v ->
  py_float v = Ok c ->
  kernel_radicand res res = zero /\
  fconvolve_kernelsize res res hdr = Ok (div zero (mul c (of_Z 60))) /\
  forall s m e,
    mul c (of_Z 60) = S754_finite s m e ->
    fconvolve_kernelsize res res hdr = Ok (S754_zero s).
Proof.
  intros Hfin Hv Hc.
  assert (Hrad : kernel_radicand res res = zero).
  { unfold kernel_radicand. cbn zeta. apply sub_diag, Hfin. }
  assert (Hks : fconvolve_kernelsize res res hdr
                = Ok (div zero (mul c (of_Z 60)))).
  { unfold fconvolve_kernelsize, py_mul_float. rewrite Hrad, Hv.
    cbn [rbind]. rewrite Hc. reflexivity. }
  split; [exact Hrad|]. split; [exact Hks|].
  intros s m e Hp. rewrite Hks, Hp. reflexivity.
Qed.

Lemma fconvolve_equal_resolutions_witness :
  fconvolve_kernelsize (of_Z 4) (of_Z 4) header_ex = Ok zero.
Proof.
  destruct (fconvolve_equal_resolutions (of_Z 4) header_ex
              (HFloat (dyadic 1 (-6))) (dyadic 1 (-6))
              eq_refl eq_refl eq_refl) as (_ & _ & H).
  apply (H false 8444249301319680%positive (-53)). reflexivity.
Defined.

(** X8. The errors of [fconvolve] come before any update of the data: a
    header without CDELT2 gives [KeyError], a CDELT2 that is a string gives
    [TypeError], data of fewer than two dimensions gives [IndexError], and
    a method other than scipy and astropy gives [UnboundLocalError]; in
    each case no array is changed or created. *)
Theorem fconvolve_errors_before_update
    gaussian np_sum fftconvolve convolve_fft
    oldres newres (h : heap) data d hdr method :
  h !! data = Some d ->
  (header_get hdr "CDELT2" = Raise KeyError ->
   fconvolve gaussian np_sum fftconvolve convolve_fft
     oldres newres data hdr method h = (h, Raise KeyError)) /\
  (forall s, header_get hdr "CDELT2" = Ok (HStr s) ->
   fconvolve gaussian np_sum fftconvolve convolve_fft
     oldres newres data hdr method h = (h, Raise TypeError)) /\
  (forall ks, fconvolve_kernelsize oldres newres hdr = Ok ks ->
   (length (shape d) < 2)%nat ->
   fconvolve gaussian np_sum fftconvolve convolve_fft
     oldres newres data hdr method h = (h, Raise IndexError)) /\
  (forall ks, fconvolve_kernelsize oldres newres hdr = Ok ks ->
   (2 <= length (shape d))%nat ->
   method <> "scipy" -> method <> "astropy" ->
   fconvolve gaussian np_sum fftconvolve convolve_fft
     oldres newres data hdr method h = (h, Raise UnboundLocalError)).
Proof.
  intros Hd. repeat apply conj.
  - intros Hk. unfold fconvolve, bind, lift, fconvolve_kernelsize.
    rewrite Hk. reflexivity.
  - intros s Hk. unfold fconvolve, bind, lift, fconvolve_kernelsize.
    rewrite Hk. reflexivity.
  - intros ks Hks Hlen. unfold fconvolve.
    erewrite bind_ok by (unfold lift; rewrite Hks; reflexivity).
    erewrite bind_ok by (apply read_ok, Hd).
    destruct (shape d) as [|sx [|sy rest]]; [reflexivity|reflexivity|].
    cbn in Hlen. lia.
  - intros ks Hks Hlen Hs Ha. unfold fconvolve.
    erewrite bind_ok by (unfold lift; rewrite Hks; reflexivity).
    erewrite bind_ok by (apply read_ok, Hd).
    destruct (shape d) as [|sx [|sy rest]]; [cbn in Hlen; lia..|].
    erewrite bind_ok
      by (unfold lift; rewrite (np_binop_scalar _ _ _ (np_outer_wf _ _));
          reflexivity).
    rewrite (proj2 (String.eqb_neq _ _) Hs), (proj2 (String.eqb_neq _ _) Ha).
    reflexivity.
Qed.

Lemma fconvolve_errors_before_update_witness :
  [image_ex] !! 0%nat = Some image_ex /\
  fconvolve gaussian_ex np_sum_ex convolve_ex convolve_ex
    (of_Z 2) (of_Z 4) 0%nat [] "scipy" [image_ex]
  = ([image_ex], Raise KeyError) /\
  fconvolve gaussian_ex np_sum_ex convolve_ex convolve_ex
    (of_Z 2) (of_Z 4) 0%nat header_ex "fft" [image_ex]
  = ([image_ex], Raise UnboundLocalError) /\
  fconvolve gaussian_ex np_sum_ex convolve_ex convolve_ex
    (of_Z 2) (of_Z 4) 0%nat header_ex "scipy" [line_ex]
  = ([line_ex], Raise IndexError).
Proof.
  split; [reflexivity|].
  destruct (fconvolve_errors_before_update
              gaussian_ex np_sum_ex convolve_ex convolve_ex
              (of_Z 2) (of_Z 4) [image_ex] 0%nat image_ex [] "scipy" eq_refl)
    as (Hkey & _).
  destruct (fconvolve_errors_before_update
              gaussian_ex np_sum_ex convolve_ex convolve_ex
              (of_Z 2) (of_Z 4) [image_ex] 0%nat image_ex header_ex "fft"
              eq_refl) as (_ & _ & _ & Hm).
  destruct (fconvolve_errors_before_update
              gaussian_ex np_sum_ex convolve_ex convolve_ex
              (of_Z 2) (of_Z 4) [line_ex] 0%nat line_ex header_ex "scipy"
              eq_refl) as (_ & _ & Hdim & _).
  split; [apply Hkey; reflexivity|]. split.
  - eapply Hm; [reflexivity|cbn; lia|discriminate|discriminate].
  - eapply Hdim; [reflexivity|cbn; lia].
Defined.

(** X9. With [method="scipy"] [fconvolve] overwrites the data in place,
    whether or not the convolution then succeeds: the array keeps its
    shape, every NaN sample becomes 0.0, every other sample is unchanged
    and no NaN is left. With [method="astropy"] the data is not changed. *)
Theorem fconvolve_scipy_overwrites_nans
    gaussian np_sum fftconvolve convolve_fft
    oldres newres (h : heap) data d hdr ks sx sy rest :
  h !! data = Some d ->
  fconvolve_kernelsize oldres newres hdr = Ok ks ->
  shape d = sx :: sy :: rest ->
  exists d',
    fst (fconvolve gaussian np_sum fftconvolve convolve_fft
           oldres newres data hdr "scipy" h) !! data = Some d' /\
    shape d' = shape d /\
    (forall p x, flat d !! p = Some x ->
       flat d' !! p = Some (if is_nan x then zero else x)) /\
    (forall p y, flat d' !! p = Some y -> is_nan y = false) /\
    fst (fconvolve gaussian np_sum fftconvolve convolve_fft
           oldres newres data hdr "astropy" h) !! data = Some d.
Proof.
  intros Hd Hks Hs. pose proof (lookup_lt_Some _ _ _ Hd) as Hlt.
  exists (nan_to_zero d). split; [|split; [reflexivity|split; [|split]]].
  - unfold fconvolve.
    erewrite bind_ok by (unfold lift; rewrite Hks; reflexivity).
    erewrite bind_ok by (apply read_ok, Hd).
    rewrite Hs.
    erewrite bind_ok
      by (unfold lift; rewrite (np_binop_scalar _ _ _ (np_outer_wf _ _));
          reflexivity).
    cbn [String.eqb Ascii.eqb Bool.eqb].
    erewrite bind_ok by (eapply write_ok, Hd).
    erewrite bind_ok by (apply read_ok, list_lookup_insert_eq, Hlt).
    unfold bind, lift, alloc.
    destruct (fftconvolve _ _); cbn [fst].
    + rewrite lookup_app_l by (rewrite length_insert; exact Hlt).
      apply list_lookup_insert_eq, Hlt.
    + apply list_lookup_insert_eq, Hlt.
  - intros p x Hx.
    exact (np_map_lookup (fun x => if is_nan x then zero else x) d p x Hx).
  - intros p y. cbn [nan_to_zero np_map flat]. rewrite list_lookup_fmap.
    destruct (flat d !! p) as [x|]; [|discriminate]. intros [= <-].
    destruct x; reflexivity.
  - unfold fconvolve.
    erewrite bind_ok by (unfold lift; rewrite Hks; reflexivity).
    erewrite bind_ok by (apply read_ok, Hd).
    rewrite Hs.
    erewrite bind_ok
      by (unfold lift; rewrite (np_binop_scalar _ _ _ (np_outer_wf _ _));
          reflexivity).
    cbn [String.eqb Ascii.eqb Bool.eqb].
    unfold bind, lift, alloc.
    destruct (convolve_fft _ _); cbn [fst]; [|exact Hd].
    rewrite lookup_app_l by exact Hlt. exact Hd.
Qed.

Lemma fconvolve_scipy_overwrites_nans_witness :
  [image_ex] !! 0%nat = Some image_ex /\
  fst (fconvolve gaussian_ex np_sum_ex convolve_ex convolve_ex
         (of_Z 2) (of_Z 4) 0%nat header_ex "scipy" [image_ex]) !! 0%nat
  = Some (mk_ndarray [1; 2]%nat [of_Z 1; zero]).
Proof.
  split; [reflexivity|].
  destruct (fconvolve_scipy_overwrites_nans
              gaussian_ex np_sum_ex convolve_ex convolve_ex
              (of_Z 2) (of_Z 4) [image_ex] 0%nat image_ex header_ex
              (S754_finite false 7066777166729559 (-52)) 1%nat 2%nat []
              eq_refl eq_refl eq_refl) as (d' & Hd' & Hsh & Hp & _).
  rewrite Hd'. f_equal. destruct d' as [s [|a [|b [|c l]]]];
    cbn [shape flat] in *.
  - specialize (Hp 0%nat _ eq_refl). discriminate.
  - specialize (Hp 1%nat _ eq_refl). discriminate.
  - pose proof (Hp 0%nat _ eq_refl) as H0.
    pose proof (Hp 1%nat _ eq_refl) as H1.
    cbn [lookup list_lookup is_nan nan] in H0, H1.
    injection H0 as ->. injection H1 as ->.
    change (shape image_ex) with [1; 2]%nat in Hsh. rewrite Hsh.
    reflexivity.
  - exfalso. clear -Hd'. cbv in Hd'. discriminate.
Defined.

(** ** [fgradient] and [fmaskinterp] *)

Section Signs.

Lemma binary_round_aux_nonneg m e l :
  nonneg_or_nan (binary_round_aux prec emax false m e l).
Proof.
  unfold binary_round_aux.
  destruct (shr_fexp prec emax m e l) as [mrs' e'].
  destruct (shr_fexp prec emax _ e' loc_Exact) as [mrs'' e''].
  destruct (shr_m mrs'') as [|p|p]; cbn; [reflexivity| |exact I].
  destruct (e'' <=? emax - prec); reflexivity.
Qed.

Lemma mul_self_nonneg x : nonneg_or_nan (mul x x).
Proof.
  destruct x as [[]|[]| |[] m e]; try reflexivity; try exact I;
    apply binary_round_aux_nonneg.
Qed.

Lemma add_nonneg x y :
  nonneg_or_nan x -> nonneg_or_nan y -> nonneg_or_nan (add x y).
Proof.
  destruct x as [s|s| |s m e], y as [t|t| |t n f]; cbn [nonneg_or_nan];
    intros Hx Hy; subst; try reflexivity; try exact I.
  unfold add, SFadd. cbn [cond_Zopp].
  change (Z.pos ?a + Z.pos ?b) with (Z.pos (a + b)).
  cbn [binary_normalize]. unfold binary_round.
  destruct (shl_align (_ + _) _ _) as [mz ez].
  apply binary_round_aux_nonneg.
Qed.

Lemma sqrt_nonneg x : nonneg_or_nan x -> nonneg_or_nan (sqrt x).
Proof.
  destruct x as [s|s| |s m e]; cbn [nonneg_or_nan]; intros Hx; subst;
    try reflexivity; try exact I.
  unfold sqrt, SFsqrt.
  destruct (SFsqrt_core_binary prec emax (Z.pos m) e) as [[mz ez] lz].
  apply binary_round_aux_nonneg.
Qed.

Lemma get_map_square a idx :
  nonneg_or_nan (get (np_map (fun x => mul x x) a) idx).
Proof.
  unfold get, np_map. cbn [shape flat].
  rewrite nth_lookup, list_lookup_fmap.
  destruct (flat a !! _) as [x|]; cbn; [apply mul_self_nonneg|exact I].
Qed.

End Signs.

(** X10. Whatever [np.gradient] returns, every sample of the array that
    [fgradient] returns is NaN or has its sign bit clear: the gradient
    magnitude is never negative, not even a negative zero. The result is a
    new array. *)
Theorem fgradient_nonnegative np_gradient (h : heap) image l :
  snd (fgradient np_gradient image h) = Ok l ->
  exists grad,
    fst (fgradient np_gradient image h) !! l = Some grad /\
    l = length h /\
    forall p y, flat grad !! p = Some y -> nonneg_or_nan y.
Proof.
  unfold fgradient, bind, read, lift, alloc.
  destruct (h !! image) as [img|]; cbn [fst snd]; [|discriminate].
  destruct (np_gradient img) as [[grad_y grad_x]|]; cbn [fst snd];
    [|discriminate].
  unfold np_binop. cbn [np_map shape].
  destruct (broadcast_shapes (shape grad_x) (shape grad_y)) as [s|];
    cbn [fst snd]; [|discriminate].
  intros [= <-]. eexists. split; [apply list_lookup_middle; reflexivity|].
  split; [reflexivity|]. intros p y. cbn [np_map flat].
  rewrite !list_lookup_fmap.
  destruct (seq 0 (size s) !! p) as [q|]; [|discriminate].
  cbn [fmap option_fmap option_map]. intros [= <-].
  apply sqrt_nonneg, add_nonneg; apply get_map_square.
Qed.

Lemma fgradient_nonnegative_witness :
  snd (fgradient np_gradient_ex 0%nat [gradient_ex]) = Ok 1%nat /\
  exists grad,
    fst (fgradient np_gradient_ex 0%nat [gradient_ex]) !! 1%nat = Some grad /\
    forall p y, flat grad !! p = Some y -> nonneg_or_nan y.
Proof.
  split; [reflexivity|].
  destruct (fgradient_nonnegative np_gradient_ex [gradient_ex] 0%nat 1%nat
              eq_refl) as (grad & Hg & _ & Hp).
  exists grad. split; [exact Hg|exact Hp].
Defined.

(** X11. [fgradient] and [fmaskinterp] return a newly created array, never
    one of their arguments, and create nothing else; when they raise, no
    array has been created. [fmaskinterp] raises [IndexError] on an image
    of fewer than two dimensions, before the interpolation is called. *)
Theorem fgradient_fmaskinterp_fresh_result np_gradient griddata_cubic
    (h : heap) image mask img m :
  h !! image = Some img ->
  h !! mask = Some m ->
  (forall l, snd (fgradient np_gradient image h) = Ok l ->
     l = length h /\ l <> image /\
     exists grad, fst (fgradient np_gradient image h) = h ++ [grad]) /\
  (forall l, snd (fmaskinterp griddata_cubic image mask h) = Ok l ->
     l = length h /\ l <> image /\ l <> mask /\
     exists image_interp,
       griddata_cubic img m = Ok image_interp /\
       fst (fmaskinterp griddata_cubic image mask h) = h ++ [image_interp]) /\
  (forall e, snd (fgradient np_gradient image h) = Raise e ->
     fst (fgradient np_gradient image h) = h) /\
  (forall e, snd (fmaskinterp griddata_cubic image mask h) = Raise e ->
     fst (fmaskinterp griddata_cubic image mask h) = h) /\
  ((length (shape img) < 2)%nat ->
   fmaskinterp griddata_cubic image mask h = (h, Raise IndexError)).
Proof.
  intros Hi Hm.
  pose proof (lookup_lt_Some _ _ _ Hi) as Li.
  pose proof (lookup_lt_Some _ _ _ Hm) as Lm.
  assert (Hg : fgradient np_gradient image h
               = match np_gradient img with
                 | Ok g =>
                     match np_binop add (np_map (fun x => mul x x) (snd g))
                             (np_map (fun x => mul x x) (fst g)) with
                     | Ok sq => (h ++ [np_map sqrt sq], Ok (length h))
                     | Raise e => (h, Raise e)
                     end
                 | Raise e => (h, Raise e)
                 end).
  { unfold fgradient. erewrite bind_ok by (apply read_ok, Hi).
    unfold bind, lift, alloc. destruct (np_gradient img) as [g|e]; [|reflexivity].
    destruct (np_binop _ _ _); reflexivity. }
  assert (Hf : fmaskinterp griddata_cubic image mask h
               = match shape img with
                 | _ :: _ :: _ =>
                     match griddata_cubic img m with
                     | Ok r => (h ++ [r], Ok (length h))
                     | Raise e => (h, Raise e)
                     end
                 | _ => (h, Raise IndexError)
                 end).
  { unfold fmaskinterp. erewrite bind_ok by (apply read_ok, Hi).
    erewrite bind_ok by (apply read_ok, Hm).
    destruct (shape img) as [|? [|? ?]]; reflexivity. }
  rewrite Hg, Hf. repeat apply conj.
  - intros l. destruct (np_gradient img) as [g|e]; [|discriminate].
    destruct (np_binop _ _ _) as [sq|e]; [|discriminate].
    intros [= <-]. split; [reflexivity|]. split; [lia|]. eauto.
  - intros l. destruct (shape img) as [|? [|? ?]]; try discriminate.
    destruct (griddata_cubic img m) as [r|e]; [|discriminate].
    intros [= <-]. split; [reflexivity|]. split; [lia|]. split; [lia|]. eauto.
  - intros e. destruct (np_gradient img) as [g|e']; [|reflexivity].
    destruct (np_binop _ _ _) as [sq|e']; [discriminate|reflexivity].
  - intros e. destruct (shape img) as [|? [|? ?]]; try reflexivity.
    destruct (griddata_cubic img m) as [r|e']; [discriminate|reflexivity].
  - intros Hlen. destruct (shape img) as [|? [|? ?]]; try reflexivity.
    cbn in Hlen. lia.
Qed.

Lemma fgradient_fmaskinterp_fresh_result_witness :
  fmaskinterp griddata_ex 0%nat 0%nat [data_ex]
  = ([data_ex], Raise IndexError) /\
  snd (fgradient np_gradient_ex 0%nat [image_ex]) = Ok 1%nat.
Proof.
  destruct (fgradient_fmaskinterp_fresh_result np_gradient_ex griddata_ex
              [data_ex] 0%nat 0%nat data_ex data_ex eq_refl eq_refl)
    as (_ & _ & _ & _ & Hidx).
  destruct (fgradient_fmaskinterp_fresh_result np_gradient_ex griddata_ex
              [image_ex] 0%nat 0%nat image_ex image_ex eq_refl eq_refl)
    as (Hfresh & _).
  split.
  - apply Hidx. cbn. lia.
  - destruct (snd (fgradient np_gradient_ex 0%nat [image_ex])) as [l|e] eqn:E.
    + destruct (Hfresh l eq_refl) as [-> _]. reflexivity.
    + discriminate E.
Defined.

(** ** [fheader_3Dto2D] and [fcubeavg]: fixed points, files and edge cases *)

Section ReducedFacts.

Implicit Types (h : header) (k key : string) (ks : list string).

Lemma strip_keys_absent ks h :
  (forall k, k ∈ ks -> has_key (header_keys h) k = false) ->
  strip_keys ks h = h.
Proof.
  induction h as [|[k v] h IH]; intros H; [reflexivity|].
  rewrite strip_keys_cons. cbn [fst].
  destruct (has_key ks k) eqn:E.
  - apply has_key_elem in E. specialize (H k E).
    rewrite header_keys_cons, has_key_cons in H. cbn [fst] in H.
    rewrite String.eqb_refl in H. discriminate.
  - rewrite IH; [reflexivity|]. intros k' Hk'. specialize (H k' Hk').
    rewrite header_keys_cons, has_key_cons in H.
    apply orb_false_elim in H as [_ H]. exact H.
Qed.

Lemma header_keys_strip_keys ks h :
  header_keys (strip_keys ks h)
  = filter (fun k => negb (has_key ks k)) (header_keys h).
Proof.
  induction h as [|[k v] h IH]; [reflexivity|].
  rewrite strip_keys_cons, header_keys_cons, filter_cons. cbn [fst].
  destruct (has_key ks k); cbn [negb].
  - rewrite decide_False by (cbn; auto). exact IH.
  - rewrite decide_True by (cbn; auto). rewrite header_keys_cons, IH.
    reflexivity.
Qed.

Lemma reduced_fixed_point h :
  reduced h = h <->
  header_get h "NAXIS" = Ok (HInt 2) /\
  forall key, key ∈ keys_3D -> has_key (header_keys h) key = false.
Proof.
  split.
  - intros E. split.
    + rewrite <- E. apply reduced_NAXIS.
    + intros key Hk. rewrite <- E. unfold reduced.
      apply has_key_strip_keys, has_key_elem, Hk.
  - intros [Hn Hk]. unfold reduced. rewrite (header_set_same _ _ _ Hn).
    apply strip_keys_absent, Hk.
Qed.

End ReducedFacts.

(** X12. [fheader_3Dto2D] returns the header of the file unchanged exactly
    when that header already has NAXIS equal to 2 and none of the six
    axis-3 keywords. *)
Theorem fheader_3Dto2D_fixed_point written_header (f : fs)
    filedir_in filedir_out write x :
  f filedir_in = Some x ->
  snd (fheader_3Dto2D written_header filedir_in filedir_out write f)
  = Ok (hdu_header x)
  <->
  header_get (hdu_header x) "NAXIS" = Ok (HInt 2) /\
  forall key, key ∈ keys_3D -> has_key (header_keys (hdu_header x)) key = false.
Proof.
  intros Hf. rewrite (fheader_3Dto2D_run _ _ _ _ _ _ Hf). cbn [snd].
  rewrite <- reduced_fixed_point. split; [intros [= E]; exact E|].
  intros E. rewrite E. reflexivity.
Qed.

Lemma fheader_3Dto2D_fixed_point_witness :
  snd (fheader_3Dto2D written_header_ex "image.fits" "out.fits" false
         image_fs_ex)
  = Ok image_header_ex.
Proof.
  apply (fheader_3Dto2D_fixed_point written_header_ex image_fs_ex
           "image.fits" "out.fits" false
           (mk_hdu image_ex image_header_ex) eq_refl).
  split; [reflexivity|]. intros key Hk.
  destruct (has_key (header_keys (hdu_header (mk_hdu image_ex image_header_ex)))
              key) eqn:E; [|reflexivity].
  apply has_key_elem in E. exfalso. revert Hk.
  cbn in E. apply elem_of_cons in E as [->|E];
    [|apply elem_of_cons in E as [->|E]; [|apply not_elem_of_nil in E; tauto]].
  - apply (bool_decide_unpack _). vm_compute. exact I.
  - apply (bool_decide_unpack _). vm_compute. exact I.
Defined.

(** X13. [fheader_3Dto2D] keeps the cards in their order: for a header
    with a NAXIS card, the keywords of the result are the keywords of the
    input without the six axis-3 keywords, in the same order. *)
Theorem fheader_3Dto2D_keeps_order written_header (f : fs)
    filedir_in filedir_out write x :
  f filedir_in = Some x ->
  has_key (header_keys (hdu_header x)) "NAXIS" = true ->
  exists hdr2,
    snd (fheader_3Dto2D written_header filedir_in filedir_out write f)
    = Ok hdr2 /\
    header_keys hdr2
    = filter (fun k => negb (has_key keys_3D k)) (header_keys (hdu_header x)).
Proof.
  intros Hf Hn. rewrite (fheader_3Dto2D_run _ _ _ _ _ _ Hf). cbn [snd].
  eexists. split; [reflexivity|]. unfold reduced, header_set. rewrite Hn.
  rewrite header_keys_strip_keys, header_keys_update_first. reflexivity.
Qed.

Lemma fheader_3Dto2D_keeps_order_witness :
  exists hdr2,
    snd (fheader_3Dto2D written_header_ex "cube.fits" "image.fits" false
           fs_ex) = Ok hdr2 /\
    header_keys hdr2 = ["NAXIS"; "CUNIT3"].
Proof.
  destruct (fheader_3Dto2D_keeps_order written_header_ex fs_ex "cube.fits"
              "image.fits" false cube_ex eq_refl eq_refl)
    as (hdr2 & H1 & H2).
  exists hdr2. split; [exact H1|]. rewrite H2. reflexivity.
Defined.

(** X14. The files of [fheader_3Dto2D]: a missing input file gives
    [IOError] and nothing is written, whatever [write] is; with
    [write=False] no file changes; with [write=True] only the file at
    [filedir_out] changes, and its data is the data of the input, all its
    planes included. *)
Theorem fheader_3Dto2D_files written_header (f : fs)
    filedir_in filedir_out :
  (f filedir_in = None ->
   forall write,
     fheader_3Dto2D written_header filedir_in filedir_out write f
     = (f, Raise IOError)) /\
  (forall x, f filedir_in = Some x ->
     fst (fheader_3Dto2D written_header filedir_in filedir_out false f) = f /\
     (forall p, p <> filedir_out ->
        fst (fheader_3Dto2D written_header filedir_in filedir_out true f) p
        = f p) /\
     hdu_data <$> fst (fheader_3Dto2D written_header filedir_in filedir_out
                         true f) filedir_out
     = Some (hdu_data x)).
Proof.
  split.
  - intros Hf write. unfold fheader_3Dto2D, bind, getdata. rewrite Hf.
    reflexivity.
  - intros x Hf. rewrite !(fheader_3Dto2D_run _ _ _ _ _ _ Hf). cbn [fst].
    split; [reflexivity|]. split.
    + intros p Hp. rewrite (proj2 (String.eqb_neq _ _) Hp). reflexivity.
    + rewrite String.eqb_refl. reflexivity.
Qed.

Lemma fheader_3Dto2D_files_witness :
  fheader_3Dto2D written_header_ex "none.fits" "out.fits" true image_fs_ex
  = (image_fs_ex, Raise IOError) /\
  hdu_data <$> fst (fheader_3Dto2D written_header_ex "image.fits" "out.fits"
                      true image_fs_ex) "out.fits"
  = Some image_ex.
Proof.
  destruct (fheader_3Dto2D_files written_header_ex image_fs_ex "none.fits"
              "out.fits") as [Hnone _].
  destruct (fheader_3Dto2D_files written_header_ex image_fs_ex "image.fits"
              "out.fits") as [_ Hsome].
  split; [apply Hnone; reflexivity|].
  apply (Hsome (mk_hdu image_ex image_header_ex) eq_refl).
Defined.

Section PlaneFacts.

Lemma is_sum_singleton L t :
  is_sum L t ->
  (L = [] -> exists s, t = S754_zero s) /\
  (forall x, L = [x] -> same_value t x).
Proof.
  induction 1 as [s|x|L l1 l2 x y _ [IH1 IH1'] _ [IH2 IH2'] HL].
  - split; [eauto|discriminate].
  - split; [discriminate|]. intros y [= ->]. apply same_value_refl.
  - split.
    + intros ->. apply Permutation_nil_l in HL. symmetry in HL.
      apply app_eq_nil in HL as [-> ->].
      destruct (IH1 eq_refl) as [s ->], (IH2 eq_refl) as [u ->].
      destruct s, u; eexists; reflexivity.
    + intros z ->. apply Permutation_singleton_l in HL. symmetry in HL.
      apply app_eq_unit in HL as [[-> ->]|[-> ->]].
      * destruct (IH1 eq_refl) as [s ->].
        eapply same_value_trans; [apply add_zero_any_l|apply IH2'].
        reflexivity.
      * destruct (IH2 eq_refl) as [s ->].
        eapply same_value_trans; [apply add_zero_any_r|apply IH1'].
        reflexivity.
Qed.

End PlaneFacts.

(** X15. The average of a cube of one plane is that plane: for well-formed
    data of shape (1, ...), [fcubeavg] returns an image of the remaining
    shape whose samples equal those of the plane, up to the sign of a
    zero; a NaN sample stays NaN. *)
Theorem fcubeavg_single_plane written_header np_sum_axis0 (f : fs)
    filedir_in filedir_out write x s :
  sums_along_axis0 np_sum_axis0 ->
  f filedir_in = Some x ->
  shape (hdu_data x) = 1%nat :: s ->
  valid_array (hdu_data x) ->
  exists avg hdr2,
    snd (fcubeavg written_header np_sum_axis0 filedir_in filedir_out write f)
    = Ok (avg, hdr2) /\
    shape avg = s /\
    Forall2 same_value (flat avg) (flat (hdu_data x)).
Proof.
  intros Hsum Hf Hs [Hwf Hv].
  assert (Hlen : length (flat (hdu_data x)) = size s).
  { rewrite Hwf, Hs, size_cons. lia. }
  eexists _, _. split.
  { apply (fcubeavg_run _ _ _ _ _ _ _ _ Hf). unfold np_nanmean_axis0.
    rewrite Hs. reflexivity. }
  split; [reflexivity|]. cbn [flat].
  apply Forall2_same_length_lookup_2;
    [rewrite length_map, length_seq; symmetry; exact Hlen|].
  intros p a v Ha Hv0. pose proof (lookup_lt_Some _ _ _ Hv0) as Hp.
  rewrite Hlen in Hp.
  rewrite list_lookup_fmap, lookup_seq_lt in Ha by exact Hp.
  cbn in Ha. injection Ha as <-.
  assert (Hsam : axis0_samples (hdu_data x) p = [v]).
  { unfold axis0_samples. rewrite Hs. cbn [seq map Nat.mul Nat.add].
    rewrite nth_lookup, Hv0. reflexivity. }
  pose proof (Hsum (nan_to_zero (hdu_data x)) 1%nat s p Hs Hp) as Htot.
  rewrite (axis0_samples_nan_to_zero _ 1%nat s p Hwf Hs Hp), Hsam in Htot.
  cbn [map] in Htot. apply is_sum_singleton in Htot as [_ Htot].
  specialize (Htot _ eq_refl). rewrite Hsam. unfold count_valid.
  rewrite filter_cons, filter_nil.
  pose proof (proj1 (Forall_lookup _ _) Hv p v Hv0) as Hval.
  destruct (is_nan v) eqn:En.
  - rewrite decide_False by (cbn; auto). destruct v; try discriminate.
    destruct Htot as [->|(s1 & s2 & -> & _)]; [left; reflexivity|].
    left. destruct s1; reflexivity.
  - rewrite decide_True by (cbn; auto).
    eapply same_value_trans; [apply div_same_value, Htot|].
    left. apply (div_one _ Hval).
Qed.

Lemma fcubeavg_single_plane_witness :
  exists avg hdr2,
    snd (fcubeavg written_header_ex np_sum_axis0_ex "cube.fits" "avg.fits"
           false plane_fs_ex) = Ok (avg, hdr2) /\
    shape avg = [1; 2]%nat /\
    Forall2 same_value (flat avg) [of_Z 1; nan].
Proof.
  apply (fcubeavg_single_plane written_header_ex np_sum_axis0_ex plane_fs_ex
           "cube.fits" "avg.fits" false plane_cube_ex [1; 2]%nat
           np_sum_axis0_ex_sums eq_refl eq_refl).
  split; [reflexivity|]. repeat constructor.
Defined.

(** X16. [fcubeavg] fails only when the file cannot be read. A missing file
    gives [IOError], and nothing is written even when [write=True]; for a
    file that holds a cube of at least one plane the call without [write]
    returns, whatever the samples are (NaN and infinite samples included),
    an image of the shape of one plane, and changes no file. *)
Theorem fcubeavg_edge_cases written_header np_sum_axis0 (f : fs)
    filedir_in filedir_out :
  (f filedir_in = None ->
   forall write,
     fcubeavg written_header np_sum_axis0 filedir_in filedir_out write f
     = (f, Raise IOError)) /\
  (forall x n s, f filedir_in = Some x -> shape (hdu_data x) = S n :: s ->
     exists avg hdr2,
       fcubeavg written_header np_sum_axis0 filedir_in filedir_out false f
       = (f, Ok (avg, hdr2)) /\
       shape avg = s /\ length (flat avg) = size s).
Proof.
  split.
  - intros Hf write. unfold fcubeavg, bind, getdata. rewrite Hf. reflexivity.
  - intros x n s Hf Hs. eexists _, _. split; [|split].
    + unfold fcubeavg, bind, getdata, lift, np_nanmean_axis0.
      rewrite Hf, Hs. rewrite (fheader_3Dto2D_run _ _ _ _ _ _ Hf).
      reflexivity.
    + reflexivity.
    + cbn [flat]. rewrite length_map, length_seq. reflexivity.
Qed.

Lemma fcubeavg_edge_cases_witness :
  fcubeavg written_header_ex np_sum_axis0_ex "none.fits" "avg.fits" true
    plane_fs_ex
  = (plane_fs_ex, Raise IOError) /\
  exists avg hdr2,
    fcubeavg written_header_ex np_sum_axis0_ex "cube.fits" "avg.fits" false
      plane_fs_ex = (plane_fs_ex, Ok (avg, hdr2)) /\
    shape avg = [1; 2]%nat /\ length (flat avg) = 2%nat.
Proof.
  destruct (fcubeavg_edge_cases written_header_ex np_sum_axis0_ex plane_fs_ex
              "none.fits" "avg.fits") as [Hnone _].
  destruct (fcubeavg_edge_cases written_header_ex np_sum_axis0_ex plane_fs_ex
              "cube.fits" "avg.fits") as [_ Hsome].
  split; [apply Hnone; reflexivity|].
  apply (Hsome plane_cube_ex 0%nat [1; 2]%nat eq_refl eq_refl).
Defined.

(** X17. [fcubeavg] returns the header that [fheader_3Dto2D] returns for
    the same file, whatever [write] is; it writes nothing with
    [write=False], not even at the path "." that it passes on; with
    [write=True] only the file at [filedir_out] changes and its data is the
    average. *)
Theorem fcubeavg_files written_header np_sum_axis0 (f : fs)
    filedir_in filedir_out x avg :
  f filedir_in = Some x ->
  np_nanmean_axis0 np_sum_axis0 (hdu_data x) = Ok avg ->
  shape avg <> [] ->
  exists hdr2,
    (forall write,
       snd (fcubeavg written_header np_sum_axis0 filedir_in filedir_out
              write f) = Ok (avg, hdr2)) /\
    (forall out' write',
       snd (fheader_3Dto2D written_header filedir_in out' write' f)
       = Ok hdr2) /\
    fst (fcubeavg written_header np_sum_axis0 filedir_in filedir_out false f)
    = f /\
    (forall p, p <> filedir_out ->
       fst (fcubeavg written_header np_sum_axis0 filedir_in filedir_out true
              f) p = f p) /\
    hdu_data <$> fst (fcubeavg written_header np_sum_axis0 filedir_in
                        filedir_out true f) filedir_out
    = Some avg.
Proof.
  intros Hf Havg _. exists (reduced (hdu_header x)).
  split; [intros write; apply (fcubeavg_run _ _ _ _ _ _ _ _ Hf Havg)|].
  split.
  { intros out' write'. rewrite (fheader_3Dto2D_run _ _ _ _ _ _ Hf).
    reflexivity. }
  unfold fcubeavg, bind, getdata, lift. rewrite Hf, Havg.
  rewrite (fheader_3Dto2D_run _ _ _ _ _ _ Hf). cbn [fst snd writeto ret].
  split; [reflexivity|]. split.
  - intros p Hp. rewrite (proj2 (String.eqb_neq _ _) Hp). reflexivity.
  - rewrite String.eqb_refl. reflexivity.
Qed.

Lemma fcubeavg_files_witness :
  hdu_data <$> fst (fcubeavg written_header_ex np_sum_axis0_ex "cube.fits"
                      "avg.fits" true nan_fs_ex) "avg.fits"
  = Some (mk_ndarray [1; 1]%nat [of_Z 2]) /\
  fst (fcubeavg written_header_ex np_sum_axis0_ex "cube.fits" "avg.fits"
         false nan_fs_ex) = nan_fs_ex.
Proof.
  destruct (fcubeavg_files written_header_ex np_sum_axis0_ex nan_fs_ex
              "cube.fits" "avg.fits" nan_cube_ex
              (mk_ndarray [1; 1]%nat [of_Z 2]) eq_refl eq_refl
              ltac:(discriminate))
    as (hdr2 & _ & _ & Hno & _ & Hout).
  split; [exact Hout|exact Hno].
Defined.

(** ** [ffreqaxis]: type of the axis and integer arithmetic *)

Section Int64Facts.

Lemma wrap64_mod z : wrap64 z mod 2 ^ 64 = z mod 2 ^ 64.
Proof.
  unfold wrap64. rewrite Zminus_mod_idemp_l. f_equal. lia.
Qed.

Lemma wrap64_eq a b : a mod 2 ^ 64 = b mod 2 ^ 64 -> wrap64 a = wrap64 b.
Proof.
  intros H. unfold wrap64. f_equal.
  rewrite (Zplus_mod a), (Zplus_mod b), H. reflexivity.
Qed.

Lemma wrap64_sub_l x b : wrap64 (wrap64 x - b) = wrap64 (x - b).
Proof.
  apply wrap64_eq. rewrite (Zminus_mod (wrap64 x)), wrap64_mod.
  rewrite <- Zminus_mod. reflexivity.
Qed.

Lemma wrap64_mul_l x c : wrap64 (wrap64 x * c) = wrap64 (x * c).
Proof.
  apply wrap64_eq. rewrite (Zmult_mod (wrap64 x)), wrap64_mod.
  rewrite <- Zmult_mod. reflexivity.
Qed.

Lemma wrap64_add_r a x : wrap64 (a + wrap64 x) = wrap64 (a + x).
Proof.
  apply wrap64_eq. rewrite (Zplus_mod a (wrap64 x)), wrap64_mod.
  rewrite <- Zplus_mod. reflexivity.
Qed.

Lemma np_arange_int z :
  z < 2 ^ 63 ->
  exists px,
    (r <~ np_arange (HInt z) ;; arr_op Z.add add r (HInt 1)) = Ok (Int64s px)
    /\ length px = Z.to_nat z
    /\ forall i, (i < Z.to_nat z)%nat -> px !! i = Some (Z.of_nat i + 1).
Proof.
  intros Hz. cbn [np_arange rbind].
  destruct (np_arange_plus_one (Z.to_nat z) ltac:(lia)) as (px & Hpx & Hl & Hg).
  rewrite Hpx. destruct px as [l|l].
  - exists l. split; [reflexivity|]. split; [exact Hl|].
    intros i Hi. specialize (Hg i Hi). cbn [np1d_get] in Hg.
    destruct (l !! i); cbn in Hg; congruence.
  - exfalso. cbn [arr_op] in Hpx. change (in_int64 1) with true in Hpx.
    discriminate.
Qed.

End Int64Facts.

(** X18. The type and the length of the axis of [ffreqaxis]: for number
    cards and an integer NAXIS3, the axis has max(NAXIS3, 0) samples (a
    negative NAXIS3 gives an empty axis, not an error) and its samples are
    [int64] exactly when CRVAL3, CRPIX3 and CDELT3 are all integers,
    [float64] otherwise. *)
Theorem ffreqaxis_dtype (f : fs) file x crval crpix cdelt z :
  f file = Some x ->
  header_get (hdu_header x) "CRVAL3" = Ok crval ->
  header_get (hdu_header x) "CRPIX3" = Ok crpix ->
  header_get (hdu_header x) "CDELT3" = Ok cdelt ->
  header_get (hdu_header x) "NAXIS3" = Ok (HInt z) ->
  valid_number crval -> valid_number crpix -> valid_number cdelt ->
  z < 2 ^ 63 ->
  exists axis,
    snd (ffreqaxis file f) = Ok axis /\
    np1d_length axis = Z.to_nat z /\
    is_int64s axis = is_py_int crval && is_py_int crpix && is_py_int cdelt.
Proof.
  intros Hf H1 H2 H3 H4 Hcv Hcp Hcd Hz.
  rewrite (ffreqaxis_run _ _ _ _ _ _ _ Hf H1 H2 H3 H4).
  destruct (np_arange_int z Hz) as (px & Hpx & Hl & _).
  cbn [rbind] in Hpx.
  destruct (np_arange (HInt z)) as [r|e]; cbn [rbind] in *; [|discriminate].
  rewrite Hpx. cbn [rbind]. unfold op_arr.
  destruct crpix as [b|b|s], cdelt as [c|c|s'], crval as [a|a|s''];
    cbn [valid_number] in *; try contradiction;
    cbn [arr_op py_float rbind is_py_int andb];
    rewrite ?Hcp, ?Hcd, ?Hcv, ?(of_Z_finite _ Hcp), ?(of_Z_finite _ Hcd),
      ?(of_Z_finite _ Hcv);
    cbn [arr_op py_float rbind];
    rewrite ?Hcp, ?Hcd, ?Hcv, ?(of_Z_finite _ Hcp), ?(of_Z_finite _ Hcd),
      ?(of_Z_finite _ Hcv);
    cbn [arr_op py_float rbind];
    rewrite ?Hcp, ?Hcd, ?Hcv, ?(of_Z_finite _ Hcp), ?(of_Z_finite _ Hcd),
      ?(of_Z_finite _ Hcv);
    cbn [arr_op py_float rbind];
    (eexists; split; [reflexivity|]; split; [|reflexivity]);
    cbn [np1d_length]; rewrite !length_map; exact Hl.
Qed.

Lemma ffreqaxis_dtype_witness :
  exists axis,
    snd (ffreqaxis "cube.fits" axis_fs_ex) = Ok axis /\
    np1d_length axis = 2%nat /\
    is_int64s axis = false.
Proof.
  apply (ffreqaxis_dtype axis_fs_ex "cube.fits"
           (mk_hdu (mk_ndarray [2; 1; 1]%nat [one; one]) axis_header_ex)
           (HFloat (of_Z 10)) (HFloat (of_Z 1)) (HInt 2) 2
           eq_refl eq_refl eq_refl eq_refl eq_refl
           eq_refl eq_refl eq_refl eq_refl).
Defined.

(** X19. [ffreqaxis] raises [TypeError], and leaves the files as they are,
    when one of the cards CRVAL3, CRPIX3, CDELT3 holds a string (the others
    being numbers or strings). *)
Theorem ffreqaxis_string_card (f : fs) file x crval crpix cdelt z :
  f file = Some x ->
  header_get (hdu_header x) "CRVAL3" = Ok crval ->
  header_get (hdu_header x) "CRPIX3" = Ok crpix ->
  header_get (hdu_header x) "CDELT3" = Ok cdelt ->
  header_get (hdu_header x) "NAXIS3" = Ok (HInt z) ->
  number_or_str crval -> number_or_str crpix -> number_or_str cdelt ->
  is_py_str crval || is_py_str crpix || is_py_str cdelt = true ->
  ffreqaxis file f = (f, Raise TypeError).
Proof.
  intros Hf H1 H2 H3 H4 Hcv Hcp Hcd Hstr.
  pose proof (ffreqaxis_run _ _ _ _ _ _ _ Hf H1 H2 H3 H4) as Hrun.
  assert (Hfst : fst (ffreqaxis file f) = f).
  { unfold ffreqaxis, getheader, getdata, bind, ret, lift. rewrite Hf.
    reflexivity. }
  rewrite (surjective_pairing (ffreqaxis file f)), Hfst, Hrun. f_equal.
  cbn [np_arange rbind arr_op]. change (in_int64 1) with true. cbv iota.
  cbn [rbind]. unfold op_arr.
  destruct crpix as [b|b|s], cdelt as [c|c|s'], crval as [a|a|s''];
    cbn [number_or_str valid_number is_py_str orb] in *; try discriminate;
    cbn [arr_op py_float rbind];
    rewrite ?Hcp, ?Hcd, ?Hcv, ?(of_Z_finite _ Hcp), ?(of_Z_finite _ Hcd),
      ?(of_Z_finite _ Hcv);
    cbn [arr_op py_float rbind];
    rewrite ?Hcp, ?Hcd, ?Hcv, ?(of_Z_finite _ Hcp), ?(of_Z_finite _ Hcd),
      ?(of_Z_finite _ Hcv);
    cbn [arr_op py_float rbind];
    rewrite ?Hcp, ?Hcd, ?Hcv, ?(of_Z_finite _ Hcp), ?(of_Z_finite _ Hcd),
      ?(of_Z_finite _ Hcv);
    reflexivity.
Qed.

Lemma ffreqaxis_string_card_witness :
  ffreqaxis "cube.fits" str_axis_fs_ex = (str_axis_fs_ex, Raise TypeError).
Proof.
  apply (ffreqaxis_string_card str_axis_fs_ex "cube.fits"
           (mk_hdu (mk_ndarray [3; 1; 1]%nat [one; one; one])
              str_axis_header_ex)
           (HInt 100) (HStr "2") (HInt (-5)) 3
           eq_refl eq_refl eq_refl eq_refl eq_refl
           eq_refl I eq_refl eq_refl).
Defined.

(** X20. With integer cards the axis of [ffreqaxis] is computed in [int64]:
    its sample i is CRVAL3 + ((i+1) - CRPIX3) * CDELT3 wrapped around to 64
    bits, which agrees with the exact integer modulo 2^64 and is the exact
    integer whenever that fits in [int64]. *)
Theorem ffreqaxis_int64_exact (f : fs) file x a b c z :
  f file = Some x ->
  header_get (hdu_header x) "CRVAL3" = Ok (HInt a) ->
  header_get (hdu_header x) "CRPIX3" = Ok (HInt b) ->
  header_get (hdu_header x) "CDELT3" = Ok (HInt c) ->
  header_get (hdu_header x) "NAXIS3" = Ok (HInt z) ->
  in_int64 a = true -> in_int64 b = true -> in_int64 c = true ->
  z < 2 ^ 63 ->
  exists l,
    snd (ffreqaxis file f) = Ok (Int64s l) /\
    length l = Z.to_nat z /\
    forall i, (i < Z.to_nat z)%nat ->
      let v := a + (Z.of_nat i + 1 - b) * c in
      l !! i = Some (wrap64 v) /\
      wrap64 v mod 2 ^ 64 = v mod 2 ^ 64 /\
      (in_int64 v = true -> l !! i = Some v).
Proof.
  intros Hf H1 H2 H3 H4 Ha Hb Hc Hz.
  rewrite (ffreqaxis_run _ _ _ _ _ _ _ Hf H1 H2 H3 H4).
  destruct (np_arange_int z Hz) as (px & Hpx & Hl & Hg).
  cbn [rbind] in Hpx.
  destruct (np_arange (HInt z)) as [r|e]; cbn [rbind] in *; [|discriminate].
  rewrite Hpx. cbn [rbind]. unfold op_arr. cbn [arr_op].
  rewrite Hb. cbn [rbind arr_op]. rewrite Hc. cbn [rbind arr_op]. rewrite Ha.
  eexists. split; [reflexivity|]. rewrite !length_map.
  split; [exact Hl|]. intros i Hi.
  set (v := a + (Z.of_nat i + 1 - b) * c).
  assert (Hv : map (fun x0 => wrap64 (a + x0))
                 (map (fun x0 => wrap64 (x0 * c))
                    (map (fun x0 => wrap64 (x0 - b)) px)) !! i
               = Some (wrap64 v)).
  { rewrite !list_lookup_fmap, (Hg i Hi). cbn [fmap option_fmap option_map].
    rewrite wrap64_mul_l, wrap64_add_r. reflexivity. }
  split; [exact Hv|]. split; [apply wrap64_mod|].
  intros Hin. rewrite Hv, (wrap64_small _ Hin). reflexivity.
Qed.

Lemma ffreqaxis_int64_exact_witness :
  exists l,
    snd (ffreqaxis "cube.fits" int_axis_fs_ex) = Ok (Int64s l) /\
    l !! 0%nat = Some 105 /\ l !! 2%nat = Some 95.
Proof.
  destruct (ffreqaxis_int64_exact int_axis_fs_ex "cube.fits"
              (mk_hdu (mk_ndarray [3; 1; 1]%nat [one; one; one])
                 int_axis_header_ex)
              100 2 (-5) 3
              eq_refl eq_refl eq_refl eq_refl eq_refl
              eq_refl eq_refl eq_refl eq_refl) as (l & Hrun & _ & Hi).
  exists l. split; [exact Hrun|]. split.
  - destruct (Hi 0%nat ltac:(cbn; lia)) as (_ & _ & H). apply H. reflexivity.
  - destruct (Hi 2%nat ltac:(cbn; lia)) as (_ & _ & H). apply H. reflexivity.
Defined.

(** ** [fhighlatmask] *)

Section Ordering.

Lemma ltb_abs_positive b t : ltb (np_abs b) t = true -> ltb zero t = true.
Proof.
  destruct b as [s|s| |s m e], t as [u|u| |u n f]; cbn;
    try discriminate; try (destruct u; cbn; congruence).
Qed.

Lemma np_abs_negative b : np_abs (np_negative b) = np_abs b.
Proof. destruct b; reflexivity. Qed.

Lemma SFcompare_Lt_trans x y z :
  SFcompare x y = Some Lt ->
  (SFcompare y z = Some Lt \/ SFcompare y z = Some Eq) ->
  SFcompare x z = Some Lt.
Proof.
  destruct x as [s|s| |s m e], y as [t|t| |t n f], z as [u|u| |u p g];
    cbn [SFcompare]; try discriminate; try (intros _ [H|H]; discriminate);
    try (destruct s; (discriminate || (intros _ _; reflexivity)));
    try (destruct s, t, u; intros H1 [H2|H2];
         (discriminate || reflexivity)).
  all: try (destruct s, t; intros H1 [H2|H2]; (discriminate || reflexivity)).
  all: try (destruct t, u; intros H1 [H2|H2]; (discriminate || reflexivity)).
  all: try (destruct s, u; intros H1 [H2|H2]; (discriminate || reflexivity)).
  all: try (destruct s, t; intros H1 [H2|H2]; try discriminate;
            try reflexivity;
            destruct (e ?= f)%Z; discriminate).
  all: try (destruct t, u; intros H1 [H2|H2]; try discriminate;
            try reflexivity;
            destruct (f ?= g)%Z; discriminate).
  intros H1 H2.
  assert (Hlex : forall (a b : Z) (i j : positive),
            match (a ?= b)%Z with
            | Eq => Pos.compare_cont Eq i j | Lt => Lt | Gt => Gt end = Lt
            <-> (a < b \/ (a = b /\ (i < j)%positive))).
  { intros a b i j. destruct (Z.compare_spec a b) as [->|Hlt|Hgt].
    - change (Pos.compare_cont Eq i j) with (i ?= j)%positive.
      rewrite Pos.compare_lt_iff. intuition lia.
    - intuition lia.
    - split; [discriminate|]. intros [H|[H _]]; lia. }
  assert (Hlexeq : forall (a b : Z) (i j : positive),
            match (a ?= b)%Z with
            | Eq => Pos.compare_cont Eq i j | Lt => Lt | Gt => Gt end = Eq
            <-> (a = b /\ i = j)).
  { intros a b i j. destruct (Z.compare_spec a b) as [->|Hlt|Hgt].
    - change (Pos.compare_cont Eq i j) with (i ?= j)%positive.
      rewrite Pos.compare_eq_iff. intuition lia.
    - split; [discriminate|]. intros [H _]; lia.
    - split; [discriminate|]. intros [H _]; lia. }
  assert (Hlexgt : forall (a b : Z) (i j : positive),
            match (a ?= b)%Z with
            | Eq => CompOpp (Pos.compare_cont Eq i j) | Lt => Gt | Gt => Lt
            end = Lt
            <-> (b < a \/ (a = b /\ (j < i)%positive))).
  { intros a b i j. destruct (Z.compare_spec a b) as [->|Hlt|Hgt].
    - change (Pos.compare_cont Eq i j) with (i ?= j)%positive.
      destruct (Pos.compare_spec i j); cbn [CompOpp];
        split; try discriminate; try reflexivity; intuition lia.
    - split; [discriminate|]. intros [H|[H _]]; lia.
    - intuition lia. }
  assert (Hlexgteq : forall (a b : Z) (i j : positive),
            match (a ?= b)%Z with
            | Eq => CompOpp (Pos.compare_cont Eq i j) | Lt => Gt | Gt => Lt
            end = Eq
            <-> (a = b /\ i = j)).
  { intros a b i j. destruct (Z.compare_spec a b) as [->|Hlt|Hgt].
    - change (Pos.compare_cont Eq i j) with (i ?= j)%positive.
      destruct (Pos.compare_spec i j); cbn [CompOpp];
        split; try discriminate; try reflexivity; intuition lia.
    - split; [discriminate|]. intros [H _]; lia.
    - split; [discriminate|]. intros [H _]; lia. }
  destruct s, t, u; try discriminate; try reflexivity;
    try (destruct H2; discriminate);
    injection H1 as H1; f_equal;
    destruct H2 as [H2|H2]; injection H2 as H2;
    rewrite ?Hlex, ?Hlexeq, ?Hlexgt, ?Hlexgteq in *; lia.
Qed.

Lemma ltb_leb_trans x y z :
  ltb x y = true -> SFleb y z = true -> ltb x z = true.
Proof.
  unfold ltb, SFltb, SFleb. intros H1 H2.
  rewrite (SFcompare_Lt_trans x y z); [reflexivity| |].
  - destruct (SFcompare x y) as [[| |]|]; try discriminate. reflexivity.
  - destruct (SFcompare y z) as [[| |]|]; try discriminate; auto.
Qed.

End Ordering.

Section HighLatitude.

Lemma zip_with_replicate_l {A B C} (g : A -> B -> C) (a : A) (l : list B) n :
  n = length l ->
  zip_with g (replicate n a) l = map (g a) l.
Proof.
  intros ->. induction l as [|y l IH]; [reflexivity|].
  cbn [length replicate zip_with map]. rewrite IH. reflexivity.
Qed.

Lemma fhighlatmask_eq lb blim :
  wf_array (b_deg lb) ->
  fhighlatmask lb blim = np_map (highlat_sample blim) (b_deg lb).
Proof.
  intros Hwf. unfold fhighlatmask, setitem_mask, np_ones, np_map.
  cbn [shape flat]. f_equal.
  rewrite zip_with_replicate_l by (rewrite length_map; symmetry; exact Hwf).
  rewrite map_map. reflexivity.
Qed.

Lemma highlat_sample_nonpositive blim b :
  ltb zero blim = false -> highlat_sample blim b = one.
Proof.
  intros H. unfold highlat_sample.
  destruct (ltb (np_abs b) blim) eqn:E; [|reflexivity].
  rewrite (ltb_abs_positive _ _ E) in H. discriminate.
Qed.

End HighLatitude.

(** X21. The mask of [fhighlatmask] has the shape of the latitude grid; its
    sample is NaN where |b| < blim and 1.0 elsewhere; a NaN latitude is not
    masked; and the mask is the same for the grid of the opposite
    latitudes (and does not depend on the longitudes). *)
Theorem fhighlatmask_samples lb blim :
  wf_array (b_deg lb) ->
  shape (fhighlatmask lb blim) = shape (b_deg lb) /\
  (forall p b, flat (b_deg lb) !! p = Some b ->
     flat (fhighlatmask lb blim) !! p
     = Some (if ltb (np_abs b) blim then nan else one) /\
     (is_nan b = true -> flat (fhighlatmask lb blim) !! p = Some one)) /\
  (forall lb', b_deg lb' = np_map np_negative (b_deg lb) ->
     fhighlatmask lb' blim = fhighlatmask lb blim).
Proof.
  intros Hwf. rewrite (fhighlatmask_eq _ _ Hwf).
  split; [reflexivity|]. split.
  - intros p b Hb.
    pose proof (np_map_lookup (highlat_sample blim) _ _ _ Hb) as Hm.
    split; [exact Hm|]. intros Hn. rewrite Hm.
    destruct b; try discriminate. reflexivity.
  - intros lb' Hlb'. rewrite fhighlatmask_eq
      by (rewrite Hlb'; unfold wf_array, np_map; cbn [shape flat];
          rewrite length_map; exact Hwf).
    rewrite Hlb'. unfold np_map. cbn [shape flat]. f_equal.
    rewrite map_map. apply map_ext. intros b. unfold highlat_sample.
    rewrite np_abs_negative. reflexivity.
Qed.

Lemma fhighlatmask_samples_witness :
  fhighlatmask lb_ex (of_Z 20) = mk_ndarray [2; 2]%nat [nan; one; one; one] /\
  flat (fhighlatmask lb_ex (of_Z 20)) !! 2%nat = Some one.
Proof.
  destruct (fhighlatmask_samples lb_ex (of_Z 20) eq_refl) as (Hs & Hp & _).
  split; [reflexivity|]. apply (Hp 2%nat nan); reflexivity.
Defined.

(** X22. A limit that is not positive (zero, negative or NaN) masks
    nothing: [fhighlatmask] returns an array of ones. *)
Theorem fhighlatmask_nonpositive_limit lb blim :
  wf_array (b_deg lb) ->
  ltb zero blim = false ->
  fhighlatmask lb blim = np_ones (shape (b_deg lb)).
Proof.
  intros Hwf Hb. rewrite (fhighlatmask_eq _ _ Hwf).
  unfold np_map, np_ones. f_equal. rewrite <- Hwf.
  induction (flat (b_deg lb)) as [|b l IH]; [reflexivity|].
  cbn [map length replicate].
  rewrite IH, (highlat_sample_nonpositive _ _ Hb). reflexivity.
Qed.

Lemma fhighlatmask_nonpositive_limit_witness :
  fhighlatmask lb_ex (of_Z (-20)) = np_ones [2; 2]%nat /\
  fhighlatmask lb_ex nan = np_ones [2; 2]%nat.
Proof.
  split.
  - apply (fhighlatmask_nonpositive_limit lb_ex (of_Z (-20)));
      reflexivity.
  - apply (fhighlatmask_nonpositive_limit lb_ex nan); reflexivity.
Defined.

(** X23. [fhighlatmask] is monotone in the limit: a pixel masked with a
    limit is masked with every larger limit. *)
Theorem fhighlatmask_monotone lb blim1 blim2 :
  wf_array (b_deg lb) ->
  SFleb blim1 blim2 = true ->
  forall p,
    flat (fhighlatmask lb blim1) !! p = Some nan ->
    flat (fhighlatmask lb blim2) !! p = Some nan.
Proof.
  intros Hwf Hle p. rewrite !(fhighlatmask_eq _ _ Hwf).
  unfold np_map. cbn [flat]. rewrite !list_lookup_fmap.
  destruct (flat (b_deg lb) !! p) as [b|]; [|discriminate].
  cbn [fmap option_fmap option_map]. unfold highlat_sample.
  destruct (ltb (np_abs b) blim1) eqn:E; [|discriminate].
  rewrite (ltb_leb_trans _ _ _ E Hle). reflexivity.
Qed.

Lemma fhighlatmask_monotone_witness :
  flat (fhighlatmask lb_ex (of_Z 40)) !! 0%nat = Some nan.
Proof.
  apply (fhighlatmask_monotone lb_ex (of_Z 20) (of_Z 40));
    reflexivity.
Defined.

(** ** The [fcoordgrid] functions and [fmask2DEQhighlat] *)

Section GridFacts.

Lemma np_meshgrid_spec (x y : list float) :
  let g := np_meshgrid x y in
  shape (fst g) = [length y; length x] /\
  shape (snd g) = [length y; length x] /\
  wf_array (fst g) /\ wf_array (snd g) /\
  forall j i, (j < length y)%nat -> (i < length x)%nat ->
    get (fst g) [j; i] = nth i x nan /\
    get (snd g) [j; i] = nth j y nan.
Proof.
  assert (Hx : Forall (fun r : list float => length r = length x)
                 (map (fun _ : float => x) y)).
  { apply Forall_forall. intros r Hr. apply list_elem_of_fmap in Hr.
    destruct Hr as (v & -> & _). reflexivity. }
  assert (Hy : Forall (fun r : list float => length r = length x)
                 (map (fun v : float => replicate (length x) v) y)).
  { apply Forall_forall. intros r Hr. apply list_elem_of_fmap in Hr.
    destruct Hr as (v & -> & _). apply length_replicate. }
  cbn zeta. unfold np_meshgrid. cbn [fst snd shape flat].
  split; [reflexivity|]. split; [reflexivity|].
  unfold wf_array. cbn [shape flat size foldr].
  rewrite (length_concat_rows _ _ Hx), (length_concat_rows _ _ Hy),
    !length_map.
  split; [lia|]. split; [lia|]. intros j i Hj Hi.
  unfold get. cbn [shape flat ravel size foldr].
  replace (j * (length x * 1) + (i * 1 + 0))%nat with (j * length x + i)%nat
    by lia.
  rewrite (nth_concat_rows _ _ nan Hx j i Hi),
    (nth_concat_rows _ _ nan Hy j i Hi).
  destruct (lookup_lt_is_Some_2 y j Hj) as [v Hv].
  assert (E1 : nth j (map (fun _ : float => x) y) [] = x).
  { rewrite nth_lookup, list_lookup_fmap, Hv. reflexivity. }
  assert (E2 : nth j (map (fun v : float => replicate (length x) v) y) []
               = replicate (length x) v).
  { rewrite nth_lookup, list_lookup_fmap, Hv. reflexivity. }
  rewrite E1, E2. split; [reflexivity|].
  rewrite nth_lookup, lookup_replicate_2 by exact Hi.
  rewrite nth_lookup, Hv. reflexivity.
Qed.

Lemma pixel_axis (n : nat) :
  (r <~ np_arange (HInt (Z.of_nat n)) ;;
   arr_op Z.sub sub r (HFloat (dyadic 1 (-1))))
  = Ok (Float64s (map (fun i => sub (of_Z (Z.of_nat i)) (dyadic 1 (-1)))
                      (seq 0 n))).
Proof.
  cbn [np_arange rbind arr_op]. rewrite Nat2Z.id, map_map. reflexivity.
Qed.

Lemma pixel_grid_run hdr (n1 n2 : nat) :
  header_get hdr "NAXIS1" = Ok (HInt (Z.of_nat n1)) ->
  header_get hdr "NAXIS2" = Ok (HInt (Z.of_nat n2)) ->
  exists xgrid ygrid,
    pixel_grid hdr = Ok (xgrid, ygrid) /\
    shape xgrid = [n2; n1] /\ shape ygrid = [n2; n1] /\
    wf_array xgrid /\ wf_array ygrid /\
    forall j i, (j < n2)%nat -> (i < n1)%nat ->
      get xgrid [j; i] = sub (of_Z (Z.of_nat i)) (dyadic 1 (-1)) /\
      get ygrid [j; i] = sub (of_Z (Z.of_nat j)) (dyadic 1 (-1)).
Proof.
  intros H1 H2. unfold pixel_grid. rewrite H1, H2. cbn [rbind].
  pose proof (pixel_axis n1) as P1. pose proof (pixel_axis n2) as P2.
  destruct (np_arange (HInt (Z.of_nat n1))) as [r1|]; cbn [rbind] in *;
    [|discriminate].
  rewrite P1. cbn [rbind].
  destruct (np_arange (HInt (Z.of_nat n2))) as [r2|]; cbn [rbind] in *;
    [|discriminate].
  rewrite P2. cbn [rbind np1d_floats].
  set (xs := map _ (seq 0 n1)). set (ys := map _ (seq 0 n2)).
  destruct (np_meshgrid_spec xs ys) as (S1 & S2 & W1 & W2 & G).
  assert (L1 : length xs = n1)
    by (unfold xs; rewrite length_map, length_seq; reflexivity).
  assert (L2 : length ys = n2)
    by (unfold ys; rewrite length_map, length_seq; reflexivity).
  rewrite L1, L2 in *.
  exists (fst (np_meshgrid xs ys)), (snd (np_meshgrid xs ys)).
  split; [rewrite <- surjective_pairing; reflexivity|].
  split; [exact S1|]. split; [exact S2|]. split; [exact W1|].
  split; [exact W2|]. intros j i Hj Hi. destruct (G j i Hj Hi) as [Gx Gy].
  rewrite Gx, Gy. unfold xs, ys.
  rewrite !nth_lookup, !list_lookup_fmap, !lookup_seq_lt by assumption.
  split; reflexivity.
Qed.

End GridFacts.

(** X24. The four [fcoordgrid] functions hand the same pixel grid to
    [all_pix2world]: two arrays of shape (NAXIS2, NAXIS1) whose samples at
    row j and column i are i - 0.5 and j - 0.5. [fcoordgrid_EQ] and
    [fcoordgrid_GAL] build the coordinates of their frame from the result;
    [fcoordgrid_EQtoGAL] and [fcoordgrid_GALtoEQ] then change the frame. *)
Theorem fcoordgrid_pixel_grid (wcs : Type) WCS all_pix2world
    SkyCoord_fk5 SkyCoord_galactic to_galactic to_fk5
    (f : fs) filedir x (w : wcs) (n1 n2 : nat) :
  f filedir = Some x ->
  WCS (hdu_header x) = Ok w ->
  header_get (hdu_header x) "NAXIS1" = Ok (HInt (Z.of_nat n1)) ->
  header_get (hdu_header x) "NAXIS2" = Ok (HInt (Z.of_nat n2)) ->
  exists xgrid ygrid,
    shape xgrid = [n2; n1] /\ shape ygrid = [n2; n1] /\
    (forall j i, (j < n2)%nat -> (i < n1)%nat ->
       get xgrid [j; i] = sub (of_Z (Z.of_nat i)) (dyadic 1 (-1)) /\
       get ygrid [j; i] = sub (of_Z (Z.of_nat j)) (dyadic 1 (-1))) /\
    fcoordgrid_EQ wcs WCS all_pix2world SkyCoord_fk5 filedir f
    = (f, world <~ all_pix2world w xgrid ygrid ;;
          SkyCoord_fk5 (fst world) (snd world)) /\
    fcoordgrid_GAL wcs WCS all_pix2world SkyCoord_galactic filedir f
    = (f, world <~ all_pix2world w xgrid ygrid ;;
          SkyCoord_galactic (fst world) (snd world)) /\
    fcoordgrid_EQtoGAL wcs WCS all_pix2world SkyCoord_fk5 to_galactic
      filedir f
    = (f, world <~ all_pix2world w xgrid ygrid ;;
          radec_coords <~ SkyCoord_fk5 (fst world) (snd world) ;;
          to_galactic radec_coords) /\
    fcoordgrid_GALtoEQ wcs WCS all_pix2world SkyCoord_galactic to_fk5
      filedir f
    = (f, world <~ all_pix2world w xgrid ygrid ;;
          lb_coords <~ SkyCoord_galactic (fst world) (snd world) ;;
          to_fk5 lb_coords).
Proof.
  intros Hf Hw H1 H2.
  destruct (pixel_grid_run _ n1 n2 H1 H2)
    as (xgrid & ygrid & Hg & S1 & S2 & _ & _ & G).
  exists xgrid, ygrid. split; [exact S1|]. split; [exact S2|].
  split; [exact G|].
  unfold fcoordgrid_EQ, fcoordgrid_GAL, fcoordgrid_EQtoGAL,
    fcoordgrid_GALtoEQ, bind, getdata, lift.
  rewrite Hf, Hw, Hg. repeat split.
Qed.

Lemma fcoordgrid_pixel_grid_witness :
  exists xgrid ygrid,
    get xgrid [1; 0]%nat = dyadic (-1) (-1) /\
    get ygrid [1; 0]%nat = dyadic 1 (-1) /\
    fcoordgrid_EQ unit WCS_ex all_pix2world_ex SkyCoord_fk5_ex "sky.fits"
      sky_fs_ex
    = (sky_fs_ex, Ok (mk_equatorial xgrid ygrid)).
Proof.
  destruct (fcoordgrid_pixel_grid unit WCS_ex all_pix2world_ex
              SkyCoord_fk5_ex SkyCoord_galactic_ex to_galactic_ex to_fk5_ex
              sky_fs_ex "sky.fits" (mk_hdu sky_image_ex sky_header_ex) tt
              2%nat 2%nat eq_refl eq_refl eq_refl eq_refl)
    as (xgrid & ygrid & _ & _ & G & Heq & _).
  exists xgrid, ygrid. destruct (G 1%nat 0%nat) as [Gx Gy]; [lia|lia|].
  split; [rewrite Gx; reflexivity|]. split; [rewrite Gy; reflexivity|].
  exact Heq.
Defined.

(** X25. The four [fcoordgrid] functions never change a file; they raise
    [IOError] when the file is missing and, once the WCS is built,
    [KeyError] when the header lacks NAXIS1 or NAXIS2. *)
Theorem fcoordgrid_errors (wcs : Type) WCS all_pix2world
    SkyCoord_fk5 SkyCoord_galactic to_galactic to_fk5 (f : fs) filedir :
  let EQ := fcoordgrid_EQ wcs WCS all_pix2world SkyCoord_fk5 filedir f in
  let GAL := fcoordgrid_GAL wcs WCS all_pix2world SkyCoord_galactic filedir f in
  let EQtoGAL := fcoordgrid_EQtoGAL wcs WCS all_pix2world SkyCoord_fk5
                   to_galactic filedir f in
  let GALtoEQ := fcoordgrid_GALtoEQ wcs WCS all_pix2world SkyCoord_galactic
                   to_fk5 filedir f in
  (fst EQ = f /\ fst GAL = f /\ fst EQtoGAL = f /\ fst GALtoEQ = f) /\
  (f filedir = None ->
   snd EQ = Raise IOError /\ snd GAL = Raise IOError /\
   snd EQtoGAL = Raise IOError /\ snd GALtoEQ = Raise IOError) /\
  (forall x (w : wcs),
     f filedir = Some x -> WCS (hdu_header x) = Ok w ->
     has_key (header_keys (hdu_header x)) "NAXIS1"
     && has_key (header_keys (hdu_header x)) "NAXIS2" = false ->
     snd EQ = Raise KeyError /\ snd GAL = Raise KeyError /\
     snd EQtoGAL = Raise KeyError /\ snd GALtoEQ = Raise KeyError).
Proof.
  cbn zeta.
  unfold fcoordgrid_EQ, fcoordgrid_GAL, fcoordgrid_EQtoGAL,
    fcoordgrid_GALtoEQ, bind, getdata, lift.
  destruct (f filedir) as [x|] eqn:Hf; cbn [fst snd].
  - split; [repeat split|]. split; [discriminate|].
    intros x' w [= <-] Hw Hk. rewrite Hw. cbn [rbind].
    assert (Hg : pixel_grid (hdu_header x) = Raise KeyError).
    { unfold pixel_grid.
      destruct (header_get (hdu_header x) "NAXIS1") as [v1|e1] eqn:E1;
        [|rewrite (header_get_raise _ _ _ E1); reflexivity].
      destruct (header_get (hdu_header x) "NAXIS2") as [v2|e2] eqn:E2;
        [|rewrite (header_get_raise _ _ _ E2); reflexivity].
      rewrite (header_get_has_key _ _ _ E1), (header_get_has_key _ _ _ E2)
        in Hk. discriminate. }
    rewrite Hg. repeat split.
  - split; [repeat split|]. split; [repeat split|].
    intros x w [=].
Qed.

Lemma fcoordgrid_errors_witness :
  snd (fcoordgrid_EQtoGAL unit WCS_ex all_pix2world_ex SkyCoord_fk5_ex
         to_galactic_ex "none.fits" sky_fs_ex) = Raise IOError /\
  snd (fcoordgrid_EQtoGAL unit WCS_ex all_pix2world_ex SkyCoord_fk5_ex
         to_galactic_ex "cube.fits" fs_ex) = Raise KeyError.
Proof.
  destruct (fcoordgrid_errors unit WCS_ex all_pix2world_ex
              SkyCoord_fk5_ex SkyCoord_galactic_ex to_galactic_ex to_fk5_ex
              sky_fs_ex "none.fits") as (_ & Hnone & _).
  destruct (fcoordgrid_errors unit WCS_ex all_pix2world_ex
              SkyCoord_fk5_ex SkyCoord_galactic_ex to_galactic_ex to_fk5_ex
              fs_ex "cube.fits") as (_ & _ & Hkey).
  split.
  - apply Hnone. reflexivity.
  - apply (Hkey cube_ex tt); reflexivity.
Defined.

(** X26. [fmask2DEQhighlat] composes the coordinate grid, the mask and the
    product: when the latitude grid that [fcoordgrid_EQtoGAL] returns has
    the shape of the data, the result has that shape too, a pixel with
    |b| < blim is NaN and every other pixel is the data sample itself; with
    a limit that is not positive the data is returned unchanged. No file
    is changed. *)
Theorem fmask2DEQhighlat_samples (wcs : Type) WCS all_pix2world
    SkyCoord_fk5 to_galactic (f : fs) filedir x lb blim :
  f filedir = Some x ->
  snd (fcoordgrid_EQtoGAL wcs WCS all_pix2world SkyCoord_fk5 to_galactic
         filedir f) = Ok lb ->
  valid_array (hdu_data x) ->
  shape (b_deg lb) = shape (hdu_data x) ->
  wf_array (b_deg lb) ->
  exists masked,
    fmask2DEQhighlat wcs WCS all_pix2world SkyCoord_fk5 to_galactic
      filedir blim f = (f, Ok masked) /\
    shape masked = shape (hdu_data x) /\
    (forall p d b,
       flat (hdu_data x) !! p = Some d -> flat (b_deg lb) !! p = Some b ->
       flat masked !! p = Some (if ltb (np_abs b) blim then nan else d)) /\
    (ltb zero blim = false -> masked = hdu_data x).
Proof.
  intros Hf Hlb [Hwf Hv] Hs Hwb.
  assert (Hrun : fcoordgrid_EQtoGAL wcs WCS all_pix2world SkyCoord_fk5
                   to_galactic filedir f = (f, Ok lb)).
  { rewrite <- Hlb. unfold fcoordgrid_EQtoGAL, bind, getdata, lift.
    rewrite Hf. reflexivity. }
  unfold fmask2DEQhighlat, bind, lift.
  unfold getdata at 1. rewrite Hf, Hrun.
  rewrite (fhighlatmask_eq _ _ Hwb).
  rewrite np_binop_same_shape by (cbn [np_map shape]; exact Hs).
  eexists. split; [reflexivity|]. split; [reflexivity|].
  cbn [flat np_map]. rewrite <- Hwf.
  assert (Hlen : length (flat (b_deg lb)) = length (flat (hdu_data x))).
  { rewrite Hwb, Hs, <- Hwf. reflexivity. }
  split.
  - intros p d b Hd Hb. pose proof (lookup_lt_Some _ _ _ Hd) as Hp.
    rewrite list_lookup_fmap, lookup_seq_lt by exact Hp.
    cbn [fmap option_fmap option_map Nat.add]. f_equal.
    rewrite (nth_lookup _ p), Hd, (nth_lookup _ p), list_lookup_fmap, Hb.
    cbn [fmap option_fmap option_map default]. unfold highlat_sample.
    destruct (ltb (np_abs b) blim); [apply mul_nan_r|].
    apply mul_one. exact (proj1 (Forall_lookup _ _) Hv p d Hd).
  - intros Hb. destruct (hdu_data x) as [sh fl] eqn:Ex. cbn [shape flat] in *.
    f_equal.
    transitivity (map (fun q => nth q fl nan) (seq 0 (length fl)));
      [|apply map_nth_seq].
    apply map_ext_in. intros p Hp. apply in_seq in Hp.
    rewrite (nth_lookup (map _ _)), list_lookup_fmap.
    destruct (lookup_lt_is_Some_2 (flat (b_deg lb)) p ltac:(lia)) as [b Hb'].
    rewrite Hb'. cbn [fmap option_fmap option_map default].
    rewrite (highlat_sample_nonpositive _ _ Hb). apply mul_one.
    rewrite nth_lookup.
    destruct (fl !! p) as [d|] eqn:E; [|reflexivity].
    exact (proj1 (Forall_lookup _ _) Hv p d E).
Qed.

Lemma fmask2DEQhighlat_samples_witness :
  exists masked,
    fmask2DEQhighlat unit WCS_ex all_pix2world_ex SkyCoord_fk5_ex
      to_galactic_ex "sky.fits" (of_Z 20) sky_fs_ex
    = (sky_fs_ex, Ok masked) /\
    flat masked !! 0%nat = Some nan /\
    flat masked !! 1%nat = Some (of_Z 2).
Proof.
  destruct (fmask2DEQhighlat_samples unit WCS_ex all_pix2world_ex
              SkyCoord_fk5_ex to_galactic_ex sky_fs_ex "sky.fits"
              (mk_hdu sky_image_ex sky_header_ex)
              (mk_galactic
                 (mk_ndarray [2; 2]%nat
                    [dyadic (-1) (-1); dyadic 1 (-1);
                     dyadic (-1) (-1); dyadic 1 (-1)])
                 latitudes_ex)
              (of_Z 20) eq_refl eq_refl)
    as (masked & Hrun & _ & Hp & _).
  - split; [reflexivity|]. repeat constructor.
  - reflexivity.
  - reflexivity.
  - exists masked. split; [exact Hrun|]. split.
    + apply (Hp 0%nat (of_Z 1) (of_Z (-5))); reflexivity.
    + apply (Hp 1%nat (of_Z 2) (of_Z 30)); reflexivity.
Defined.

(** ** [freproject_2D] *)

Section CleanHeader.

Implicit Types (h hdr clean : header) (k key : string).

Lemma header_get_update_first_ne h key v k :
  k <> key -> header_get (update_first h key v) k = header_get h k.
Proof.
  intros Hne. induction h as [|[k0 w] h IH]; [reflexivity|].
  cbn [update_first]. destruct (String.eqb_spec k0 key) as [->|Hk].
  - cbn [header_get].
    rewrite (proj2 (String.eqb_neq key k)) by congruence. reflexivity.
  - cbn [header_get]. rewrite IH. reflexivity.
Qed.

Lemma has_key_header_get h key :
  has_key (header_keys h) key = true -> exists v, header_get h key = Ok v.
Proof.
  induction h as [|[k w] h IH]; [discriminate|].
  rewrite header_keys_cons, has_key_cons. cbn [fst header_get].
  rewrite (String.eqb_sym key k). destruct (String.eqb k key); cbn [orb];
    eauto.
Qed.

Lemma no_key_header_get h key :
  has_key (header_keys h) key = false -> header_get h key = Raise KeyError.
Proof.
  intros H. destruct (header_get h key) as [v|e] eqn:E.
  - rewrite (header_get_has_key _ _ _ E) in H. discriminate.
  - rewrite (header_get_raise _ _ _ E). reflexivity.
Qed.

Lemma foldl_copy_card_raise hdr e keys :
  foldl (copy_card hdr) (Raise e) keys = Raise e.
Proof. induction keys as [|k keys IH]; [reflexivity|exact IH]. Qed.

Lemma copy_cards_ok hdr keys :
  NoDup keys ->
  forall clean,
    (forall k, k ∈ keys -> has_key (header_keys clean) k = true) ->
    (forall k, k ∈ keys -> has_key (header_keys hdr) k = true) ->
    exists c,
      foldl (copy_card hdr) (Ok clean) keys = Ok c /\
      header_keys c = header_keys clean /\
      (forall k, k ∈ keys -> header_get c k = header_get hdr k) /\
      (forall k, k ∉ keys -> header_get c k = header_get clean k).
Proof.
  induction 1 as [|k keys Hk Hnd IH]; intros clean Hc Hh.
  - exists clean. split; [reflexivity|]. split; [reflexivity|].
    split; [|reflexivity]. intros k Hk. apply not_elem_of_nil in Hk. tauto.
  - destruct (has_key_header_get _ _ (Hh k (list_elem_of_here _ _)))
      as [v Hv].
    pose proof (Hc k (list_elem_of_here _ _)) as Hck.
    assert (Hset : header_set clean k v = update_first clean k v).
    { unfold header_set. rewrite Hck. reflexivity. }
    destruct (IH (header_set clean k v)) as (c & Hrun & Hkeys & Hin & Hout).
    + intros k' Hk'. rewrite Hset, header_keys_update_first.
      apply Hc, list_elem_of_further, Hk'.
    + intros k' Hk'. apply Hh, list_elem_of_further, Hk'.
    + exists c. split.
      { cbn [foldl]. unfold copy_card at 2. cbn [rbind]. rewrite Hv.
        exact Hrun. }
      split; [rewrite Hkeys, Hset; apply header_keys_update_first|].
      split.
      * intros k' Hk'. apply elem_of_cons in Hk' as [->|Hk'].
        -- rewrite (Hout k Hk), Hv. apply header_get_header_set.
        -- apply Hin, Hk'.
      * intros k' Hk'. rewrite Hout
          by (intros ?; apply Hk', list_elem_of_further; assumption).
        rewrite Hset. apply header_get_update_first_ne.
        intros ->. apply Hk', list_elem_of_here.
Qed.

Lemma copy_cards_missing hdr keys :
  forall clean,
    (exists k, k ∈ keys /\ has_key (header_keys hdr) k = false) ->
    foldl (copy_card hdr) (Ok clean) keys = Raise KeyError.
Proof.
  induction keys as [|k keys IH]; intros clean (k0 & Hk0 & Hno).
  - apply not_elem_of_nil in Hk0. tauto.
  - cbn [foldl]. unfold copy_card at 2. cbn [rbind].
    destruct (has_key (header_keys hdr) k) eqn:E.
    + destruct (has_key_header_get _ _ E) as [v Hv]. rewrite Hv.
      apply IH. exists k0. split; [|exact Hno].
      apply elem_of_cons in Hk0 as [->|Hk0]; [congruence|exact Hk0].
    + rewrite (no_key_header_get _ _ E). apply foldl_copy_card_raise.
Qed.

Lemma clean_header_ok undefined hdr :
  (forall k, k ∈ copied_keys -> has_key (header_keys hdr) k = true) ->
  exists c,
    clean_header undefined hdr = Ok c /\
    header_keys c = clean_keys /\
    header_get c "NAXIS" = Ok (HInt 2) /\
    forall k, k ∈ copied_keys -> header_get c k = header_get hdr k.
Proof.
  intros Hh. unfold clean_header.
  destruct (copy_cards_ok hdr copied_keys ltac:(compute_done)
              (header_set (fromkeys undefined clean_keys) "NAXIS" (HInt 2)))
    as (c & Hrun & Hkeys & Hin & Hout).
  - intros k Hk. apply has_key_elem.
    change (k ∈ "NAXIS" :: copied_keys). apply list_elem_of_further, Hk.
  - exact Hh.
  - exists c. split; [exact Hrun|]. split; [exact Hkeys|].
    split; [|exact Hin]. rewrite Hout; [reflexivity|].
    apply (bool_decide_unpack _). compute_done.
Qed.

Lemma clean_header_missing undefined hdr :
  (exists k, k ∈ copied_keys /\ has_key (header_keys hdr) k = false) ->
  clean_header undefined hdr = Raise KeyError.
Proof. apply copy_cards_missing. Qed.

End CleanHeader.

Section HeaderExt.

Lemma header_ext (c c' : header) :
  NoDup (header_keys c) ->
  header_keys c = header_keys c' ->
  (forall k, k ∈ header_keys c -> header_get c k = header_get c' k) ->
  c = c'.
Proof.
  revert c'. induction c as [|[k v] c IH]; intros [|[k' v'] c'] Hnd Hk Hg;
    try discriminate; [reflexivity|].
  rewrite !header_keys_cons in *. cbn [fst] in *.
  injection Hk as <- Hk. apply NoDup_cons in Hnd as [Hnot Hnd].
  pose proof (Hg k (list_elem_of_here _ _)) as Hv. cbn [header_get] in Hv.
  rewrite String.eqb_refl in Hv. injection Hv as <-. f_equal.
  apply IH; [exact Hnd|exact Hk|]. intros k0 Hk0.
  specialize (Hg k0 (list_elem_of_further _ _ _ Hk0)). cbn [header_get] in Hg.
  rewrite (proj2 (String.eqb_neq k k0)) in Hg by (intros ->; auto).
  exact Hg.
Qed.

Lemma clean_header_undefined u u' hdr :
  clean_header u hdr = clean_header u' hdr.
Proof.
  destruct (decide (Forall (fun k => has_key (header_keys hdr) k = true)
                      copied_keys)) as [Hall|Hnot].
  - rewrite Forall_forall in Hall.
    destruct (clean_header_ok u hdr Hall) as (c & -> & Hk & Hn & Hg).
    destruct (clean_header_ok u' hdr Hall) as (c' & -> & Hk' & Hn' & Hg').
    f_equal. apply header_ext.
    + rewrite Hk. compute_done.
    + congruence.
    + intros k Hin. rewrite Hk in Hin.
      change (k ∈ "NAXIS" :: copied_keys) in Hin.
      apply elem_of_cons in Hin as [->|Hin]; [congruence|].
      rewrite Hg, Hg' by exact Hin. reflexivity.
  - apply not_Forall_Exists in Hnot; [|intros k; apply _].
    apply Exists_exists in Hnot as (k & Hin & Hno).
    apply not_true_is_false in Hno.
    rewrite !clean_header_missing by eauto. reflexivity.
Qed.

End HeaderExt.

(** X27. With [clean=True] and both headers holding the ten copied
    keywords, [freproject_2D] reprojects with two minimal headers: each has
    exactly the eleven keywords NAXIS, NAXIS1, ..., CDELT2 in that order,
    NAXIS equal to 2 and, for each other keyword, the value of the first
    card of its image; these headers are also the ones returned. The
    placeholder value of the cards that [Header.fromkeys] creates never
    shows. *)
Theorem freproject_2D_clean_headers reproject_interp undefined (f : fs)
    image1_dir image2_dir order x1 x2 :
  f image1_dir = Some x1 ->
  f image2_dir = Some x2 ->
  (forall k, k ∈ copied_keys ->
     has_key (header_keys (hdu_header x1)) k = true) ->
  (forall k, k ∈ copied_keys ->
     has_key (header_keys (hdu_header x2)) k = true) ->
  exists c1 c2,
    freproject_2D reproject_interp undefined image1_dir image2_dir true
      order f
    = (f, r <~ reproject_interp (hdu_data x1) c1 c2 order ;;
          Ok (hdu_data x1, hdu_header x1, fst r, c1,
              hdu_data x2, c2, snd r)) /\
    header_keys c1 = clean_keys /\ header_keys c2 = clean_keys /\
    header_get c1 "NAXIS" = Ok (HInt 2) /\
    header_get c2 "NAXIS" = Ok (HInt 2) /\
    (forall k, k ∈ copied_keys ->
       header_get c1 k = header_get (hdu_header x1) k /\
       header_get c2 k = header_get (hdu_header x2) k) /\
    (forall undefined',
       freproject_2D reproject_interp undefined' image1_dir image2_dir true
         order f
       = freproject_2D reproject_interp undefined image1_dir image2_dir true
           order f).
Proof.
  intros Hf1 Hf2 H1 H2.
  destruct (clean_header_ok undefined _ H1) as (c1 & Hc1 & Hk1 & Hn1 & Hg1).
  destruct (clean_header_ok undefined _ H2) as (c2 & Hc2 & Hk2 & Hn2 & Hg2).
  exists c1, c2. split.
  { unfold freproject_2D, bind, getdata, lift, ret.
    rewrite Hf1, Hf2, Hc1, Hc2. cbn [rbind fst snd].
    destruct (reproject_interp _ _ _ _); reflexivity. }
  repeat (split; [assumption|]). split; [intros k Hk; auto|].
  intros u'. unfold freproject_2D, bind, getdata, lift, ret.
  rewrite Hf1, Hf2, !(clean_header_undefined u' undefined). reflexivity.
Qed.

Lemma freproject_2D_clean_headers_witness :
  exists c1 c2,
    snd (freproject_2D reproject_interp_ex (HStr "") "image1.fits"
           "image2.fits" true "bilinear" reproject_fs_ex)
    = Ok (image_ex, wcs_header_ex 2, image_ex, c1, data_ex, c2,
          np_ones [1; 2]%nat) /\
    header_keys c1 = clean_keys /\
    header_get c1 "NAXIS1" = Ok (HInt 2) /\
    header_get c2 "NAXIS1" = Ok (HInt 3).
Proof.
  destruct (freproject_2D_clean_headers reproject_interp_ex (HStr "")
              reproject_fs_ex "image1.fits" "image2.fits" "bilinear"
              (mk_hdu image_ex (wcs_header_ex 2))
              (mk_hdu data_ex (wcs_header_ex 3)) eq_refl eq_refl)
    as (c1 & c2 & Hrun & Hk1 & _ & _ & _ & Hg & _).
  - intros k Hk. apply has_key_elem. revert k Hk. apply Forall_forall.
    compute_done.
  - intros k Hk. apply has_key_elem. revert k Hk. apply Forall_forall.
    compute_done.
  - exists c1, c2. rewrite Hrun. split; [reflexivity|]. split; [exact Hk1|].
    destruct (Hg "NAXIS1") as [G1 G2]; [compute_done|].
    rewrite G1, G2. split; reflexivity.
Defined.

(** X28. Errors of [freproject_2D]: a missing file gives [IOError]; with
    [clean=True] a header of either image that lacks one of the ten copied
    keywords gives [KeyError]; no file is ever changed. *)
Theorem freproject_2D_errors reproject_interp undefined (f : fs)
    image1_dir image2_dir clean order :
  (f image1_dir = None \/ f image2_dir = None ->
   freproject_2D reproject_interp undefined image1_dir image2_dir clean
     order f = (f, Raise IOError)) /\
  (forall x1 x2 k,
     f image1_dir = Some x1 -> f image2_dir = Some x2 ->
     k ∈ copied_keys ->
     has_key (header_keys (hdu_header x1)) k
     && has_key (header_keys (hdu_header x2)) k = false ->
     freproject_2D reproject_interp undefined image1_dir image2_dir true
       order f = (f, Raise KeyError)) /\
  fst (freproject_2D reproject_interp undefined image1_dir image2_dir clean
         order f) = f.
Proof.
  repeat apply conj.
  - unfold freproject_2D, bind, getdata.
    intros [H|H]; [rewrite H; reflexivity|].
    destruct (f image1_dir); [rewrite H|]; reflexivity.
  - intros x1 x2 k Hf1 Hf2 Hk Hno.
    unfold freproject_2D, bind, getdata, lift. rewrite Hf1, Hf2.
    destruct (has_key (header_keys (hdu_header x1)) k) eqn:E1.
    + cbn [andb] in Hno.
      rewrite (clean_header_missing undefined (hdu_header x2)) by eauto.
      destruct (clean_header undefined (hdu_header x1)) as [c1|e] eqn:E;
        [reflexivity|].
      unfold clean_header in E.
      destruct (decide (Forall (fun k => has_key (header_keys (hdu_header x1))
                                           k = true) copied_keys))
        as [Hall|Hnot].
      * rewrite Forall_forall in Hall.
        destruct (clean_header_ok undefined _ Hall) as (c & Hc & _).
        unfold clean_header in Hc. congruence.
      * apply not_Forall_Exists in Hnot; [|intros k0; apply _].
        apply Exists_exists in Hnot as (k0 & Hin & Hno0).
        apply not_true_is_false in Hno0.
        pose proof (clean_header_missing undefined (hdu_header x1)
                      ltac:(eauto)) as Hm.
        unfold clean_header in Hm. rewrite Hm in E. injection E as <-.
        reflexivity.
    + rewrite (clean_header_missing undefined (hdu_header x1)) by eauto.
      reflexivity.
  - unfold freproject_2D, bind, getdata, lift, ret.
    destruct (f image1_dir); [|reflexivity].
    destruct (f image2_dir); [|reflexivity].
    destruct (if clean then _ else _); [|reflexivity].
    destruct (reproject_interp _ _ _ _); reflexivity.
Qed.

Lemma freproject_2D_errors_witness :
  freproject_2D reproject_interp_ex (HStr "") "image1.fits" "cube.fits" true
    "bilinear" reproject_fs_ex = (reproject_fs_ex, Raise KeyError) /\
  freproject_2D reproject_interp_ex (HStr "") "image1.fits" "none.fits" true
    "bilinear" reproject_fs_ex = (reproject_fs_ex, Raise IOError).
Proof.
  destruct (freproject_2D_errors reproject_interp_ex (HStr "")
              reproject_fs_ex "image1.fits" "cube.fits" true "bilinear")
    as (_ & Hkey & _).
  destruct (freproject_2D_errors reproject_interp_ex (HStr "")
              reproject_fs_ex "image1.fits" "none.fits" true "bilinear")
    as (Hio & _ & _).
  split.
  - apply (Hkey (mk_hdu image_ex (wcs_header_ex 2)) cube_ex "NAXIS1");
      [reflexivity|reflexivity|compute_done|reflexivity].
  - apply Hio. right. reflexivity.
Defined.

(** X29. With [clean=False] [freproject_2D] pairs the data of image 1 with
    the header of image 2: [reproject_interp] receives the header of
    image 2 as input header and as output header, and that header is
    returned as [image1_header_reproj]. The reprojected data and the
    footprint therefore do not depend on the header of image 1. *)
Theorem freproject_2D_template_header reproject_interp undefined (f : fs)
    image1_dir image2_dir order x1 x2 :
  f image1_dir = Some x1 ->
  f image2_dir = Some x2 ->
  freproject_2D reproject_interp undefined image1_dir image2_dir false
    order f
  = (f, r <~ reproject_interp (hdu_data x1) (hdu_header x2) (hdu_header x2)
               order ;;
        Ok (hdu_data x1, hdu_header x1, fst r, hdu_header x2,
            hdu_data x2, hdu_header x2, snd r)) /\
  forall (f' : fs) x1',
    f' image1_dir = Some x1' -> f' image2_dir = Some x2 ->
    hdu_data x1' = hdu_data x1 ->
    result_map reprojected
      (snd (freproject_2D reproject_interp undefined image1_dir image2_dir
              false order f'))
    = result_map reprojected
        (snd (freproject_2D reproject_interp undefined image1_dir image2_dir
                false order f)).
Proof.
  intros Hf1 Hf2.
  assert (Hrun : forall (g : fs) y1,
            g image1_dir = Some y1 -> g image2_dir = Some x2 ->
            freproject_2D reproject_interp undefined image1_dir image2_dir
              false order g
            = (g, r <~ reproject_interp (hdu_data y1) (hdu_header x2)
                         (hdu_header x2) order ;;
                  Ok (hdu_data y1, hdu_header y1, fst r, hdu_header x2,
                      hdu_data x2, hdu_header x2, snd r))).
  { intros g y1 Hg1 Hg2. unfold freproject_2D, bind, getdata, lift, ret.
    rewrite Hg1, Hg2. cbn [rbind fst snd].
    destruct (reproject_interp _ _ _ _); reflexivity. }
  split; [apply Hrun; assumption|].
  intros f' x1' Hf1' Hf2' Hd.
  rewrite (Hrun f' x1' Hf1' Hf2'), (Hrun f x1 Hf1 Hf2). cbn [snd].
  rewrite Hd. destruct (reproject_interp _ _ _ _); reflexivity.
Qed.

Lemma freproject_2D_template_header_witness :
  snd (freproject_2D reproject_interp_ex (HStr "") "image1.fits" "image2.fits"
         false "bilinear" reproject_fs_ex)
  = Ok (image_ex, wcs_header_ex 2, image_ex, wcs_header_ex 3, data_ex,
        wcs_header_ex 3, np_ones [1; 2]%nat).
Proof.
  destruct (freproject_2D_template_header reproject_interp_ex (HStr "")
              reproject_fs_ex "image1.fits" "image2.fits" "bilinear"
              (mk_hdu image_ex (wcs_header_ex 2))
              (mk_hdu data_ex (wcs_header_ex 3)) eq_refl eq_refl)
    as [Hrun _].
  rewrite Hrun. reflexivity.
Defined.
